(** * Collections: the tree of collections and its item links

    A shallow embedding of [superset/collections/models.py] and
    [superset/collections/dao.py], and the properties of the collection
    tree, the cycle check and the membership operations.

    Modelling decisions.
    - Python [int] is [Z]; [Optional[int]] is [option Z]; the truth value
      of an integer ([if parent_id:], [while current_id:]) is [truthy].
    - Python [str] is [string], its characters read as code points below
      256.
    - The table [sp_collection] is a finite map from the primary key [id]
      to the remaining columns; the three link tables are lists of rows in
      insertion order, which is also the order of a query without
      [ORDER BY]; the item catalogues are finite maps from the item's id.
      The table of permissions plays no part in the methods modelled and
      is left out.
    - [order_by(SpCollection.name)] is the order of [String.le].
    - The three branches on the item type that the DAO methods repeat
      differ in the link table only; they are one definition over
      [link_table].
    - A session holds the committed store and the working copy the ORM
      objects live in. DAO methods that write are computations over the
      session that may raise. [commit] writes the working copy as the
      code assigned it and enforces, on the rows the flush writes, the
      unique constraints and the foreign keys declared in the models.
      The values that column defaults give the audit columns at a flush
      ([changed_on], and [changed_by_fk] where the code did not assign
      it) and the ORM's own bookkeeping of relationships are not part of
      the model.
    - Recursion without a static bound ([while] in the cycle check, the
      recursive tree builder) takes fuel; [None] means that the fuel ran
      out before the code returned. *)

From stdpp Require Import base option list sorting gmap strings.
From Stdlib Require Import ZArith Lia Ascii.
From Stdlib Require String.

Open Scope Z_scope.

(** ** Python values *)

Definition truthy (z : Z) : bool := negb (z =? 0).

Definition opt_truthy (o : option Z) : bool :=
  match o with
  | Some z => truthy z
  | None => false
  end.

(** ** constants.py *)

Inductive CollectionItemType := DASHBOARD | CHART | DATASET.

Global Instance CollectionItemType_eq_dec : EqDecision CollectionItemType.
Proof. solve_decision. Defined.

Definition MAX_TREE_DEPTH : Z := 10.

(** ** exceptions.py, and the other exceptions the code lets through *)

(** The constraint an [IntegrityError] reports. For the foreign key of
    [parent_id], [shows_slug] is whether the text of the exception, which
    shows the failed statement, has the word slug in it. *)
Inductive Constraint :=
  | uq_slug
  | uq_collection_item (t : CollectionItemType)
  | pk_collection
  | fk_parent_id (shows_slug : bool)
  | fk_link_collection (t : CollectionItemType)
  | fk_link_item (t : CollectionItemType).

Inductive Exn :=
  | CollectionNotFoundError
  | CollectionCycleError
  | CollectionSlugExistsError
  | CollectionItemAlreadyExistsError
  | CollectionItemNotFoundError
  | ValueError
  | IntegrityError (c : Constraint).

Inductive outcome (A : Type) :=
  | Return (a : A)
  | Raise (e : Exn).
Arguments Return {A} a.
Arguments Raise {A} e.

(** ** models.py: rows *)

Record SpCollection := mkSpCollection {
  uuid : string;
  name : string;
  slug : string;
  description : option string;
  parent_id : option Z;
  is_official : bool;
  item_count : Z;
  created_by_fk : option Z;
  changed_by_fk : option Z
}.

(** A row of [sp_collection_dashboard], [sp_collection_chart] or
    [sp_collection_dataset]; [link_item_id] is the column [dashboard_id],
    [chart_id] or [dataset_id]. *)
Record Link := mkLink {
  link_collection_id : Z;
  link_item_id : Z;
  link_created_by_fk : option Z;
  link_created_on : Z
}.

Record Dashboard := mkDashboard {
  dashboard_title : string;
  dashboard_slug : option string;
  dashboard_url : string
}.

Record Slice := mkSlice {
  slice_name : string;
  viz_type : string;
  slice_url : string
}.

Record SqlaTable := mkSqlaTable {
  table_name : string;
  schema : option string;
  database_name : option string
}.

Record Store := mkStore {
  sp_collection : gmap Z SpCollection;
  sp_collection_dashboard : list Link;
  sp_collection_chart : list Link;
  sp_collection_dataset : list Link;
  dashboards : gmap Z Dashboard;
  slices : gmap Z Slice;
  tables : gmap Z SqlaTable
}.

Definition link_table (t : CollectionItemType) (s : Store) : list Link :=
  match t with
  | DASHBOARD => sp_collection_dashboard s
  | CHART => sp_collection_chart s
  | DATASET => sp_collection_dataset s
  end.

Definition set_link_table (t : CollectionItemType) (l : list Link) (s : Store)
  : Store :=
  match t with
  | DASHBOARD => mkStore (sp_collection s) l (sp_collection_chart s)
      (sp_collection_dataset s) (dashboards s) (slices s) (tables s)
  | CHART => mkStore (sp_collection s) (sp_collection_dashboard s) l
      (sp_collection_dataset s) (dashboards s) (slices s) (tables s)
  | DATASET => mkStore (sp_collection s) (sp_collection_dashboard s)
      (sp_collection_chart s) l (dashboards s) (slices s) (tables s)
  end.

Definition set_collections (m : gmap Z SpCollection) (s : Store) : Store :=
  mkStore m (sp_collection_dashboard s) (sp_collection_chart s)
    (sp_collection_dataset s) (dashboards s) (slices s) (tables s).

(** The item is in the catalogue of its type: [dashboards], [slices] or
    [tables] has a row of that id. *)
Definition in_catalogue (s : Store) (t : CollectionItemType) (iid : Z) : bool :=
  match t with
  | DASHBOARD => bool_decide (is_Some (dashboards s !! iid))
  | CHART => bool_decide (is_Some (slices s !! iid))
  | DATASET => bool_decide (is_Some (tables s !! iid))
  end.

(** ** Queries of the DAO *)

(** Modelled from the spec: [BaseDAO.find_by_id] of [superset/daos/base.py],
    the persistence interface's query-by-id: the row with that primary key,
    or nothing. *)
Definition find_by_id (s : Store) (i : Z) : option SpCollection :=
  sp_collection s !! i.

Definition name_le (a b : Z * SpCollection) : Prop :=
  String.le (name a.2) (name b.2).

Global Instance name_le_dec : RelDecision name_le.
Proof. intros a b. unfold name_le. apply _. Defined.

Definition find_by_slug (s : Store) (sl : string) : option (Z * SpCollection) :=
  head (filter (λ r, slug r.2 = sl) (map_to_list (sp_collection s))).

Definition find_root_collections (s : Store) : list (Z * SpCollection) :=
  merge_sort name_le
    (filter (λ r, parent_id r.2 = None) (map_to_list (sp_collection s))).

Definition find_children (s : Store) (parent : Z) : list (Z * SpCollection) :=
  merge_sort name_le
    (filter (λ r, parent_id r.2 = Some parent) (map_to_list (sp_collection s))).

(** ** models.py: the cycle check *)

(** The [while current_id:] loop of [has_cycle_with_parent]; one unit of
    fuel per evaluation of the loop condition. *)
Fixpoint has_cycle_loop (fuel : nat) (s : Store) (self_id : option Z)
    (current_id : option Z) (visited : gset Z) : option bool :=
  match fuel with
  | O => None
  | S fuel' =>
      match current_id with
      | None => Some false
      | Some cur =>
          if truthy cur then
            if decide (cur ∈ visited) then Some true
            else if decide (Some cur = self_id) then Some true
            else
              has_cycle_loop fuel' s self_id
                (match find_by_id s cur with
                 | Some parent => parent_id parent
                 | None => None
                 end)
                ({[cur]} ∪ visited)
          else Some false
      end
  end.

(** The loop stops within [size + 2] evaluations of its condition, on
    every store: each round adds an id that was not yet visited, and every
    visited id but the last has a row. *)
Lemma has_cycle_loop_bound (fuel : nat) (s : Store) (self_id current_id : option Z)
    (visited : gset Z) :
  visited ⊆ dom (sp_collection s) →
  (size (sp_collection s) + 2 ≤ fuel + size visited)%nat →
  is_Some (has_cycle_loop fuel s self_id current_id visited).
Proof.
  revert current_id visited.
  induction fuel as [|fuel IH]; intros current_id visited Hsub Hfuel.
  - apply subseteq_size in Hsub. rewrite size_dom in Hsub. lia.
  - simpl. destruct current_id as [cur|]; [|by eexists].
    destruct (truthy cur); [|by eexists].
    destruct (decide (cur ∈ visited)) as [|Hfresh]; [by eexists|].
    destruct (decide (Some cur = self_id)); [by eexists|].
    unfold find_by_id. destruct (sp_collection s !! cur) as [parent|] eqn:Hrow.
    + apply IH.
      * apply union_least; [|done].
        apply singleton_subseteq_l, elem_of_dom. by eexists.
      * rewrite size_union by set_solver. rewrite size_singleton. lia.
    + destruct fuel as [|fuel]; [|by eexists].
      apply subseteq_size in Hsub. rewrite size_dom in Hsub. lia.
Qed.

(** Fuel that always suffices. *)
Definition cycle_fuel (s : Store) : nat := S (S (size (sp_collection s))).

Lemma has_cycle_loop_enough (s : Store) (self_id current_id : option Z) :
  is_Some (has_cycle_loop (cycle_fuel s) s self_id current_id ∅).
Proof.
  apply has_cycle_loop_bound; [set_solver|].
  unfold cycle_fuel. rewrite size_empty. lia.
Qed.

Definition has_cycle_with_parent (s : Store) (self_id : option Z)
    (potential_parent_id : Z) : bool :=
  if decide (Some potential_parent_id = self_id) then true
  else is_Some_proj
         (has_cycle_loop_enough s self_id (Some potential_parent_id)).

Definition can_be_moved_to (s : Store) (self_id : option Z)
    (new_parent_id : option Z) : bool :=
  match new_parent_id with
  | None => true
  | Some p =>
      if decide (Some p = self_id) then false
      else negb (has_cycle_with_parent s self_id p)
  end.

(** ** models.py: validators *)

Definition is_space (c : ascii) : bool :=
  let n := N_of_ascii c in
  ((9 <=? n) && (n <=? 13) || (28 <=? n) && (n <=? 32)
   || (n =? 133) || (n =? 160))%N.

Fixpoint lstrip (s : string) : string :=
  match s with
  | String c s' => if is_space c then lstrip s' else s
  | EmptyString => EmptyString
  end.

Definition rstrip (s : string) : string :=
  String.rev (lstrip (String.rev s)).

Definition strip (s : string) : string := rstrip (lstrip s).

Definition lower_char (c : ascii) : ascii :=
  let n := N_of_ascii c in
  if ((65 <=? n) && (n <=? 90)
      || (192 <=? n) && (n <=? 222) && negb (n =? 215))%N
  then ascii_of_N (n + 32) else c.

Fixpoint lower (s : string) : string :=
  match s with
  | String c s' => String (lower_char c) (lower s')
  | EmptyString => EmptyString
  end.

(** The character class [[a-z0-9-_]]. *)
Definition slug_char (c : ascii) : bool :=
  let n := N_of_ascii c in
  ((97 <=? n) && (n <=? 122) || (48 <=? n) && (n <=? 57)
   || (n =? 45) || (n =? 95))%N.

Fixpoint all_chars (p : ascii → bool) (s : string) : bool :=
  match s with
  | String c s' => p c && all_chars p s'
  | EmptyString => true
  end.

Definition str_truthy (s : string) : bool :=
  negb (bool_decide (s = "")).

Definition validate_name (n : string) : outcome string :=
  if negb (str_truthy n) || negb (str_truthy (strip n)) then Raise ValueError
  else
    let n := strip n in
    if (255 <? Z.of_nat (String.length n)) then Raise ValueError
    else Return n.

Definition validate_slug (sl : string) : outcome string :=
  if negb (str_truthy sl) || negb (str_truthy (strip sl)) then Raise ValueError
  else
    let sl := lower (strip sl) in
    if negb (str_truthy sl && all_chars slug_char sl) then Raise ValueError
    else if (255 <? Z.of_nat (String.length sl)) then Raise ValueError
    else Return sl.

Definition validate_description (d : option string) : outcome (option string) :=
  match d with
  | Some text =>
      if str_truthy text && (1000 <? Z.of_nat (String.length text))
      then Raise ValueError else Return d
  | None => Return d
  end.

Definition validate_parent_id (self_id : option Z) (p : option Z)
  : outcome (option Z) :=
  match p, self_id with
  | Some p', Some i => if decide (p' = i) then Raise ValueError else Return p
  | _, _ => Return p
  end.

(** ** The session *)

Record User := mkUser { user_id : Z }.

Record Session := mkSession {
  committed : Store;
  working : Store
}.

Definition M (A : Type) : Type := Session → outcome A * Session.

Definition ret {A} (a : A) : M A := λ σ, (Return a, σ).
Definition raise {A} (e : Exn) : M A := λ σ, (Raise e, σ).
Definition bind {A B} (k : A → M B) (m : M A) : M B :=
  λ σ, match m σ with
       | (Return a, σ') => k a σ'
       | (Raise e, σ') => (Raise e, σ')
       end.
Global Instance M_ret : MRet M := @ret.
Global Instance M_bind : MBind M := @bind.
Definition try_except {A} (m : M A) (handler : Exn → M A) : M A :=
  λ σ, match m σ with
       | (Return a, σ') => (Return a, σ')
       | (Raise e, σ') => handler e σ'
       end.

Definition query {A} (f : Store → A) : M A := λ σ, (Return (f (working σ)), σ).
Definition modify (f : Store → Store) : M unit :=
  λ σ, (Return tt, mkSession (committed σ) (f (working σ))).
Definition lift {A} (o : outcome A) : M A := λ σ, (o, σ).

(** A request starts on a session without pending changes, and the store
    it leaves behind is what was committed. *)
Definition fresh (s : Store) : Session := mkSession s s.

Definition run {A} (m : M A) (s : Store) : outcome A * Store :=
  let '(r, σ) := m (fresh s) in (r, committed σ).

(** *** Constraints, checked when the session is flushed *)

(** [unique=True] on [sp_collection.slug]: a row written with a slug it
    did not have before, while another row has that slug. *)
Definition uq_slug_violated (old new : gmap Z SpCollection) : Prop :=
  map_Exists (λ i c,
      slug <$> old !! i ≠ Some (slug c) ∧
      map_Exists (λ j c', j ≠ i ∧ slug c' = slug c) new)
    new.

(** [ForeignKey("sp_collection.id")] on [sp_collection.parent_id]: a row
    written with a parent id it did not have before, which is not null
    and which no row has as id. *)
Definition fk_parent_dangling (old new : gmap Z SpCollection)
    (r : Z * SpCollection) : Prop :=
  parent_id <$> old !! r.1 ≠ Some (parent_id r.2) ∧
  match parent_id r.2 with
  | Some p => new !! p = None
  | None => False
  end.

Global Instance fk_parent_dangling_dec old new r :
  Decision (fk_parent_dangling old new r).
Proof. unfold fk_parent_dangling. destruct (parent_id r.2); apply _. Defined.

Definition id_le (a b : Z * SpCollection) : Prop := a.1 ≤ b.1.

Global Instance id_le_dec : RelDecision id_le.
Proof. intros a b. unfold id_le. apply _. Defined.

(** The rows whose statement fails on that foreign key, in the order of
    their ids, in which the flush writes them. *)
Definition fk_parent_failures (old new : gmap Z SpCollection)
  : list (Z * SpCollection) :=
  merge_sort id_le (filter (fk_parent_dangling old new) (map_to_list new)).

(** [needle in hay] on strings. *)
Fixpoint contains (needle hay : string) : bool :=
  String.prefix needle hay
  || match hay with
     | String _ rest => contains needle rest
     | EmptyString => false
     end.

(** Whether the text of the exception for a failed statement on
    [sp_collection] has the word slug in it. The text shows the statement
    and its parameters: an INSERT names every column; an UPDATE names the
    columns it writes and shows the values written. *)
Definition statement_shows_slug (before : option SpCollection)
    (after : SpCollection) : bool :=
  match before with
  | None => true
  | Some b =>
      bool_decide (slug b ≠ slug after)
      || bool_decide (name b ≠ name after) && contains "slug" (name after)
      || bool_decide (description b ≠ description after)
         && contains "slug" (default "" (description after))
  end.

Definition same_link (a b : Link) : Prop :=
  link_collection_id a = link_collection_id b ∧ link_item_id a = link_item_id b.

Global Instance same_link_dec : RelDecision same_link.
Proof. intros a b. unfold same_link. apply _. Defined.

Definition link_copies (l : list Link) (a : Link) : nat :=
  length (filter (same_link a) l).

(** [UniqueConstraint("collection_id", "<item>_id")] on a link table: a
    pair that the flush writes once more although it is there. *)
Definition uq_link_violated (old new : list Link) : Prop :=
  Exists (λ a, (link_copies old a < link_copies new a)%nat ∧
               (2 ≤ link_copies new a)%nat) new.

(** [ForeignKey("sp_collection.id")] on the [collection_id] of a link
    table: a link the flush writes for a collection that has no row. *)
Definition fk_link_collection_violated (t : CollectionItemType)
    (old new : Store) : Prop :=
  Exists (λ a, (link_copies (link_table t old) a
                < link_copies (link_table t new) a)%nat ∧
               find_by_id new (link_collection_id a) = None)
    (link_table t new).

(** [ForeignKey("dashboards.id")], [ForeignKey("slices.id")] and
    [ForeignKey("tables.id")] on the item id of a link table: a link the
    flush writes for an item that is not in the catalogue. *)
Definition fk_link_item_violated (t : CollectionItemType)
    (old new : Store) : Prop :=
  Exists (λ a, (link_copies (link_table t old) a
                < link_copies (link_table t new) a)%nat ∧
               in_catalogue new t (link_item_id a) = false)
    (link_table t new).

(** The error of the statements on one link table. *)
Definition link_error (t : CollectionItemType) (old new : Store)
  : option Constraint :=
  if decide (uq_link_violated (link_table t old) (link_table t new))
  then Some (uq_collection_item t)
  else if decide (fk_link_collection_violated t old new)
  then Some (fk_link_collection t)
  else if decide (fk_link_item_violated t old new)
  then Some (fk_link_item t)
  else None.

(** The flush writes [sp_collection] first and then the link tables, whose
    rows refer to it; the first statement that fails ends it. *)
Definition flush_error (old new : Store) : option Constraint :=
  if decide (uq_slug_violated (sp_collection old) (sp_collection new))
  then Some uq_slug
  else
    match fk_parent_failures (sp_collection old) (sp_collection new) with
    | r :: _ =>
        Some (fk_parent_id
                (statement_shows_slug (sp_collection old !! r.1) r.2))
    | [] =>
        match link_error DASHBOARD old new with
        | Some c => Some c
        | None =>
            match link_error CHART old new with
            | Some c => Some c
            | None => link_error DATASET old new
            end
        end
    end.

Definition commit : M unit :=
  λ σ, match flush_error (committed σ) (working σ) with
       | Some c => (Raise (IntegrityError c), σ)
       | None => (Return tt, mkSession (working σ) (working σ))
       end.

Definition rollback : M unit :=
  λ σ, (Return tt, mkSession (committed σ) (committed σ)).

(** ["slug" in str(ex)] on the message of an [IntegrityError]: the unique
    constraint is on the column [slug]; an INSERT into [sp_collection]
    names the column. A statement on a link table does not. *)
Definition mentions_slug (c : Constraint) : bool :=
  match c with
  | uq_slug | pk_collection => true
  | fk_parent_id shows_slug => shows_slug
  | uq_collection_item _ | fk_link_collection _ | fk_link_item _ => false
  end.

(** ["uq_collection_" in str(ex)]: the name of the unique constraint of a
    link table, [uq_collection_dashboard] and the like. *)
Definition mentions_uq_collection (c : Constraint) : bool :=
  match c with
  | uq_collection_item _ => true
  | _ => false
  end.

(** *** Attribute writes on a loaded row, through its validators *)

Definition with_row (i : Z) (c : SpCollection) (s : Store) : Store :=
  set_collections (<[i := c]> (sp_collection s)) s.

Definition set_row (i : Z) (c : SpCollection) : M unit :=
  modify (with_row i c).

Definition get_row (i : Z) : M SpCollection :=
  λ σ, match find_by_id (working σ) i with
       | Some c => (Return c, σ)
       | None => (Raise CollectionNotFoundError, σ)
       end.

Definition with_name (v : string) (c : SpCollection) : SpCollection :=
  mkSpCollection (uuid c) v (slug c) (description c) (parent_id c)
    (is_official c) (item_count c) (created_by_fk c) (changed_by_fk c).
Definition with_slug (v : string) (c : SpCollection) : SpCollection :=
  mkSpCollection (uuid c) (name c) v (description c) (parent_id c)
    (is_official c) (item_count c) (created_by_fk c) (changed_by_fk c).
Definition with_description (v : option string) (c : SpCollection) : SpCollection :=
  mkSpCollection (uuid c) (name c) (slug c) v (parent_id c)
    (is_official c) (item_count c) (created_by_fk c) (changed_by_fk c).
Definition with_parent_id (v : option Z) (c : SpCollection) : SpCollection :=
  mkSpCollection (uuid c) (name c) (slug c) (description c) v
    (is_official c) (item_count c) (created_by_fk c) (changed_by_fk c).
Definition with_is_official (v : bool) (c : SpCollection) : SpCollection :=
  mkSpCollection (uuid c) (name c) (slug c) (description c) (parent_id c)
    v (item_count c) (created_by_fk c) (changed_by_fk c).
Definition with_item_count (v : Z) (c : SpCollection) : SpCollection :=
  mkSpCollection (uuid c) (name c) (slug c) (description c) (parent_id c)
    (is_official c) v (created_by_fk c) (changed_by_fk c).
Definition with_changed_by_fk (v : option Z) (c : SpCollection) : SpCollection :=
  mkSpCollection (uuid c) (name c) (slug c) (description c) (parent_id c)
    (is_official c) (item_count c) (created_by_fk c) v.

(** The row without its audit column [changed_by_fk], which a flush
    writes on its own. *)
Definition unaudited (c : SpCollection) : SpCollection :=
  with_changed_by_fk None c.

(** [obj.attr = value] on the row of id [i]: the validator of the
    attribute, when it has one, runs first and may raise. *)
Definition setattr {V} (validate : V → outcome V)
    (upd : V → SpCollection → SpCollection) (i : Z) (v : V) : M unit :=
  v' ← lift (validate v);
  c ← get_row i;
  set_row i (upd v' c).

Definition set_name := setattr validate_name with_name.
Definition set_slug := setattr validate_slug with_slug.
Definition set_description := setattr validate_description with_description.
Definition set_parent_id (i : Z) :=
  setattr (validate_parent_id (Some i)) with_parent_id i.
Definition set_is_official := setattr (@Return bool) with_is_official.
Definition set_item_count := setattr (@Return Z) with_item_count.
Definition set_changed_by_fk := setattr (@Return (option Z)) with_changed_by_fk.

(** ** dao.py: writes *)

(** [if x is not None: obj.attr = g(x)] (for the user, [if x:]). *)
Definition set_if_supplied {V W} (o : option V) (g : V → W)
    (set : W → M unit) : M unit :=
  match o with
  | Some v => set (g v)
  | None => ret tt
  end.

Definition slug_taken_by_other (s : Store) (collection_id : Z) (sl : string)
  : bool :=
  match find_by_slug s sl with
  | Some (existing_id, _) => bool_decide (existing_id ≠ collection_id)
  | None => false
  end.

(** [slug and slug != collection.slug], and then another collection has
    the slug. *)
Definition slug_conflict (s : Store) (collection_id : Z)
    (collection : SpCollection) (new_slug : option string) : bool :=
  match new_slug with
  | Some sl =>
      str_truthy sl && bool_decide (sl ≠ slug collection)
      && slug_taken_by_other s collection_id sl
  | None => false
  end.

(** [parent_id is not None and parent_id != collection.parent_id], and
    then [parent_id and not collection.can_be_moved_to(parent_id)]. *)
Definition parent_conflict (s : Store) (collection_id : Z)
    (collection : SpCollection) (new_parent_id : option Z) : bool :=
  match new_parent_id with
  | Some p =>
      bool_decide (Some p ≠ parent_id collection)
      && truthy p
      && negb (can_be_moved_to s (Some collection_id) (Some p))
  | None => false
  end.

Definition update_collection (collection_id : Z)
    (new_name new_slug new_description : option string)
    (new_parent_id : option Z) (new_is_official : option bool)
    (changed_by : option User) : M SpCollection :=
  s ← query id;
  match find_by_id s collection_id with
  | None => raise CollectionNotFoundError
  | Some collection =>
      (* Validate slug uniqueness if changing *)
      (if slug_conflict s collection_id collection new_slug
       then raise CollectionSlugExistsError else ret tt);;
      (* Validate parent change doesn't create cycle *)
      (if parent_conflict s collection_id collection new_parent_id
       then raise CollectionCycleError else ret tt);;
      (* Update fields *)
      set_if_supplied new_name id (set_name collection_id);;
      set_if_supplied new_slug id (set_slug collection_id);;
      set_if_supplied new_description Some (set_description collection_id);;
      set_if_supplied new_parent_id Some (set_parent_id collection_id);;
      set_if_supplied new_is_official id (set_is_official collection_id);;
      set_if_supplied changed_by (λ u, Some (user_id u))
        (set_changed_by_fk collection_id);;
      try_except
        (commit;; get_row collection_id)
        (λ ex,
           match ex with
           | IntegrityError c =>
               rollback;;
               if mentions_slug c then raise CollectionSlugExistsError
               else raise ex
           | _ => raise ex
           end)
  end.

(** [session.delete(collection)]: the row goes, and with it its links
    ([cascade="all, delete-orphan"] on the three link relationships). *)
Definition session_delete_collection (collection_id : Z) : M unit :=
  modify (λ s,
    let keep := filter (λ l, link_collection_id l ≠ collection_id) in
    mkStore (delete collection_id (sp_collection s))
      (keep (sp_collection_dashboard s)) (keep (sp_collection_chart s))
      (keep (sp_collection_dataset s))
      (dashboards s) (slices s) (tables s)).

(** [for x in xs: body(x)] *)
Fixpoint for_each {A} (xs : list A) (body : A → M unit) : M unit :=
  match xs with
  | [] => ret tt
  | x :: xs' => body x;; for_each xs' body
  end.

(** [collection.parent_id] is read once: a child is the collection itself
    only when the collection is its own parent, and then the validator
    raises before anything is written. *)
Definition delete_collection (collection_id : Z) : M bool :=
  s ← query id;
  match find_by_id s collection_id with
  | None => ret false
  | Some collection =>
      try_except
        ((* Move children to parent (or make them root collections) *)
         for_each (find_children s collection_id)
           (λ child, set_parent_id child.1 (parent_id collection));;
         session_delete_collection collection_id;;
         commit;;
         ret true)
        (λ ex, rollback;; raise ex)
  end.

(** The filter of the three link queries, which differ in the table only:
    [collection_id == collection_id] and [<item>_id == item_id]. *)
Definition link_matches (collection_id item_id : Z) (l : Link) : Prop :=
  link_collection_id l = collection_id ∧ link_item_id l = item_id.

Global Instance link_matches_dec c i l : Decision (link_matches c i l).
Proof. unfold link_matches. apply _. Defined.

Definition item_exists_in_collection (s : Store) (collection_id : Z)
    (item_type : CollectionItemType) (item_id : Z) : bool :=
  bool_decide (Exists (link_matches collection_id item_id)
                 (link_table item_type s)).

(** [session.add(link_model)] *)
Definition session_add_link (item_type : CollectionItemType) (l : Link)
  : M unit :=
  modify (λ s, set_link_table item_type (link_table item_type s ++ [l]) s).

(** [now] is the clock value the column default of [created_on] takes. *)
Definition add_item_to_collection (collection_id : Z)
    (item_type : CollectionItemType) (item_id : Z) (created_by : option User)
    (now : Z) : M bool :=
  s ← query id;
  match find_by_id s collection_id with
  | None => raise CollectionNotFoundError
  | Some collection =>
      if item_exists_in_collection s collection_id item_type item_id
      then raise CollectionItemAlreadyExistsError
      else
        let link_model :=
          mkLink collection_id item_id (user_id <$> created_by) now in
        try_except
          (session_add_link item_type link_model;;
           (* Update item count *)
           set_item_count collection_id (item_count collection + 1);;
           commit;;
           ret true)
          (λ ex,
             match ex with
             | IntegrityError c =>
                 rollback;;
                 if mentions_uq_collection c
                 then raise CollectionItemAlreadyExistsError
                 else raise ex
             | _ => raise ex
             end)
  end.

(** [session.delete(link)] for the link [link_query.first()] returned: the
    first row of the table that matches. *)
Fixpoint delete_first (collection_id item_id : Z) (l : list Link) : list Link :=
  match l with
  | [] => []
  | x :: l' =>
      if decide (link_matches collection_id item_id x) then l'
      else x :: delete_first collection_id item_id l'
  end.

Definition remove_item_from_collection (collection_id : Z)
    (item_type : CollectionItemType) (item_id : Z) : M bool :=
  s ← query id;
  match find_by_id s collection_id with
  | None => raise CollectionNotFoundError
  | Some collection =>
      (* Find and delete the link *)
      match head (filter (link_matches collection_id item_id)
                    (link_table item_type s)) with
      | None => raise CollectionItemNotFoundError
      | Some link =>
          try_except
            (modify (λ s', set_link_table item_type
                        (delete_first collection_id item_id
                           (link_table item_type s')) s');;
             (* Update item count *)
             set_item_count collection_id (Z.max 0 (item_count collection - 1));;
             commit;;
             ret true)
            (λ ex, rollback;; raise ex)
      end
  end.

(** ** dao.py: reads *)

Record DashboardItem := mkDashboardItem {
  di_id : Z;
  di_dashboard_title : string;
  di_slug : option string;
  di_url : string;
  di_created_on : Z
}.

Record ChartItem := mkChartItem {
  ci_id : Z;
  ci_slice_name : string;
  ci_viz_type : string;
  ci_url : string;
  ci_created_on : Z
}.

Record DatasetItem := mkDatasetItem {
  ti_id : Z;
  ti_table_name : string;
  ti_schema : option string;
  ti_database_name : option string;
  ti_created_on : Z
}.

Record Items := mkItems {
  items_dashboards : list DashboardItem;
  items_charts : list ChartItem;
  items_datasets : list DatasetItem;
  total_count : Z
}.

Definition N_truthy (o : option N) : bool :=
  match o with
  | Some n => negb (n =? 0)%N
  | None => false
  end.

(** [query.limit(limit)] and [query.offset(offset)], each applied when its
    argument is truthy; the rows are those after the offset, up to the
    limit. Negative arguments depend on the backend and are left out. *)
Definition paginate {A} (limit offset : option N) (rows : list A) : list A :=
  let rows := if N_truthy offset then drop (N.to_nat (default 0%N offset)) rows
              else rows in
  if N_truthy limit then take (N.to_nat (default 0%N limit)) rows else rows.

Definition links_of (collection_id : Z) (l : list Link) : list Link :=
  filter (λ x, link_collection_id x = collection_id) l.

Definition wants (item_type : option CollectionItemType)
    (t : CollectionItemType) : bool :=
  match item_type with
  | None => true
  | Some t' => bool_decide (t' = t)
  end.

Definition dashboard_item (s : Store) (link : Link) : option DashboardItem :=
  d ← dashboards s !! link_item_id link;
  Some (mkDashboardItem (link_item_id link) (dashboard_title d)
          (dashboard_slug d) (dashboard_url d) (link_created_on link)).

Definition chart_item (s : Store) (link : Link) : option ChartItem :=
  c ← slices s !! link_item_id link;
  Some (mkChartItem (link_item_id link) (slice_name c) (viz_type c)
          (slice_url c) (link_created_on link)).

Definition dataset_item (s : Store) (link : Link) : option DatasetItem :=
  d ← tables s !! link_item_id link;
  Some (mkDatasetItem (link_item_id link) (table_name d) (schema d)
          (database_name d) (link_created_on link)).

Definition get_collection_items (s : Store) (collection_id : Z)
    (item_type : option CollectionItemType) (limit offset : option N)
  : outcome Items :=
  match find_by_id s collection_id with
  | None => Raise CollectionNotFoundError
  | Some collection =>
      let ds :=
        if wants item_type DASHBOARD then
          omap (dashboard_item s)
            (paginate limit offset (links_of collection_id (sp_collection_dashboard s)))
        else [] in
      let cs :=
        if wants item_type CHART then
          omap (chart_item s)
            (paginate limit offset (links_of collection_id (sp_collection_chart s)))
        else [] in
      let ts :=
        if wants item_type DATASET then
          omap (dataset_item s)
            (paginate limit offset (links_of collection_id (sp_collection_dataset s)))
        else [] in
      Return (mkItems ds cs ts
                (Z.of_nat (length ds) + Z.of_nat (length cs) + Z.of_nat (length ts)))
  end.

(** *** The tree *)

#[local] Unset Elimination Schemes.
Inductive TreeNode := mkTreeNode {
  node_id : Z;
  node_uuid : string;
  node_name : string;
  node_slug : string;
  node_description : option string;
  node_is_official : bool;
  node_item_count : Z;
  node_total_item_count : Z;
  node_depth : Z;
  node_children : list TreeNode
}.
#[local] Set Elimination Schemes.

(** The property [total_item_count] of the model: the direct links. *)
Definition total_item_count (s : Store) (collection_id : Z) : Z :=
  Z.of_nat (length (links_of collection_id (sp_collection_dashboard s)))
  + Z.of_nat (length (links_of collection_id (sp_collection_chart s)))
  + Z.of_nat (length (links_of collection_id (sp_collection_dataset s))).

Definition filter_by_user_permissions (collections : list (Z * SpCollection))
    (user : User) (permission : string) : list (Z * SpCollection) :=
  collections.

Definition user_can_access_collection (user : User)
    (collection : Z * SpCollection) (permission : string) : bool :=
  true.

Definition depth_allows (max_depth : option Z) (current_depth : Z) : bool :=
  match max_depth with
  | None => true
  | Some d => current_depth <? d
  end.

(** [build_tree_node], the closure of [get_tree]; the fuel bounds the
    nesting of the recursive calls. *)
Fixpoint build_tree_node (fuel : nat) (s : Store) (max_depth : option Z)
    (user : option User) (collection : Z * SpCollection) (current_depth : Z)
  : option TreeNode :=
  match fuel with
  | O => None
  | S fuel' =>
      children ←
        (if depth_allows max_depth current_depth then
           let children := find_children s collection.1 in
           let children :=
             match user with
             | Some u => filter_by_user_permissions children u "view"
             | None => children
             end in
           mapM (λ child, build_tree_node fuel' s max_depth user child
                            (current_depth + 1)) children
         else Some []);
      Some (mkTreeNode collection.1 (uuid collection.2) (name collection.2)
              (slug collection.2) (description collection.2)
              (is_official collection.2) (item_count collection.2)
              (total_item_count s collection.1) current_depth children)
  end.

Definition get_tree (fuel : nat) (s : Store) (root_id : option Z)
    (max_depth : option Z) (user : option User) : option (list TreeNode) :=
  let roots :=
    if opt_truthy root_id then
      match find_by_id s (default 0 root_id) with
      | Some c => Some [(default 0 root_id, c)]
      | None => None
      end
    else Some (find_root_collections s) in
  let skipped root :=
    match user with
    | Some u => negb (user_can_access_collection u root "view")
    | None => false
    end in
  match roots with
  | None => Some []
  | Some roots =>
      mapM (λ root, build_tree_node fuel s max_depth user root 0)
        (filter (λ root, skipped root = false) roots)
  end.

(** * The vocabulary of the statements *)

(** ** The walk up the parent chain *)

(** The parent pointer of a row, if the id has a row and the row a parent. *)
Definition parent_of (s : Store) (o : option Z) : option Z :=
  i ← o; c ← find_by_id s i; parent_id c.

(** [walk s o n]: the id [n] parent pointers above [o]. *)
Fixpoint walk (s : Store) (o : option Z) (n : nat) : option Z :=
  match n with
  | O => o
  | S n' => walk s (parent_of s o) n'
  end.

(** An id the walk goes on from: present and, as Python reads it, true. *)
Definition live (o : option Z) : Prop := opt_truthy o = true.

Global Instance live_dec o : Decision (live o).
Proof. unfold live. apply _. Defined.

(** ** Stores after a write *)

(** What [update_collection] makes of a row when every write goes through:
    each supplied attribute in turn, as its validator returns it. *)
Definition supplied {V W} (o : option V) (g : V → W) (validate : W → outcome W)
    (upd : W → SpCollection → SpCollection) (c c1 : SpCollection) : Prop :=
  match o with
  | None => c1 = c
  | Some v => ∃ v', validate (g v) = Return v' ∧ c1 = upd v' c
  end.

(** The store [add_item_to_collection] leaves when the item is new. *)
Definition added (s : Store) (cid : Z) (c : SpCollection)
    (t : CollectionItemType) (iid : Z) (u : option User) (now : Z) : Store :=
  with_row cid (with_item_count (item_count c + 1) c)
    (set_link_table t (link_table t s ++ [mkLink cid iid (user_id <$> u) now]) s).

(** ** Trees *)

(** A node without children for a collection. *)
Definition leaf (s : Store) (depth : Z) (collection : Z * SpCollection)
  : TreeNode :=
  mkTreeNode collection.1 (uuid collection.2) (name collection.2)
    (slug collection.2) (description collection.2)
    (is_official collection.2) (item_count collection.2)
    (total_item_count s collection.1) depth [].

(** The greatest [depth] in a node and below it. *)
Fixpoint deepest (node : TreeNode) : Z :=
  foldr (λ child acc, Z.max (deepest child) acc) (node_depth node)
    (node_children node).

(** ** Example stores *)

Definition example_row (n sl : string) (p : option Z) : SpCollection :=
  mkSpCollection "" n sl None p false 0 None None.

Definition store_of (m : gmap Z SpCollection) : Store :=
  mkStore m [] [] [] ∅ ∅ ∅.

(** Three collections in a line: 3 under 2 under 1. *)
Definition line3 : Store :=
  store_of (<[1 := example_row "one" "one" None]>
           (<[2 := example_row "two" "two" (Some 1)]>
           (<[3 := example_row "three" "three" (Some 2)]> ∅))).

(** Three collections without parent. *)
Definition roots3 : Store :=
  store_of (<[1 := example_row "one" "one" None]>
           (<[2 := example_row "two" "two" None]>
           (<[3 := example_row "three" "three" None]> ∅))).

(** Two collections that are each other's parent, as a store may hold
    them after writes that went around the DAO. *)
Definition ring2 : Store :=
  store_of (<[1 := example_row "one" "one" (Some 2)]>
           (<[2 := example_row "two" "two" (Some 1)]> ∅)).

(** A line of three collections, 3 under 2 under 1, next to two
    collections that are each other's parent. *)
Definition line3_ring2 : Store :=
  store_of (<[1 := example_row "one" "one" None]>
           (<[2 := example_row "two" "two" (Some 1)]>
           (<[3 := example_row "three" "three" (Some 2)]>
           (<[7 := example_row "seven" "seven" (Some 8)]>
           (<[8 := example_row "eight" "eight" (Some 7)]> ∅))))).

(** A store with one collection and no links. *)
Definition solo : Store := store_of (<[5 := example_row "five" "five" None]> ∅).

(** One collection without links, and a dashboard, a chart and a dataset
    in the catalogues. *)
Definition stocked : Store :=
  mkStore (<[5 := example_row "five" "five" None]> ∅) [] [] []
    (<[42 := mkDashboard "d42" None "/d/42"]> ∅)
    (<[8 := mkSlice "c8" "bar" "/c/8"]> ∅)
    (<[3 := mkSqlaTable "t3" None None]> ∅).

(** A collection whose counter is 0 although it has a link, as a store may
    hold it after writes that went around the DAO. *)
Definition solo_linked : Store :=
  mkStore (<[5 := example_row "five" "five" None]> ∅)
    [mkLink 5 42 None 7] [] [] ∅ ∅ ∅.

(** One collection with three dashboard links, of which the dashboard 2
    is no longer in the catalogue. *)
Definition three_links : Store :=
  mkStore (<[5 := example_row "five" "five" None]> ∅)
    [mkLink 5 1 None 7; mkLink 5 2 None 8; mkLink 5 3 None 9] [] []
    (<[1 := mkDashboard "d1" None "/d/1"]> (<[3 := mkDashboard "d3" None "/d/3"]> ∅))
    ∅ ∅.

(** [n] collections in a line: 1 is the root, [i + 1] is under [i]. *)
Fixpoint line (n : nat) : gmap Z SpCollection :=
  match n with
  | O => ∅
  | S n' =>
      let label := String (ascii_of_nat (64 + n)) EmptyString in
      <[Z.of_nat n :=
          example_row label label
            (match n' with O => None | S _ => Some (Z.of_nat n') end)]>
        (line n')
  end.

(** * Properties *)

(** ** The walk up the parent chain *)

Lemma walk_S_r s o n : walk s o (S n) = parent_of s (walk s o n).
Proof. revert o. induction n as [|n IH]; intros o; [done|]. apply (IH (parent_of s o)). Qed.

Lemma walk_add s o n m : walk s o (n + m) = walk s (walk s o n) m.
Proof. revert o. induction n as [|n IH]; intros o; [done|]. apply (IH (parent_of s o)). Qed.

Lemma walk_None s n : walk s None n = None.
Proof. induction n; [done|]. done. Qed.

Lemma live_Some o : live o → ∃ x, o = Some x ∧ truthy x = true.
Proof. destruct o as [x|]; [by exists x|discriminate]. Qed.

(** A walk that comes back to an id it has been at goes round for ever. *)
Lemma walk_periodic s o i j m :
  walk s o i = walk s o j → walk s o (i + m) = walk s o (j + m).
Proof. intros H. by rewrite !walk_add, H. Qed.

Lemma walk_no_revisit s o n i j :
  (∀ k, (k < n)%nat → live (walk s o k)) →
  ¬ live (walk s o n) →
  (i < j)%nat → (j < n)%nat → walk s o i ≠ walk s o j.
Proof.
  intros Hlive Hdead Hij Hjn Heq. apply Hdead.
  replace n with (j + (n - j))%nat by lia.
  rewrite <- (walk_periodic s o i j (n - j) Heq).
  apply Hlive. lia.
Qed.

(** ** The loop of the cycle check *)

Lemma has_cycle_loop_mono fuel fuel' s self_id current_id visited b :
  has_cycle_loop fuel s self_id current_id visited = Some b →
  (fuel ≤ fuel')%nat →
  has_cycle_loop fuel' s self_id current_id visited = Some b.
Proof.
  revert fuel' current_id visited.
  induction fuel as [|fuel IH]; intros fuel' current_id visited H Hle; [done|].
  destruct fuel' as [|fuel']; [lia|]. simpl in *.
  destruct current_id as [cur|]; [|done].
  destruct (truthy cur); [|done].
  destruct (decide (cur ∈ visited)); [done|].
  destruct (decide (Some cur = self_id)); [done|].
  apply IH; [done|lia].
Qed.

Lemma has_cycle_loop_self n : ∀ fuel s self_id current_id visited b,
  has_cycle_loop fuel s self_id current_id visited = Some b →
  (∀ k, (k ≤ n)%nat → live (walk s current_id k)) →
  walk s current_id n = self_id →
  b = true.
Proof.
  induction n as [|n IH]; intros fuel s self_id current_id visited b Hloop Hlive Hn.
  - destruct fuel as [|fuel]; [done|]. simpl in *.
    destruct (live_Some current_id (Hlive 0%nat (le_n _))) as (x & -> & Hx).
    rewrite Hx in Hloop.
    destruct (decide (x ∈ visited)); [congruence|].
    destruct (decide (Some x = self_id)); congruence.
  - destruct fuel as [|fuel]; [done|]. simpl in Hloop.
    destruct (live_Some current_id (Hlive 0%nat (Nat.le_0_l _))) as (x & -> & Hx).
    rewrite Hx in Hloop.
    destruct (decide (x ∈ visited)); [congruence|].
    destruct (decide (Some x = self_id)); [congruence|].
    eapply IH; [exact Hloop| |exact Hn].
    intros k Hk. apply (Hlive (S k)). lia.
Qed.

Lemma has_cycle_loop_seen n : ∀ fuel s self_id current_id visited b x,
  has_cycle_loop fuel s self_id current_id visited = Some b →
  (∀ k, (k ≤ n)%nat → live (walk s current_id k)) →
  walk s current_id n = Some x → x ∈ visited →
  b = true.
Proof.
  induction n as [|n IH];
    intros fuel s self_id current_id visited b x Hloop Hlive Hn Hx.
  - destruct fuel as [|fuel]; [done|]. simpl in *. subst current_id.
    pose proof (Hlive 0%nat (le_n _)) as Hx0. simpl in Hx0.
    unfold live in Hx0. simpl in Hx0. rewrite Hx0 in Hloop.
    destruct (decide (x ∈ visited)); congruence.
  - destruct fuel as [|fuel]; [done|]. simpl in Hloop.
    destruct (live_Some current_id (Hlive 0%nat (Nat.le_0_l _))) as (y & -> & Hy).
    rewrite Hy in Hloop.
    destruct (decide (y ∈ visited)); [congruence|].
    destruct (decide (Some y = self_id)); [congruence|].
    eapply IH; [exact Hloop| |exact Hn|set_solver].
    intros k Hk. apply (Hlive (S k)). lia.
Qed.

Lemma has_cycle_loop_revisit i : ∀ j fuel s self_id current_id visited b,
  has_cycle_loop fuel s self_id current_id visited = Some b →
  (i < j)%nat →
  (∀ k, (k ≤ j)%nat → live (walk s current_id k)) →
  walk s current_id i = walk s current_id j →
  b = true.
Proof.
  induction i as [|i IH];
    intros j fuel s self_id current_id visited b Hloop Hij Hlive Heq.
  - destruct fuel as [|fuel]; [done|]. simpl in Hloop.
    destruct (live_Some current_id (Hlive 0%nat (Nat.le_0_l _))) as (y & -> & Hy).
    rewrite Hy in Hloop.
    destruct (decide (y ∈ visited)); [congruence|].
    destruct (decide (Some y = self_id)); [congruence|].
    destruct j as [|j]; [lia|].
    eapply (has_cycle_loop_seen j); [exact Hloop| |symmetry; exact Heq|set_solver].
    intros k Hk. apply (Hlive (S k)). lia.
  - destruct fuel as [|fuel]; [done|]. simpl in Hloop.
    destruct (live_Some current_id (Hlive 0%nat (Nat.le_0_l _))) as (y & -> & Hy).
    rewrite Hy in Hloop.
    destruct (decide (y ∈ visited)); [congruence|].
    destruct (decide (Some y = self_id)); [congruence|].
    destruct j as [|j]; [lia|].
    eapply (IH j); [exact Hloop|lia| |exact Heq].
    intros k Hk. apply (Hlive (S k)). lia.
Qed.

Lemma has_cycle_loop_null n : ∀ fuel s self_id current_id visited b,
  has_cycle_loop fuel s self_id current_id visited = Some b →
  (∀ k, (k < n)%nat → live (walk s current_id k)) →
  (∀ k, (k < n)%nat → walk s current_id k ≠ self_id) →
  (∀ k x, (k < n)%nat → walk s current_id k = Some x → x ∉ visited) →
  (∀ i j, (i < j)%nat → (j < n)%nat → walk s current_id i ≠ walk s current_id j) →
  ¬ live (walk s current_id n) →
  b = false.
Proof.
  induction n as [|n IH];
    intros fuel s self_id current_id visited b Hloop Hlive Hself Hvis Hdist Hdead.
  - destruct fuel as [|fuel]; [done|]. simpl in *.
    destruct current_id as [cur|]; [|congruence].
    unfold live in Hdead. simpl in Hdead.
    destruct (truthy cur); [done|congruence].
  - destruct fuel as [|fuel]; [done|]. simpl in Hloop.
    destruct (live_Some current_id (Hlive 0%nat (Nat.lt_0_succ _))) as (y & -> & Hy).
    rewrite Hy in Hloop.
    destruct (decide (y ∈ visited)) as [Hin|_].
    { by destruct (Hvis 0%nat y (Nat.lt_0_succ _) eq_refl). }
    destruct (decide (Some y = self_id)) as [Hs|_].
    { by destruct (Hself 0%nat (Nat.lt_0_succ _)). }
    eapply IH; [exact Hloop|..].
    + intros k Hk. apply (Hlive (S k)). lia.
    + intros k Hk. apply (Hself (S k)). lia.
    + intros k x Hk Hx. apply not_elem_of_union. split.
      * intros ->%elem_of_singleton.
        apply (Hdist 0%nat (S k)); [lia|lia|]. symmetry. exact Hx.
      * apply (Hvis (S k)); [lia|done].
    + intros i j Hij Hj. apply (Hdist (S i) (S j)); lia.
    + exact Hdead.
Qed.

Lemma is_Some_proj_eq {A} (mx : option A) (H : is_Some mx) :
  mx = Some (is_Some_proj H).
Proof. destruct mx; [done|]. by destruct (is_Some_None H). Qed.

Lemma has_cycle_with_parent_loop s self_id p :
  Some p ≠ self_id →
  has_cycle_loop (cycle_fuel s) s self_id (Some p) ∅
  = Some (has_cycle_with_parent s self_id p).
Proof.
  intros Hne. unfold has_cycle_with_parent.
  destruct (decide (Some p = self_id)); [done|]. apply is_Some_proj_eq.
Qed.

Lemma has_cycle_with_parent_self s self_id p n :
  (∀ k, (k ≤ n)%nat → live (walk s (Some p) k)) →
  walk s (Some p) n = self_id →
  has_cycle_with_parent s self_id p = true.
Proof.
  intros Hlive Hn. destruct (decide (Some p = self_id)) as [Heq|Hne].
  - unfold has_cycle_with_parent. by rewrite decide_True.
  - eapply has_cycle_loop_self;
      [by apply has_cycle_with_parent_loop|exact Hlive|exact Hn].
Qed.

Lemma has_cycle_with_parent_revisit s self_id p i j :
  (i < j)%nat →
  (∀ k, (k ≤ j)%nat → live (walk s (Some p) k)) →
  walk s (Some p) i = walk s (Some p) j →
  has_cycle_with_parent s self_id p = true.
Proof.
  intros Hij Hlive Heq. destruct (decide (Some p = self_id)) as [Hs|Hne].
  - unfold has_cycle_with_parent. by rewrite decide_True.
  - eapply has_cycle_loop_revisit;
      [by apply has_cycle_with_parent_loop|exact Hij|exact Hlive|exact Heq].
Qed.

Lemma has_cycle_with_parent_null s self_id p n :
  Some p ≠ self_id →
  (∀ k, (k < n)%nat → live (walk s (Some p) k)) →
  (∀ k, (k < n)%nat → walk s (Some p) k ≠ self_id) →
  ¬ live (walk s (Some p) n) →
  has_cycle_with_parent s self_id p = false.
Proof.
  intros Hne Hlive Hself Hdead.
  eapply (has_cycle_loop_null n);
    [by apply has_cycle_with_parent_loop|exact Hlive|exact Hself| | |exact Hdead].
  - intros k x _ _. apply not_elem_of_empty.
  - intros i j Hij Hj. by apply (walk_no_revisit s (Some p) n).
Qed.

(** ** C6: the cycle check terminates and decides *)

(** C6. On every store, well formed or not, the loop of
    [has_cycle_with_parent] stops within [size + 2] evaluations of its
    condition, and the answer is the one the walk up the parent chain from
    the candidate parent gives: [true] when the walk comes back to an id it
    has been at, [true] when it comes to the node under validation, and
    [false] when it comes to a null parent ([None], or [0], which Python
    reads as false) without having met that node. *)
Theorem has_cycle_with_parent_decides (s : Store) (self_id : option Z) (p : Z) :
  (∃ b, (∀ fuel, (cycle_fuel s ≤ fuel)%nat →
           has_cycle_loop fuel s self_id (Some p) ∅ = Some b) ∧
        has_cycle_with_parent s self_id p
        = bool_decide (Some p = self_id) || b) ∧
  (∀ i j, (i < j)%nat →
     (∀ k, (k ≤ j)%nat → live (walk s (Some p) k)) →
     walk s (Some p) i = walk s (Some p) j →
     has_cycle_with_parent s self_id p = true) ∧
  (∀ n, (∀ k, (k ≤ n)%nat → live (walk s (Some p) k)) →
     walk s (Some p) n = self_id →
     has_cycle_with_parent s self_id p = true) ∧
  (∀ n, Some p ≠ self_id →
     (∀ k, (k < n)%nat → live (walk s (Some p) k)) →
     (∀ k, (k < n)%nat → walk s (Some p) k ≠ self_id) →
     ¬ live (walk s (Some p) n) →
     has_cycle_with_parent s self_id p = false).
Proof.
  split; [|split; [|split]].
  - destruct (has_cycle_loop_enough s self_id (Some p)) as [b Hb].
    exists b. split.
    + intros fuel Hfuel. by apply (has_cycle_loop_mono (cycle_fuel s)).
    + destruct (decide (Some p = self_id)) as [Heq|Hne].
      * unfold has_cycle_with_parent.
        by rewrite decide_True, bool_decide_eq_true_2.
      * rewrite bool_decide_eq_false_2 by done. simpl.
        pose proof (has_cycle_with_parent_loop s self_id p Hne). congruence.
  - intros i j. apply has_cycle_with_parent_revisit.
  - intros n. apply has_cycle_with_parent_self.
  - intros n. apply has_cycle_with_parent_null.
Qed.

Lemma has_cycle_with_parent_decides_witness :
  has_cycle_with_parent line3 (Some 5) 3 = false ∧
  has_cycle_with_parent line3 (Some 1) 3 = true ∧
  has_cycle_with_parent ring2 (Some 5) 1 = true.
Proof.
  split; [|split].
  - apply (proj2 (proj2 (proj2 (has_cycle_with_parent_decides line3 (Some 5) 3))) 3%nat).
    + done.
    + intros [|[|[|k]]] Hk; [by vm_compute..|lia].
    + intros [|[|[|k]]] Hk; [by vm_compute..|lia].
    + by vm_compute.
  - apply (proj1 (proj2 (proj2 (has_cycle_with_parent_decides line3 (Some 1) 3))) 2%nat).
    + intros [|[|[|k]]] Hk; [by vm_compute..|lia].
    + by vm_compute.
  - apply (proj1 (proj2 (has_cycle_with_parent_decides ring2 (Some 5) 1)) 0%nat 2%nat).
    + lia.
    + intros [|[|[|k]]] Hk; [by vm_compute..|lia].
    + by vm_compute.
Defined.

(** ** Stepping through a session computation *)

Lemma bind_query {A B} (f : Store → A) (k : A → M B) σ :
  (query f ≫= k) σ = k (f (working σ)) σ.
Proof. done. Qed.

Lemma bind_ret {A B} (a : A) (k : A → M B) σ : (ret a ≫= k) σ = k a σ.
Proof. done. Qed.

Lemma bind_raise {A B} (e : Exn) (k : A → M B) σ :
  (raise e ≫= k) σ = (Raise e, σ).
Proof. done. Qed.

Lemma bind_modify {B} (f : Store → Store) (k : unit → M B) σ :
  (modify f ≫= k) σ = k tt (mkSession (committed σ) (f (working σ))).
Proof. done. Qed.

(** The first steps of a DAO method on a fresh session: the row is looked
    up in the working copy, which is the store. *)
Ltac enter_dao method :=
  unfold run, method; rewrite bind_query; simpl.

Lemma find_by_id_with_row i c s : find_by_id (with_row i c s) i = Some c.
Proof. apply lookup_insert_eq. Qed.

Lemma find_by_id_with_row_ne i j c s :
  i ≠ j → find_by_id (with_row i c s) j = find_by_id s j.
Proof. apply lookup_insert_ne. Qed.

Lemma with_row_with_row i c c' s : with_row i c' (with_row i c s) = with_row i c' s.
Proof.
  unfold with_row, set_collections. simpl. by rewrite insert_insert_eq.
Qed.

Lemma with_row_id i c s : find_by_id s i = Some c → with_row i c s = s.
Proof.
  intros H. unfold with_row, set_collections.
  rewrite insert_id by done. by destruct s.
Qed.

Lemma link_table_with_row t i c s : link_table t (with_row i c s) = link_table t s.
Proof. by destruct t. Qed.

Lemma link_table_set_link_table t l s : link_table t (set_link_table t l s) = l.
Proof. by destruct t. Qed.

Lemma link_table_set_link_table_ne t t' l s :
  t ≠ t' → link_table t' (set_link_table t l s) = link_table t' s.
Proof. by destruct t, t'. Qed.

Lemma find_by_id_set_link_table t l s i :
  find_by_id (set_link_table t l s) i = find_by_id s i.
Proof. by destruct t. Qed.

Create Rewrite HintDb store.
#[local] Hint Rewrite find_by_id_with_row link_table_with_row
  link_table_set_link_table find_by_id_set_link_table : store.

Lemma setattr_eq {V} (validate : V → outcome V) upd i v cm w c :
  find_by_id w i = Some c →
  setattr validate upd i v (mkSession cm w)
  = match validate v with
    | Return v' => (Return tt, mkSession cm (with_row i (upd v' c) w))
    | Raise e => (Raise e, mkSession cm w)
    end.
Proof.
  intros Hrow. unfold setattr, lift, get_row, set_row, modify, mbind, M_bind, bind.
  destruct (validate v) as [v'|e]; [|done]. simpl. by rewrite Hrow.
Qed.

(** One conditional attribute write on the row [i], whose pending value is
    [c]: either its validator raises and the session is as it was, or the
    computation goes on with the attribute written. *)
Lemma set_if_supplied_inv {V W A} (o : option V) (g : V → W)
    (validate : W → outcome W) upd i (k : M A) cm w c res :
  (set_if_supplied o g (setattr validate upd i) ≫= λ _, k)
    (mkSession cm (with_row i c w)) = res →
  (∃ v e, o = Some v ∧ validate (g v) = Raise e ∧
          res = (Raise e, mkSession cm (with_row i c w))) ∨
  (∃ c1, k (mkSession cm (with_row i c1 w)) = res ∧
         match o with
         | None => c1 = c
         | Some v => ∃ v', validate (g v) = Return v' ∧ c1 = upd v' c
         end).
Proof.
  intros Hres. destruct o as [v|]; simpl in Hres.
  - unfold mbind, M_bind, bind in Hres.
    rewrite (setattr_eq _ _ _ _ _ _ c) in Hres by apply find_by_id_with_row.
    destruct (validate (g v)) as [v'|e] eqn:Hv.
    + right. exists (upd v' c). rewrite with_row_with_row in Hres. eauto.
    + left. eauto.
  - right. exists c. eauto.
Qed.

(** ** The unique constraints hold where the code has checked them *)

Lemma uq_slug_kept (old new : gmap Z SpCollection) :
  (∀ i c, new !! i = Some c → slug <$> old !! i = Some (slug c)) →
  ¬ uq_slug_violated old new.
Proof.
  intros Hkeep (i & c & Hi & Hchanged & _)%map_Exists_lookup.
  apply Hchanged. by apply Hkeep.
Qed.

Lemma link_copies_filter P `{∀ x, Decision (P x)} (l : list Link) a :
  (link_copies (filter P l) a ≤ link_copies l a)%nat.
Proof.
  unfold link_copies. rewrite list_filter_filter.
  induction l as [|x l IH]; [done|].
  rewrite !filter_cons.
  destruct (decide (same_link a x ∧ P x)) as [[? ?]|Hn];
    destruct (decide (same_link a x)); simpl; try lia.
  tauto.
Qed.

Lemma uq_link_not_more (old new : list Link) :
  (∀ a, link_copies new a ≤ link_copies old a)%nat →
  ¬ uq_link_violated old new.
Proof.
  intros Hle (a & _ & Hlt & _)%Exists_exists. specialize (Hle a). lia.
Qed.

Lemma uq_link_same l : ¬ uq_link_violated l l.
Proof. by apply uq_link_not_more. Qed.

(** ** The foreign keys hold where nothing is written against them *)

Lemma filter_none {A} (P : A → Prop) `{∀ x, Decision (P x)} (l : list A) :
  (∀ y, y ∈ l → ¬ P y) → filter P l = [].
Proof.
  induction l as [|a l IH]; intros Hnone; [done|].
  rewrite filter_cons, decide_False by (apply Hnone; left).
  apply IH. intros y Hy. apply Hnone. by right.
Qed.

Lemma elem_of_fk_parent_failures old new r :
  r ∈ fk_parent_failures old new
  ↔ new !! r.1 = Some r.2 ∧ fk_parent_dangling old new r.
Proof.
  unfold fk_parent_failures.
  rewrite merge_sort_Permutation, list_elem_of_filter.
  destruct r as [i c]. rewrite elem_of_map_to_list. simpl. tauto.
Qed.

(** No row is written with a new parent that has no row. *)
Lemma fk_parent_failures_nil old new :
  (∀ i c p, new !! i = Some c →
            parent_id <$> old !! i ≠ Some (parent_id c) →
            parent_id c = Some p → is_Some (new !! p)) →
  fk_parent_failures old new = [].
Proof.
  intros Hok. unfold fk_parent_failures. rewrite filter_none; [done|].
  intros [i c] Hi%elem_of_map_to_list [Hwritten Hdangling]. simpl in *.
  destruct (parent_id c) as [p|] eqn:Hp; [|done].
  destruct (Hok i c p Hi) as [r Hr]; [by rewrite Hp|done|congruence].
Qed.

Lemma fk_parent_kept old new :
  (∀ i c, new !! i = Some c → parent_id <$> old !! i = Some (parent_id c)) →
  fk_parent_failures old new = [].
Proof.
  intros Hkeep. apply fk_parent_failures_nil.
  intros i c p Hi Hwritten. by destruct Hwritten; apply Hkeep.
Qed.

Lemma fk_parent_failures_cons old new r :
  new !! r.1 = Some r.2 → fk_parent_dangling old new r →
  fk_parent_failures old new ≠ [].
Proof.
  intros Hr Hdangling Hnil.
  assert (Hin : r ∈ fk_parent_failures old new)
    by by apply elem_of_fk_parent_failures.
  rewrite Hnil in Hin. by apply elem_of_nil in Hin.
Qed.

(** A link table that gets no row has no statement that fails. *)
Lemma link_error_not_more t old new :
  (∀ a, link_copies (link_table t new) a ≤ link_copies (link_table t old) a)%nat →
  link_error t old new = None.
Proof.
  intros Hle. unfold link_error.
  rewrite decide_False by by apply uq_link_not_more.
  rewrite decide_False.
  2: { intros (a & _ & Hlt & _)%Exists_exists. specialize (Hle a). lia. }
  rewrite decide_False; [done|].
  intros (a & _ & Hlt & _)%Exists_exists. specialize (Hle a). lia.
Qed.

Lemma link_error_same t old new :
  link_table t new = link_table t old → link_error t old new = None.
Proof. intros Heq. apply link_error_not_more. intros a. by rewrite Heq. Qed.

Lemma flush_error_None (old new : Store) :
  (∀ i c, sp_collection new !! i = Some c →
          slug <$> sp_collection old !! i = Some (slug c)) →
  fk_parent_failures (sp_collection old) (sp_collection new) = [] →
  (∀ t, link_error t old new = None) →
  flush_error old new = None.
Proof.
  intros Hslug Hparent Hlinks. unfold flush_error.
  rewrite decide_False by by apply uq_slug_kept.
  by rewrite Hparent, !Hlinks.
Qed.

(** A flush that writes no slug, no parent id and no link goes through. *)
Lemma flush_error_None_kept (old new : Store) :
  (∀ i c, sp_collection new !! i = Some c →
          slug <$> sp_collection old !! i = Some (slug c) ∧
          parent_id <$> sp_collection old !! i = Some (parent_id c)) →
  (∀ t a, link_copies (link_table t new) a
          ≤ link_copies (link_table t old) a)%nat →
  flush_error old new = None.
Proof.
  intros Hrows Hlinks. apply flush_error_None.
  - intros i c Hi. by apply Hrows.
  - apply fk_parent_kept. intros i c Hi. by apply Hrows.
  - intros t. apply link_error_not_more, Hlinks.
Qed.

(** When one row was written and no link, the flush can fail on the slug
    of that row or on its parent. *)
Lemma flush_error_with_row s i c k :
  flush_error s (with_row i c s) = Some k →
  k = uq_slug ∨
  k = fk_parent_id (statement_shows_slug (find_by_id s i) c) ∧
  parent_id <$> find_by_id s i ≠ Some (parent_id c) ∧
  ∃ p, parent_id c = Some p ∧ p ≠ i ∧ find_by_id s p = None.
Proof.
  unfold flush_error.
  destruct (decide (uq_slug_violated _ _)); [intros [= <-]; by left|].
  destruct (fk_parent_failures _ _) as [|r l] eqn:Hfail.
  { by rewrite !link_error_same by apply link_table_with_row. }
  intros [= <-]. right.
  assert (Hr : r ∈ fk_parent_failures (sp_collection s)
                 (sp_collection (with_row i c s)))
    by (rewrite Hfail; by left).
  apply elem_of_fk_parent_failures in Hr as [Hrow [Hwritten Hdangling]].
  destruct r as [j cj]. simpl in *.
  destruct (decide (j = i)) as [->|Hne].
  - change (find_by_id (with_row i c s) i = Some cj) in Hrow.
    rewrite find_by_id_with_row in Hrow. injection Hrow as <-.
    split; [done|]. split; [done|].
    destruct (parent_id c) as [p|]; [|done]. exists p. split; [done|].
    change (find_by_id (with_row i c s) p = None) in Hdangling.
    destruct (decide (p = i)) as [->|Hp].
    + by rewrite find_by_id_with_row in Hdangling.
    + by rewrite find_by_id_with_row_ne in Hdangling.
  - change (find_by_id (with_row i c s) j = Some cj) in Hrow.
    rewrite find_by_id_with_row_ne in Hrow by done.
    unfold find_by_id in Hrow. by rewrite Hrow in Hwritten.
Qed.

(** ** [update_collection] *)

Lemma update_collection_not_found s cid n sl d p o cb :
  find_by_id s cid = None →
  run (update_collection cid n sl d p o cb) s = (Raise CollectionNotFoundError, s).
Proof.
  intros Hrow. enter_dao update_collection. by rewrite Hrow.
Qed.

Lemma update_collection_slug_conflict s cid c n sl d p o cb :
  find_by_id s cid = Some c →
  slug_conflict s cid c sl = true →
  run (update_collection cid n sl d p o cb) s = (Raise CollectionSlugExistsError, s).
Proof.
  intros Hrow Hslug. enter_dao update_collection. by rewrite Hrow, Hslug.
Qed.

Lemma update_collection_parent_conflict s cid c n sl d p o cb :
  find_by_id s cid = Some c →
  slug_conflict s cid c sl = false →
  parent_conflict s cid c p = true →
  run (update_collection cid n sl d p o cb) s = (Raise CollectionCycleError, s).
Proof.
  intros Hrow Hslug Hparent. enter_dao update_collection. by rewrite Hrow, Hslug, Hparent.
Qed.

Lemma update_collection_success s cid n sl d p o cb r s' :
  run (update_collection cid n sl d p o cb) s = (Return r, s') →
  ∃ c c1 c2 c3 c4 c5,
    find_by_id s cid = Some c ∧
    slug_conflict s cid c sl = false ∧
    parent_conflict s cid c p = false ∧
    supplied n id validate_name with_name c c1 ∧
    supplied sl id validate_slug with_slug c1 c2 ∧
    supplied d Some validate_description with_description c2 c3 ∧
    supplied p Some (validate_parent_id (Some cid)) with_parent_id c3 c4 ∧
    supplied o id (@Return bool) with_is_official c4 c5 ∧
    supplied cb (λ u, Some (user_id u)) (@Return (option Z)) with_changed_by_fk c5 r ∧
    flush_error s (with_row cid r s) = None ∧
    s' = with_row cid r s.
Proof.
  unfold run. destruct (update_collection _ _ _ _ _ _ _ _) as [res σ'] eqn:H.
  intros [= -> <-]. unfold update_collection in H. rewrite bind_query in H.
  simpl in H. destruct (find_by_id s cid) as [c|] eqn:Hrow; [|done].
  destruct (slug_conflict s cid c sl) eqn:Hslug; [done|].
  rewrite bind_ret in H.
  destruct (parent_conflict s cid c p) eqn:Hparent; [done|].
  rewrite bind_ret in H.
  unfold fresh in H. rewrite <- (with_row_id cid c s Hrow) in H at 2.
  unfold set_name, set_slug, set_description, set_parent_id, set_is_official,
    set_changed_by_fk in H.
  apply set_if_supplied_inv in H as [(? & ? & _ & _ & [=])|(c1 & H & H1)].
  apply set_if_supplied_inv in H as [(? & ? & _ & _ & [=])|(c2 & H & H2)].
  apply set_if_supplied_inv in H as [(? & ? & _ & _ & [=])|(c3 & H & H3)].
  apply set_if_supplied_inv in H as [(? & ? & _ & _ & [=])|(c4 & H & H4)].
  apply set_if_supplied_inv in H as [(? & ? & _ & _ & [=])|(c5 & H & H5)].
  apply set_if_supplied_inv in H as [(? & ? & _ & _ & [=])|(c6 & H & H6)].
  unfold try_except, commit, mbind, M_bind, bind in H. simpl in H.
  destruct (flush_error s (with_row cid c6 s)) as [k|] eqn:Hflush.
  { simpl in H. by destruct (mentions_slug k). }
  unfold get_row in H. simpl in H. rewrite find_by_id_with_row in H.
  injection H as <- <-. simpl.
  exists c, c1, c2, c3, c4, c5. by repeat split.
Qed.

Lemma supplied_frame {V W F} (o : option V) (g : V → W) validate upd
    (f : SpCollection → F) c c1 :
  (∀ v x, f (upd v x) = f x) →
  supplied o g validate upd c c1 → f c1 = f c.
Proof.
  intros Hf H. destruct o as [v|]; simpl in H; [|by subst].
  destruct H as (v' & _ & ->). apply Hf.
Qed.

Lemma supplied_field {V W} (o : option V) (g : V → W) validate upd
    (f : SpCollection → W) c c1 :
  (∀ v x, f (upd v x) = v) →
  supplied o g validate upd c c1 →
  match o with
  | None => f c1 = f c
  | Some v => validate (g v) = Return (f c1)
  end.
Proof.
  intros Hf H. destruct o as [v|]; simpl in H; [|by subst].
  destruct H as (v' & Hv & ->). by rewrite Hf.
Qed.

(** ** C9: partial update *)

(** C9. After a successful [update_collection], the store is the one
    before the call with the row of the collection replaced; in that row
    every attribute among name, slug, description, parent_id and
    is_official that the call did not supply ([None]) has the value it
    had, and a supplied one has the value its validator returned for the
    argument. The attributes the call has no argument for (uuid,
    item_count, created_by_fk) keep their values, and so do all other rows
    and the link tables. *)
Theorem update_collection_partial_update (s s' : Store) (cid : Z)
    (n sl d : option string) (p : option Z) (o : option bool)
    (cb : option User) (r : SpCollection) :
  run (update_collection cid n sl d p o cb) s = (Return r, s') →
  ∃ c, find_by_id s cid = Some c ∧
    s' = with_row cid r s ∧
    find_by_id s' cid = Some r ∧
    (∀ j, j ≠ cid → find_by_id s' j = find_by_id s j) ∧
    (∀ t, link_table t s' = link_table t s) ∧
    match n with
    | None => name r = name c
    | Some v => validate_name v = Return (name r)
    end ∧
    match sl with
    | None => slug r = slug c
    | Some v => validate_slug v = Return (slug r)
    end ∧
    match d with
    | None => description r = description c
    | Some v => validate_description (Some v) = Return (Some v) ∧
                description r = Some v
    end ∧
    match p with
    | None => parent_id r = parent_id c
    | Some v => parent_id r = Some v
    end ∧
    match o with
    | None => is_official r = is_official c
    | Some v => is_official r = v
    end ∧
    uuid r = uuid c ∧ item_count r = item_count c ∧
    created_by_fk r = created_by_fk c.
Proof.
  intros (c & c1 & c2 & c3 & c4 & c5 & Hrow & _ & _ & H1 & H2 & H3 & H4 & H5
          & H6 & _ & ->)%update_collection_success.
  exists c. split; [done|]. split; [done|].
  split; [apply find_by_id_with_row|].
  split; [intros j Hj; by apply find_by_id_with_row_ne|].
  split; [intros t; apply link_table_with_row|].
  pose proof (λ F (f : SpCollection → F) Hf,
              supplied_frame n id validate_name with_name f c c1 Hf H1) as F1.
  pose proof (λ F (f : SpCollection → F) Hf,
              supplied_frame sl id validate_slug with_slug f c1 c2 Hf H2) as F2.
  pose proof (λ F (f : SpCollection → F) Hf,
              supplied_frame d Some validate_description with_description
                f c2 c3 Hf H3) as F3.
  pose proof (λ F (f : SpCollection → F) Hf,
              supplied_frame p Some (validate_parent_id (Some cid))
                with_parent_id f c3 c4 Hf H4) as F4.
  pose proof (λ F (f : SpCollection → F) Hf,
              supplied_frame o id (@Return bool) with_is_official f c4 c5 Hf H5)
    as F5.
  pose proof (λ F (f : SpCollection → F) Hf,
              supplied_frame cb (λ u, Some (user_id u)) (@Return (option Z))
                with_changed_by_fk f c5 r Hf H6) as F6.
  repeat split.
  - rewrite (F6 _ name), (F5 _ name), (F4 _ name), (F3 _ name), (F2 _ name)
      by done.
    by apply (supplied_field n id validate_name with_name name c c1).
  - rewrite (F6 _ slug), (F5 _ slug), (F4 _ slug), (F3 _ slug) by done.
    rewrite <- (F1 _ slug) by done.
    by apply (supplied_field sl id validate_slug with_slug slug c1 c2).
  - rewrite (F6 _ description), (F5 _ description), (F4 _ description) by done.
    rewrite <- (F1 _ description), <- (F2 _ description) by done.
    pose proof (supplied_field d Some validate_description with_description
                  description c2 c3 (λ _ _, eq_refl) H3) as Hd.
    destruct d as [v|]; [|done]. unfold validate_description in Hd |- *.
    destruct (str_truthy v && (1000 <? Z.of_nat (String.length v))); [done|].
    by injection Hd as <-.
  - rewrite (F6 _ parent_id), (F5 _ parent_id) by done.
    rewrite <- (F1 _ parent_id), <- (F2 _ parent_id), <- (F3 _ parent_id) by done.
    pose proof (supplied_field p Some (validate_parent_id (Some cid))
                  with_parent_id parent_id c3 c4 (λ _ _, eq_refl) H4) as Hp.
    destruct p as [v|]; [|done]. unfold validate_parent_id in Hp.
    destruct (decide (v = cid)); [done|]. by injection Hp as <-.
  - rewrite (F6 _ is_official) by done.
    rewrite <- (F1 _ is_official), <- (F2 _ is_official), <- (F3 _ is_official),
      <- (F4 _ is_official) by done.
    pose proof (supplied_field o id (@Return bool) with_is_official is_official
                  c4 c5 (λ _ _, eq_refl) H5) as Ho.
    destruct o as [v|]; [|done]. by injection Ho as <-.
  - by rewrite (F6 _ uuid), (F5 _ uuid), (F4 _ uuid), (F3 _ uuid), (F2 _ uuid),
      (F1 _ uuid).
  - by rewrite (F6 _ item_count), (F5 _ item_count), (F4 _ item_count),
      (F3 _ item_count), (F2 _ item_count), (F1 _ item_count).
  - by rewrite (F6 _ created_by_fk), (F5 _ created_by_fk), (F4 _ created_by_fk),
      (F3 _ created_by_fk), (F2 _ created_by_fk), (F1 _ created_by_fk).
Qed.

Lemma update_collection_partial_update_witness :
  ∃ r s', run (update_collection 2 (Some " Two ") None None None (Some true) None)
            line3 = (Return r, s') ∧
    name r = "Two" ∧ slug r = "two" ∧ parent_id r = Some 1 ∧
    is_official r = true ∧ find_by_id s' 3 = find_by_id line3 3.
Proof.
  pose (r := mkSpCollection "" "Two" "two" None (Some 1) true 0 None None).
  assert (H : run (update_collection 2 (Some " Two ") None None None
                     (Some true) None) line3
              = (Return r, with_row 2 r line3)) by (by vm_compute).
  exists r, (with_row 2 r line3). split; [exact H|].
  destruct (update_collection_partial_update _ _ _ _ _ _ _ _ _ _ H)
    as (c & Hc & _ & _ & Hother & _ & Hn & Hs & _ & Hp & Ho & _).
  assert (c = example_row "two" "two" (Some 1)) as ->.
  { vm_compute in Hc. by injection Hc as <-. }
  split; [done|]. split; [exact Hs|]. split; [exact Hp|].
  split; [exact Ho|]. apply Hother. lia.
Defined.

(** ** C1: a parent that would close a cycle is refused *)

Lemma walk_live s o k x :
  find_by_id s 0 = None →
  walk s o k = Some x → x ≠ 0 →
  ∀ j, (j ≤ k)%nat → live (walk s o j).
Proof.
  intros Hzero. revert o. induction k as [|k IH]; intros o Hk Hx j Hj.
  - assert (j = 0%nat) as -> by lia. simpl in *. subst o.
    unfold live, opt_truthy, truthy. by apply negb_true_iff, Z.eqb_neq.
  - assert (Ho : live o).
    { destruct o as [y|]; [|by rewrite walk_None in Hk].
      unfold live, opt_truthy, truthy. apply negb_true_iff, Z.eqb_neq.
      intros ->. simpl in Hk. rewrite Hzero in Hk. simpl in Hk.
      by rewrite walk_None in Hk. }
    destruct j as [|j]; [done|]. simpl. apply IH; [done|done|lia].
Qed.

Lemma parent_conflict_reachable s cid c p k :
  find_by_id s cid = Some c →
  find_by_id s 0 = None →
  parent_id c ≠ Some p →
  walk s (Some p) k = Some cid →
  parent_conflict s cid c (Some p) = true.
Proof.
  intros Hrow Hzero Hnew Hk.
  assert (Hcid : cid ≠ 0) by (intros ->; congruence).
  pose proof (walk_live s (Some p) k cid Hzero Hk Hcid) as Hlive.
  unfold parent_conflict. rewrite bool_decide_eq_true_2 by congruence.
  pose proof (Hlive 0%nat (Nat.le_0_l _)) as Hp. unfold live in Hp.
  simpl in Hp. rewrite Hp. simpl. apply negb_true_iff.
  destruct (decide (Some p = Some cid)); [done|].
  apply negb_false_iff. by apply (has_cycle_with_parent_self s (Some cid) p k).
Qed.

Lemma update_collection_parent_only s cid p r s' :
  run (update_collection cid None None None (Some p) None None) s
  = (Return r, s') →
  ∃ c, find_by_id s cid = Some c ∧ r = with_parent_id (Some p) c ∧
       s' = with_row cid r s.
Proof.
  intros (c & c1 & c2 & c3 & c4 & c5 & Hrow & _ & _ & H1 & H2 & H3 & H4 & H5
          & H6 & _ & ->)%update_collection_success.
  simpl in *. subst c1 c2 c3 c5 r. destruct H4 as (v' & Hv & ->).
  exists c. split; [done|]. split; [|done].
  unfold validate_parent_id in Hv. destruct (decide (p = cid)); [done|].
  by injection Hv as <-.
Qed.

(** C1, as amended. In a store without a row of id 0, an
    [update_collection] of an existing collection whose [parent_id]
    argument differs from the collection's parent and is an id from which
    the walk up the parent chain comes to the collection itself (after [k]
    steps; [k = 0] is the collection's own id) raises: the slug error when
    the call also supplies a slug that another collection has, the cycle
    error otherwise. In particular the collection's own id is refused with
    the cycle error, and so is the update that would close a chain A, B, C
    built by two successful updates. Every time the store is left as it
    was. *)
Theorem update_collection_rejects_cycle :
  (∀ (s : Store) (cid : Z) (c : SpCollection) (n sl d : option string) (p : Z)
     (o : option bool) (cb : option User) (k : nat),
     find_by_id s cid = Some c →
     find_by_id s 0 = None →
     parent_id c ≠ Some p →
     walk s (Some p) k = Some cid →
     run (update_collection cid n sl d (Some p) o cb) s
     = (Raise (if slug_conflict s cid c sl then CollectionSlugExistsError
               else CollectionCycleError), s)) ∧
  (∀ (s : Store) (cid : Z) (c : SpCollection) (n d : option string)
     (o : option bool) (cb : option User),
     find_by_id s cid = Some c →
     find_by_id s 0 = None →
     parent_id c ≠ Some cid →
     run (update_collection cid n None d (Some cid) o cb) s
     = (Raise CollectionCycleError, s)) ∧
  (∀ (s s1 s2 : Store) (a b c : Z) (ra r1 r2 : SpCollection),
     find_by_id s 0 = None →
     find_by_id s a = Some ra →
     parent_id ra ≠ Some c →
     a ≠ b → b ≠ c → a ≠ c →
     run (update_collection b None None None (Some a) None None) s
     = (Return r1, s1) →
     run (update_collection c None None None (Some b) None None) s1
     = (Return r2, s2) →
     run (update_collection a None None None (Some c) None None) s2
     = (Raise CollectionCycleError, s2)).
Proof.
  assert (Hgen : ∀ s cid c n sl d p o cb k,
     find_by_id s cid = Some c →
     find_by_id s 0 = None →
     parent_id c ≠ Some p →
     walk s (Some p) k = Some cid →
     run (update_collection cid n sl d (Some p) o cb) s
     = (Raise (if slug_conflict s cid c sl then CollectionSlugExistsError
               else CollectionCycleError), s)).
  { intros s cid c n sl d p o cb k Hrow Hzero Hnew Hk.
    destruct (slug_conflict s cid c sl) eqn:Hslug.
    - by apply (update_collection_slug_conflict s cid c).
    - apply (update_collection_parent_conflict s cid c); [done|done|].
      by apply (parent_conflict_reachable s cid c p k). }
  split; [exact Hgen|]. split.
  - intros s cid c n d o cb Hrow Hzero Hnew.
    by apply (Hgen s cid c n None d cid o cb 0%nat).
  - intros s s1 s2 a b c ra r1 r2 Hzero Ha Hnew Hab Hbc Hac
      (rb & Hb & -> & ->)%update_collection_parent_only
      (rc & Hc & -> & ->)%update_collection_parent_only.
    assert (Hb0 : b ≠ 0) by (intros ->; congruence).
    rewrite find_by_id_with_row_ne in Hc by done.
    assert (Hc0 : c ≠ 0) by (intros ->; congruence).
    apply (Hgen _ a ra None None None c None None 2%nat).
    + by rewrite !find_by_id_with_row_ne.
    + by rewrite !find_by_id_with_row_ne.
    + done.
    + simpl. rewrite find_by_id_with_row. simpl.
      rewrite find_by_id_with_row_ne, find_by_id_with_row by done. done.
Qed.

Lemma update_collection_rejects_cycle_witness :
  run (update_collection 1 None None None (Some 3) None None) line3
  = (Raise CollectionCycleError, line3) ∧
  run (update_collection 1 None (Some "two") None (Some 1) None None) line3
  = (Raise CollectionSlugExistsError, line3) ∧
  run (update_collection 2 (Some "x") None None (Some 2) None None) line3
  = (Raise CollectionCycleError, line3) ∧
  ∃ s1 s2 r1 r2,
    run (update_collection 2 None None None (Some 1) None None) roots3
    = (Return r1, s1) ∧
    run (update_collection 3 None None None (Some 2) None None) s1
    = (Return r2, s2) ∧
    run (update_collection 1 None None None (Some 3) None None) s2
    = (Raise CollectionCycleError, s2).
Proof.
  destruct update_collection_rejects_cycle as (Hgen & Hself & Hchain).
  split; [|split; [|split]].
  - apply (Hgen line3 1 (example_row "one" "one" None) None None None 3 None
             None 2%nat); by vm_compute.
  - apply (Hgen line3 1 (example_row "one" "one" None) None (Some "two") None 1
             None None 0%nat); by vm_compute.
  - apply (Hself line3 2 (example_row "two" "two" (Some 1))); by vm_compute.
  - pose (r1 := example_row "two" "two" (Some 1)).
    pose (r2 := example_row "three" "three" (Some 2)).
    exists (with_row 2 r1 roots3), (with_row 3 r2 (with_row 2 r1 roots3)), r1, r2.
    assert (H1 : run (update_collection 2 None None None (Some 1) None None)
                   roots3 = (Return r1, with_row 2 r1 roots3))
      by (by vm_compute).
    assert (H2 : run (update_collection 3 None None None (Some 2) None None)
                   (with_row 2 r1 roots3)
                 = (Return r2, with_row 3 r2 (with_row 2 r1 roots3)))
      by (by vm_compute).
    split; [exact H1|]. split; [exact H2|].
    apply (Hchain roots3 (with_row 2 r1 roots3)
             (with_row 3 r2 (with_row 2 r1 roots3)) 1 2 3
             (example_row "one" "one" None) r1 r2);
      try done; by vm_compute.
Defined.

(** The claim as it was stated does not hold: the slug is validated before
    the parent, so a call that would close a cycle and also takes the slug
    of another collection raises the slug error. *)
Lemma update_collection_cycle_counterexample :
  ¬ ∀ (s : Store) (cid : Z) (c : SpCollection) (n sl d : option string) (p : Z)
      (o : option bool) (cb : option User) (k : nat),
      find_by_id s cid = Some c →
      walk s (Some p) k = Some cid →
      (run (update_collection cid n sl d (Some p) o cb) s).1
      = Raise CollectionCycleError.
Proof.
  intros H.
  specialize (H line3 1 (example_row "one" "one" None) None (Some "two") None 3
                None None 2%nat eq_refl eq_refl).
  vm_compute in H. discriminate H.
Qed.

(** ** [find_children] and [find_root_collections] *)

Lemma elem_of_find_children s parent j r :
  (j, r) ∈ find_children s parent
  ↔ find_by_id s j = Some r ∧ parent_id r = Some parent.
Proof.
  unfold find_children, find_by_id.
  rewrite merge_sort_Permutation, list_elem_of_filter, elem_of_map_to_list.
  simpl. tauto.
Qed.

Lemma elem_of_find_root_collections s j r :
  (j, r) ∈ find_root_collections s
  ↔ find_by_id s j = Some r ∧ parent_id r = None.
Proof.
  unfold find_root_collections, find_by_id.
  rewrite merge_sort_Permutation, list_elem_of_filter, elem_of_map_to_list.
  simpl. tauto.
Qed.

(** ** [delete_collection] *)

(** The loop over the children: every row of the list gets the new parent,
    the other rows stay. *)
Lemma for_each_set_parent_id (l : list (Z * SpCollection)) (newp : option Z) cm :
  ∀ w,
  (∀ ch, ch ∈ l → newp ≠ Some ch.1 ∧ is_Some (find_by_id w ch.1)) →
  ∃ m', for_each l (λ child, set_parent_id child.1 newp) (mkSession cm w)
        = (Return tt, mkSession cm (set_collections m' w)) ∧
        ∀ j, m' !! j = if decide (j ∈ l.*1)
                       then with_parent_id newp <$> find_by_id w j
                       else find_by_id w j.
Proof.
  induction l as [|x l IH]; intros w Hl.
  - exists (sp_collection w). split; [by destruct w|]. intros j.
    rewrite decide_False; [done|]. simpl. apply not_elem_of_nil.
  - destruct (Hl x) as [Hx [r Hr]]; [by left|].
    destruct (IH (with_row x.1 (with_parent_id newp r) w)) as (m' & Hrun & Hm').
    { intros ch Hch. destruct (Hl ch) as [? [r' Hr']]; [by right|].
      split; [done|]. destruct (decide (x.1 = ch.1)) as [<-|Hne].
      - rewrite find_by_id_with_row. by eexists.
      - rewrite find_by_id_with_row_ne by done. by eexists. }
    exists m'. split.
    + simpl. unfold mbind, M_bind, bind, set_parent_id.
      rewrite (setattr_eq _ _ _ _ _ _ r Hr).
      assert (validate_parent_id (Some x.1) newp = Return newp) as ->.
      { unfold validate_parent_id. destruct newp as [p'|]; [|done].
        destruct (decide (p' = x.1)) as [->|]; [|done]. by destruct Hx. }
      exact Hrun.
    + intros j. rewrite Hm'.
      destruct (decide (x.1 = j)) as [<-|Hne].
      * rewrite find_by_id_with_row, Hr.
        rewrite (decide_True (P := x.1 ∈ (x :: l).*1)) by (simpl; by left).
        by destruct (decide (x.1 ∈ l.*1)).
      * rewrite find_by_id_with_row_ne by done.
        destruct (decide (j ∈ l.*1)) as [Hin|Hnin].
        -- by rewrite (decide_True (P := j ∈ (x :: l).*1)) by (simpl; by right).
        -- rewrite (decide_False (P := j ∈ (x :: l).*1)); [done|].
           simpl. intros [?|?]%elem_of_cons; [congruence|done].
Qed.

(** The collection has children and a parent id that no row has: the
    case in which the re-parenting fails on the foreign key. *)
Definition parent_missing (s : Store) (cid : Z) (c : SpCollection) : Prop :=
  ∃ p, parent_id c = Some p ∧ find_by_id s p = None ∧
       find_children s cid ≠ [].

Lemma parent_missing_dec s cid c :
  parent_missing s cid c ∨ ¬ parent_missing s cid c.
Proof.
  destruct (parent_id c) as [p|] eqn:Hp.
  2: { right. intros (? & ? & _). congruence. }
  destruct (find_by_id s p) as [r|] eqn:Hr.
  { right. intros (p' & Hp' & Hnone & _). congruence. }
  destruct (find_children s cid) as [|x l] eqn:Hl.
  { right. by intros (? & _ & _ & ?). }
  left. exists p. by rewrite Hl.
Qed.

(** What [delete_collection] hands to the flush when the loop over the
    children went through, and what it makes of the flush's answer. *)
Lemma delete_collection_flush s cid c :
  find_by_id s cid = Some c →
  (∀ p r, parent_id c = Some p → find_by_id s p = Some r →
          parent_id r ≠ Some cid) →
  ∃ s',
    run (delete_collection cid) s
    = match flush_error s s' with
      | Some k => (Raise (IntegrityError k), s)
      | None => (Return true, s')
      end ∧
    (∀ j, find_by_id s' j =
          if decide (j = cid) then None
          else match find_by_id s j with
               | Some r => if decide (parent_id r = Some cid)
                           then Some (with_parent_id (parent_id c) r)
                           else Some r
               | None => None
               end) ∧
    (∀ t, link_table t s'
          = filter (λ l, link_collection_id l ≠ cid) (link_table t s)).
Proof.
  intros Hrow Hparent.
  destruct (for_each_set_parent_id (find_children s cid) (parent_id c) s s)
    as (m' & Hloop & Hm').
  { intros [j r] [Hj Hr]%elem_of_find_children. simpl. split; [|by eexists].
    intros Hc. by apply (Hparent j r). }
  set (s' := mkStore (delete cid m')
               (filter (λ l, link_collection_id l ≠ cid) (sp_collection_dashboard s))
               (filter (λ l, link_collection_id l ≠ cid) (sp_collection_chart s))
               (filter (λ l, link_collection_id l ≠ cid) (sp_collection_dataset s))
               (dashboards s) (slices s) (tables s)).
  assert (Hs' : ∀ j, find_by_id s' j =
          if decide (j = cid) then None
          else match find_by_id s j with
               | Some r => if decide (parent_id r = Some cid)
                           then Some (with_parent_id (parent_id c) r)
                           else Some r
               | None => None
               end).
  { intros j. unfold find_by_id at 1. simpl.
    destruct (decide (j = cid)) as [->|Hne]; [apply lookup_delete_eq|].
    rewrite lookup_delete_ne by done. rewrite Hm'.
    destruct (find_by_id s j) as [r|] eqn:Hj.
    - destruct (decide (parent_id r = Some cid)) as [Hr|Hr].
      + rewrite decide_True; [done|].
        apply list_elem_of_fmap. exists (j, r). split; [done|].
        by apply elem_of_find_children.
      + rewrite decide_False; [done|].
        intros ([j' r'] & -> & [Hj' Hr']%elem_of_find_children)%list_elem_of_fmap.
        simpl in *. congruence.
    - by destruct (decide (j ∈ (find_children s cid).*1)). }
  exists s'. split; [|split; [exact Hs'|by intros []]].
  enter_dao delete_collection. rewrite Hrow.
  unfold try_except, mbind, M_bind, bind, fresh. rewrite Hloop.
  unfold session_delete_collection, modify, commit. simpl.
  fold s'. by destruct (flush_error s s').
Qed.

(** The store [delete_collection] leaves when it returns [True]. *)
Lemma delete_collection_found s cid c :
  find_by_id s cid = Some c →
  (∀ p r, parent_id c = Some p → find_by_id s p = Some r →
          parent_id r ≠ Some cid) →
  ¬ parent_missing s cid c →
  ∃ s', run (delete_collection cid) s = (Return true, s') ∧
    (∀ j, find_by_id s' j =
          if decide (j = cid) then None
          else match find_by_id s j with
               | Some r => if decide (parent_id r = Some cid)
                           then Some (with_parent_id (parent_id c) r)
                           else Some r
               | None => None
               end) ∧
    (∀ t, link_table t s'
          = filter (λ l, link_collection_id l ≠ cid) (link_table t s)).
Proof.
  intros Hrow Hparent Hfk.
  destruct (delete_collection_flush s cid c Hrow Hparent)
    as (s' & Hrun & Hs' & Hlinks).
  exists s'. split; [|by split].
  rewrite Hrun, (flush_error_None s s'); [done| | |].
  - intros i r Hi. pose proof (Hs' i) as Hi'. unfold find_by_id in Hi'.
    rewrite Hi in Hi'. destruct (decide (i = cid)); [done|].
    destruct (sp_collection s !! i) as [r0|]; [|done]. simpl.
    destruct (decide (parent_id r0 = Some cid)); by injection Hi' as ->.
  - apply fk_parent_failures_nil. intros i r p Hi Hwritten Hp.
    pose proof (Hs' i) as Hi'. unfold find_by_id in Hi'. rewrite Hi in Hi'.
    destruct (decide (i = cid)); [done|].
    destruct (sp_collection s !! i) as [r0|] eqn:Hi0; [|done].
    destruct (decide (parent_id r0 = Some cid)) as [Hchild|];
      [|by injection Hi' as ->].
    injection Hi' as ->. simpl in Hp.
    destruct (find_by_id s p) as [rp|] eqn:Hrp.
    + pose proof (Hs' p) as Hp'. unfold find_by_id in Hp'. rewrite Hp'.
      rewrite decide_False.
      * unfold find_by_id in Hrp. rewrite Hrp.
        by destruct (decide (parent_id rp = Some cid)).
      * intros ->. apply (Hparent cid c Hp Hrow). congruence.
    + destruct Hfk. exists p. split; [done|]. split; [done|].
      intros Hnil.
      assert (Hin : (i, r0) ∈ find_children s cid)
        by by apply elem_of_find_children.
      rewrite Hnil in Hin. by apply elem_of_nil in Hin.
  - intros t. apply link_error_not_more. intros a. rewrite Hlinks.
    apply link_copies_filter.
Qed.

(** The re-parenting fails on the foreign key, and the store is left. *)
Lemma delete_collection_dangling s cid c :
  find_by_id s cid = Some c →
  (∀ p r, parent_id c = Some p → find_by_id s p = Some r →
          parent_id r ≠ Some cid) →
  parent_missing s cid c →
  ∃ k, run (delete_collection cid) s = (Raise (IntegrityError k), s).
Proof.
  intros Hrow Hparent (p & Hp & Hnone & Hchildren).
  destruct (delete_collection_flush s cid c Hrow Hparent)
    as (s' & Hrun & Hs' & Hlinks).
  rewrite Hrun.
  destruct (flush_error s s') as [k|] eqn:Hflush; [by exists k|].
  exfalso. unfold flush_error in Hflush.
  destruct (decide (uq_slug_violated _ _)); [done|].
  destruct (find_children s cid) as [|[j r] l] eqn:Hl; [done|].
  assert (Hin : (j, r) ∈ find_children s cid) by (rewrite Hl; by left).
  apply elem_of_find_children in Hin as [Hj Hr].
  assert (Hjc : j ≠ cid).
  { intros ->. apply (Hparent cid c); [|done|]; congruence. }
  assert (Hpc : p ≠ cid) by congruence.
  destruct (fk_parent_failures_cons (sp_collection s) (sp_collection s')
              (j, with_parent_id (Some p) r)).
  - simpl. pose proof (Hs' j) as Hj'. unfold find_by_id in Hj'.
    rewrite Hj', decide_False by done. unfold find_by_id in Hj.
    rewrite Hj, decide_True by done. by rewrite Hp.
  - split; simpl.
    + unfold find_by_id in Hj. rewrite Hj. simpl. rewrite Hr. congruence.
    + pose proof (Hs' p) as Hp'. unfold find_by_id in Hp'.
      rewrite Hp', decide_False by done. unfold find_by_id in Hnone.
      by rewrite Hnone.
  - by destruct (fk_parent_failures _ _).
Qed.

(** The parent of the collection is the collection or one of its
    children: the case in which the re-parenting trips over
    [validate_parent_id]. *)
Definition parent_is_child (s : Store) (cid : Z) (c : SpCollection) : Prop :=
  ∃ p r, parent_id c = Some p ∧ find_by_id s p = Some r ∧
         parent_id r = Some cid.

Lemma parent_is_child_dec s cid c :
  parent_is_child s cid c ∨
  (∀ p r, parent_id c = Some p → find_by_id s p = Some r →
          parent_id r ≠ Some cid).
Proof.
  destruct (parent_id c) as [p|] eqn:Hp; [|by right].
  destruct (find_by_id s p) as [r|] eqn:Hr; [|right; congruence].
  destruct (decide (parent_id r = Some cid)) as [Hc|Hc].
  - left. by exists p, r.
  - right. congruence.
Qed.

(** The loop trips over a child whose id is the new parent, and leaves
    what was committed alone. *)
Lemma for_each_set_parent_id_trips (l : list (Z * SpCollection)) (p : Z) cm :
  ∀ w,
  (∀ ch, ch ∈ l → is_Some (find_by_id w ch.1)) →
  p ∈ l.*1 →
  ∃ w', for_each l (λ child, set_parent_id child.1 (Some p)) (mkSession cm w)
        = (Raise ValueError, mkSession cm w').
Proof.
  induction l as [|x l IH]; intros w Hl Hp; [by apply elem_of_nil in Hp|].
  destruct (Hl x) as [r Hr]; [by left|].
  simpl. unfold mbind, M_bind, bind, set_parent_id.
  rewrite (setattr_eq _ _ _ _ _ _ r Hr). unfold validate_parent_id.
  destruct (decide (p = x.1)) as [|Hne]; [by eexists|].
  apply IH.
  - intros ch Hch. destruct (Hl ch) as [r' Hr']; [by right|].
    destruct (decide (x.1 = ch.1)) as [<-|Hne'].
    + rewrite find_by_id_with_row. by eexists.
    + rewrite find_by_id_with_row_ne by done. by eexists.
  - rewrite fmap_cons in Hp. apply elem_of_cons in Hp as [?|?]; done.
Qed.

Lemma delete_collection_trips s cid c :
  find_by_id s cid = Some c →
  parent_is_child s cid c →
  run (delete_collection cid) s = (Raise ValueError, s).
Proof.
  intros Hrow (p & r & Hp & Hr & Hc).
  destruct (for_each_set_parent_id_trips (find_children s cid) p s s)
    as (w' & Hloop).
  { intros [j r'] [Hj _]%elem_of_find_children. by eexists. }
  { apply list_elem_of_fmap. exists (p, r). split; [done|].
    by apply elem_of_find_children. }
  enter_dao delete_collection. rewrite Hrow, Hp.
  unfold try_except, mbind, M_bind, bind, fresh. by rewrite Hloop.
Qed.

(** ** C3: deleting a collection hands its children to its parent *)

(** C3, as amended. [delete_collection] of an id without a row returns
    [False] and leaves the store as it was. For a collection that has a
    row and whose parent, if it has one, has a row and is neither the
    collection itself nor one of its children, it returns [True], and in
    the store it leaves the row of the collection is gone, every row that
    had the collection as parent has the collection's former parent
    (which may be [None]) as parent and is otherwise, the audit column
    apart, as it was, no row has the deleted id as parent, and the rows
    that were not children are as they were. When the parent of the collection is the collection
    itself or one of its children, it raises the [ValueError] of
    [validate_parent_id] and leaves the store as it was. *)
Theorem delete_collection_reparents :
  (∀ (s : Store) (cid : Z),
     find_by_id s cid = None →
     run (delete_collection cid) s = (Return false, s)) ∧
  (∀ (s : Store) (cid : Z) (c : SpCollection),
     find_by_id s cid = Some c →
     (∀ p, parent_id c = Some p →
           ∃ r, find_by_id s p = Some r ∧ parent_id r ≠ Some cid) →
     ∃ s', run (delete_collection cid) s = (Return true, s') ∧
       find_by_id s' cid = None ∧
       (∀ j r, find_by_id s j = Some r → parent_id r = Some cid →
          ∃ r', find_by_id s' j = Some r' ∧ parent_id r' = parent_id c ∧
                unaudited r' = unaudited (with_parent_id (parent_id c) r)) ∧
       (∀ j r', find_by_id s' j = Some r' → parent_id r' ≠ Some cid) ∧
       find_children s' cid = [] ∧
       (∀ j r, j ≠ cid → find_by_id s j = Some r → parent_id r ≠ Some cid →
          find_by_id s' j = Some r)) ∧
  (∀ (s : Store) (cid : Z) (c : SpCollection),
     find_by_id s cid = Some c →
     parent_is_child s cid c →
     run (delete_collection cid) s = (Raise ValueError, s)).
Proof.
  split; [|split].
  - intros s cid Hrow. enter_dao delete_collection. by rewrite Hrow.
  - intros s cid c Hrow Hfk.
    assert (Hparent : ∀ p r, parent_id c = Some p → find_by_id s p = Some r →
                             parent_id r ≠ Some cid).
    { intros p r Hp Hr. destruct (Hfk p Hp) as (r' & Hr' & Hne). congruence. }
    assert (Hmissing : ¬ parent_missing s cid c).
    { intros (p & Hp & Hnone & _). destruct (Hfk p Hp) as (r & Hr & _).
      congruence. }
    destruct (delete_collection_found s cid c Hrow Hparent Hmissing)
      as (s' & Hrun & Hs' & _).
    assert (Hself : parent_id c ≠ Some cid).
    { intros Hc. by apply (Hparent cid c). }
    assert (Hnone : ∀ j r', find_by_id s' j = Some r' → parent_id r' ≠ Some cid).
    { intros j r' Hj. rewrite Hs' in Hj.
      destruct (decide (j = cid)); [done|].
      destruct (find_by_id s j) as [r|]; [|done].
      destruct (decide (parent_id r = Some cid)); injection Hj as <-; done. }
    exists s'. split; [exact Hrun|]. split; [|split; [|split; [|split]]].
    + rewrite Hs'. by rewrite decide_True.
    + intros j r Hj Hr. exists (with_parent_id (parent_id c) r).
      split; [|done]. rewrite Hs', Hj.
      rewrite decide_False by congruence. by rewrite decide_True.
    + exact Hnone.
    + destruct (find_children s' cid) as [|[j r'] l] eqn:Hl; [done|].
      assert (Hin : (j, r') ∈ find_children s' cid) by (rewrite Hl; by left).
      apply elem_of_find_children in Hin as [Hj Hr'].
      by destruct (Hnone j r' Hj).
    + intros j r Hne Hj Hr. rewrite Hs', Hj.
      rewrite decide_False by done. by rewrite decide_False.
  - intros s cid c. apply delete_collection_trips.
Qed.

Lemma delete_collection_reparents_witness :
  ∃ s', run (delete_collection 2) line3 = (Return true, s') ∧
        find_by_id s' 2 = None ∧
        parent_id <$> find_by_id s' 3 = Some (Some 1) ∧
        find_by_id s' 1 = find_by_id line3 1.
Proof.
  destruct (proj1 (proj2 delete_collection_reparents) line3 2
              (example_row "two" "two" (Some 1)))
    as (s' & Hrun & Hgone & Hchildren & _ & _ & Hothers).
  - by vm_compute.
  - intros p [= <-]. exists (example_row "one" "one" None). by vm_compute.
  - exists s'. split; [exact Hrun|]. split; [exact Hgone|]. split.
    + destruct (Hchildren 3 (example_row "three" "three" (Some 2)))
        as (r' & Hr' & Hp & _); [by vm_compute..|].
      by rewrite Hr'; simpl; rewrite Hp.
    + assert (H1 : find_by_id line3 1 = Some (example_row "one" "one" None))
        by (by vm_compute).
      rewrite H1. by apply Hothers.
Defined.

(** The claim without the condition on the parent: in a store where two
    collections are each other's parent, the row is not deleted. *)
Lemma delete_collection_cycle_counterexample :
  ¬ ∀ (s : Store) (cid : Z) (c : SpCollection),
      find_by_id s cid = Some c →
      ∃ s', run (delete_collection cid) s = (Return true, s') ∧
            find_by_id s' cid = None.
Proof.
  intros H.
  destruct (H ring2 1 (example_row "one" "one" (Some 2)) eq_refl)
    as (s' & Hrun & _).
  vm_compute in Hrun. discriminate Hrun.
Qed.

(** ** [add_item_to_collection] and [remove_item_from_collection] *)

Lemma item_exists_false s cid t iid :
  item_exists_in_collection s cid t iid = false
  ↔ Forall (λ l, ¬ link_matches cid iid l) (link_table t s).
Proof.
  unfold item_exists_in_collection. rewrite bool_decide_eq_false.
  rewrite <- Forall_Exists_neg. done.
Qed.

Lemma item_exists_true s cid t iid :
  item_exists_in_collection s cid t iid = true
  ↔ Exists (link_matches cid iid) (link_table t s).
Proof. unfold item_exists_in_collection. by rewrite bool_decide_eq_true. Qed.

Lemma head_filter_None (l : list Link) cid iid :
  Forall (λ l, ¬ link_matches cid iid l) l →
  head (filter (link_matches cid iid) l) = None.
Proof.
  intros H. induction H as [|x l Hx _ IH]; [done|].
  by rewrite filter_cons_False.
Qed.

Lemma head_filter_Some (l : list Link) cid iid :
  Exists (link_matches cid iid) l →
  ∃ l1 x l2, l = l1 ++ x :: l2 ∧ link_matches cid iid x ∧
    Forall (λ l, ¬ link_matches cid iid l) l1 ∧
    head (filter (link_matches cid iid) l) = Some x ∧
    delete_first cid iid l = l1 ++ l2.
Proof.
  induction l as [|y l IH]; intros H; [by apply Exists_nil in H|].
  destruct (decide (link_matches cid iid y)) as [Hy|Hy].
  - exists [], y, l. simpl. rewrite filter_cons_True by done.
    by rewrite decide_True.
  - apply Exists_cons in H as [?|H]; [done|].
    destruct (IH H) as (l1 & x & l2 & -> & Hx & Hl1 & Hhead & Hdel).
    exists (y :: l1), x, l2. simpl. rewrite filter_cons_False by done.
    rewrite decide_False by done. rewrite Hdel.
    split; [done|]. split; [done|]. split; [by constructor|done].
Qed.

Lemma link_copies_app l1 l2 a :
  link_copies (l1 ++ l2) a = (link_copies l1 a + link_copies l2 a)%nat.
Proof. unfold link_copies. by rewrite filter_app, length_app. Qed.

Lemma link_copies_delete_first cid iid l a :
  (link_copies (delete_first cid iid l) a ≤ link_copies l a)%nat.
Proof.
  unfold link_copies. induction l as [|x l IH]; [done|]. simpl.
  destruct (decide (link_matches cid iid x)).
  - rewrite filter_cons. destruct (decide (same_link a x)); simpl; lia.
  - rewrite !filter_cons. destruct (decide (same_link a x)); simpl; lia.
Qed.

Lemma link_copies_singleton x a :
  link_copies [x] a = if decide (same_link a x) then 1%nat else 0%nat.
Proof.
  unfold link_copies. rewrite filter_cons, filter_nil.
  by destruct (decide (same_link a x)).
Qed.

(** A link that the check before the insert did not find is not a
    duplicate. *)
Lemma uq_link_fresh (old : list Link) (x : Link) :
  Forall (λ l, ¬ link_matches (link_collection_id x) (link_item_id x) l) old →
  ¬ uq_link_violated old (old ++ [x]).
Proof.
  intros Hfresh (a & _ & Hmore & Htwice)%Exists_exists.
  rewrite link_copies_app, link_copies_singleton in Hmore, Htwice.
  destruct (decide (same_link a x)) as [[Hc Hi]|]; [|lia].
  assert (link_copies old a = 0%nat) as Hzero; [|lia].
  clear Hmore Htwice. unfold link_copies. apply length_zero_iff_nil.
  induction Hfresh as [|y l Hy _ IH]; [done|].
  rewrite filter_cons_False; [done|].
  intros [Hc' Hi']. apply Hy. unfold link_matches. split; congruence.
Qed.

Lemma link_copies_added (old : list Link) (x a : Link) :
  (link_copies old a < link_copies (old ++ [x]) a)%nat ↔ same_link a x.
Proof.
  rewrite link_copies_app, link_copies_singleton.
  destruct (decide (same_link a x)); split; try done; lia.
Qed.

Lemma in_catalogue_added s cid c t iid u now t' iid' :
  in_catalogue (added s cid c t iid u now) t' iid' = in_catalogue s t' iid'.
Proof. unfold added. by destruct t, t'. Qed.

(** The statements on the link tables when a link is added: the insert
    fails when the item is not in the catalogue, and on nothing else. *)
Lemma link_error_added s cid c t iid u now t' :
  find_by_id s cid = Some c →
  item_exists_in_collection s cid t iid = false →
  link_error t' s (added s cid c t iid u now)
  = if decide (t' = t)
    then if in_catalogue s t iid then None else Some (fk_link_item t)
    else None.
Proof.
  intros Hrow Hnew. destruct (decide (t' = t)) as [->|Hne].
  2: { apply link_error_same. unfold added.
       by rewrite link_table_with_row, link_table_set_link_table_ne. }
  unfold link_error.
  assert (Htable : link_table t (added s cid c t iid u now)
                   = link_table t s ++ [mkLink cid iid (user_id <$> u) now]).
  { unfold added. by rewrite link_table_with_row, link_table_set_link_table. }
  rewrite decide_False.
  2: { rewrite Htable. apply uq_link_fresh. simpl. by apply item_exists_false. }
  rewrite decide_False.
  2: { unfold fk_link_collection_violated. rewrite Htable.
       intros (a & _ & [Hc _]%link_copies_added & Hnone)%Exists_exists.
       rewrite Hc in Hnone. simpl in Hnone. unfold added in Hnone.
       by rewrite find_by_id_with_row in Hnone. }
  destruct (in_catalogue s t iid) eqn:Hcat.
  - rewrite decide_False; [done|].
    unfold fk_link_item_violated. rewrite Htable.
    intros (a & _ & [_ Hi]%link_copies_added & Hnone)%Exists_exists.
    rewrite Hi, in_catalogue_added in Hnone. simpl in Hnone. congruence.
  - rewrite decide_True; [done|].
    unfold fk_link_item_violated. rewrite Htable.
    apply Exists_exists. exists (mkLink cid iid (user_id <$> u) now).
    split; [apply elem_of_app; right; by left|]. split.
    + by apply link_copies_added.
    + by rewrite in_catalogue_added.
Qed.

Lemma flush_error_added s cid c t iid u now :
  find_by_id s cid = Some c →
  item_exists_in_collection s cid t iid = false →
  flush_error s (added s cid c t iid u now)
  = if in_catalogue s t iid then None else Some (fk_link_item t).
Proof.
  intros Hrow Hnew.
  assert (Hrows : ∀ i r, sp_collection (added s cid c t iid u now) !! i = Some r →
            slug <$> sp_collection s !! i = Some (slug r) ∧
            parent_id <$> sp_collection s !! i = Some (parent_id r)).
  { intros i r. unfold added, with_row, set_collections. simpl.
    replace (sp_collection (set_link_table t _ s)) with (sp_collection s)
      by by destruct t.
    destruct (decide (cid = i)) as [<-|Hne].
    + rewrite lookup_insert_eq. intros [= <-]. unfold find_by_id in Hrow.
      by rewrite Hrow.
    + rewrite lookup_insert_ne by done. by intros ->. }
  unfold flush_error.
  rewrite decide_False by (apply uq_slug_kept; intros i r Hi; by apply Hrows).
  rewrite fk_parent_kept by (intros i r Hi; by apply Hrows).
  rewrite !(link_error_added s cid c t iid u now) by done.
  destruct (in_catalogue s t iid); by destruct t.
Qed.

(** The session of [add_item_to_collection] at its commit. *)
Lemma add_item_commit s cid c t iid u now :
  find_by_id s cid = Some c →
  item_exists_in_collection s cid t iid = false →
  run (add_item_to_collection cid t iid u now) s
  = if in_catalogue s t iid then (Return true, added s cid c t iid u now)
    else (Raise (IntegrityError (fk_link_item t)), s).
Proof.
  intros Hrow Hnew. enter_dao add_item_to_collection. rewrite Hrow, Hnew.
  unfold try_except, session_add_link, set_item_count, fresh.
  rewrite bind_modify. simpl. unfold mbind, M_bind, bind.
  rewrite (setattr_eq _ _ _ _ _ _ c) by by destruct t.
  simpl. unfold commit. simpl. fold (added s cid c t iid u now).
  rewrite flush_error_added by done.
  by destruct (in_catalogue s t iid).
Qed.

Lemma add_item_new s cid c t iid u now :
  find_by_id s cid = Some c →
  item_exists_in_collection s cid t iid = false →
  in_catalogue s t iid = true →
  run (add_item_to_collection cid t iid u now) s
  = (Return true, added s cid c t iid u now).
Proof.
  intros Hrow Hnew Hcat. by rewrite (add_item_commit s cid c), Hcat.
Qed.

Lemma add_item_absent s cid c t iid u now :
  find_by_id s cid = Some c →
  item_exists_in_collection s cid t iid = false →
  in_catalogue s t iid = false →
  run (add_item_to_collection cid t iid u now) s
  = (Raise (IntegrityError (fk_link_item t)), s).
Proof.
  intros Hrow Hnew Hcat. by rewrite (add_item_commit s cid c), Hcat.
Qed.

Lemma add_item_again s cid c t iid u now :
  find_by_id s cid = Some c →
  item_exists_in_collection s cid t iid = true →
  run (add_item_to_collection cid t iid u now) s
  = (Raise CollectionItemAlreadyExistsError, s).
Proof.
  intros Hrow Hold. enter_dao add_item_to_collection. by rewrite Hrow, Hold.
Qed.

(** ** C4: adding the same item twice *)

(** C4, as amended. [add_item_to_collection] either raises and leaves the
    store as it was, or returns [True] and leaves the store with one more
    link row and the counter one higher: never one without the other. For
    a collection that has a row and an item of the catalogue that it is
    not linked to yet, the first call returns [True], appends exactly the
    new row to the link table of the item type, and raises [item_count]
    by exactly 1, leaving the other tables, the other rows and, the audit
    column apart, the other columns of the row as they were; a
    second call with the same collection, type and item raises
    [CollectionItemAlreadyExistsError] and leaves that store, so that
    [item_count] is 1 higher overall, not 2. For an item that is not in
    the catalogue the first call raises the [IntegrityError] of the
    foreign key on the item id. *)
Theorem add_item_twice :
  (∀ (s s' : Store) (cid : Z) (t : CollectionItemType) (iid : Z)
     (u : option User) (now : Z) (res : outcome bool),
     run (add_item_to_collection cid t iid u now) s = (res, s') →
     (∃ e, res = Raise e ∧ s' = s) ∨
     (∃ c c1, find_by_id s cid = Some c ∧ res = Return true ∧
              link_table t s'
              = link_table t s ++ [mkLink cid iid (user_id <$> u) now] ∧
              find_by_id s' cid = Some c1 ∧
              item_count c1 = item_count c + 1)) ∧
  (∀ (s : Store) (cid : Z) (c : SpCollection) (t : CollectionItemType)
     (iid : Z) (u u' : option User) (now now' : Z),
     find_by_id s cid = Some c →
     item_exists_in_collection s cid t iid = false →
     in_catalogue s t iid = true →
     ∃ s1 c1,
       run (add_item_to_collection cid t iid u now) s = (Return true, s1) ∧
       link_table t s1 = link_table t s ++ [mkLink cid iid (user_id <$> u) now] ∧
       (∀ t', t' ≠ t → link_table t' s1 = link_table t' s) ∧
       find_by_id s1 cid = Some c1 ∧
       item_count c1 = item_count c + 1 ∧
       unaudited c1 = unaudited (with_item_count (item_count c + 1) c) ∧
       (∀ j, j ≠ cid → find_by_id s1 j = find_by_id s j) ∧
       run (add_item_to_collection cid t iid u' now') s1
       = (Raise CollectionItemAlreadyExistsError, s1)) ∧
  (∀ (s : Store) (cid : Z) (c : SpCollection) (t : CollectionItemType)
     (iid : Z) (u : option User) (now : Z),
     find_by_id s cid = Some c →
     item_exists_in_collection s cid t iid = false →
     in_catalogue s t iid = false →
     run (add_item_to_collection cid t iid u now) s
     = (Raise (IntegrityError (fk_link_item t)), s)).
Proof.
  split; [|split].
  - intros s s' cid t iid u now res Hrun.
    destruct (find_by_id s cid) as [c|] eqn:Hrow.
    + destruct (item_exists_in_collection s cid t iid) eqn:Hex.
      * rewrite (add_item_again s cid c) in Hrun by done.
        injection Hrun as <- <-. left. by eexists.
      * rewrite (add_item_commit s cid c) in Hrun by done.
        destruct (in_catalogue s t iid); injection Hrun as <- <-.
        -- right. exists c, (with_item_count (item_count c + 1) c).
           split; [done|]. split; [done|].
           split; [unfold added; by autorewrite with store|].
           split; [apply find_by_id_with_row|done].
        -- left. by eexists.
    + left. exists CollectionNotFoundError.
      unfold run, add_item_to_collection in Hrun. rewrite bind_query in Hrun.
      simpl in Hrun. rewrite Hrow in Hrun. by injection Hrun as <- <-.
  - intros s cid c t iid u u' now now' Hrow Hnew Hcat.
    exists (added s cid c t iid u now), (with_item_count (item_count c + 1) c).
    split; [by apply add_item_new|].
    split; [unfold added; by autorewrite with store|].
    split.
    { intros t' Hne. unfold added.
      by rewrite link_table_with_row, link_table_set_link_table_ne. }
    split; [apply find_by_id_with_row|]. split; [done|]. split; [done|].
    split.
    { intros j Hne. unfold added.
      by rewrite find_by_id_with_row_ne, find_by_id_set_link_table. }
    apply (add_item_again _ cid (with_item_count (item_count c + 1) c)).
    + apply find_by_id_with_row.
    + apply item_exists_true. unfold added.
      rewrite link_table_with_row, link_table_set_link_table.
      apply Exists_app. right. by left.
  - intros s cid c t iid u now. apply add_item_absent.
Qed.

Lemma add_item_twice_witness :
  ∃ s1, run (add_item_to_collection 5 DASHBOARD 42 None 7) stocked
        = (Return true, s1) ∧
        sp_collection_dashboard s1 = [mkLink 5 42 None 7] ∧
        (item_count <$> find_by_id s1 5) = Some 1 ∧
        run (add_item_to_collection 5 DASHBOARD 42 None 8) s1
        = (Raise CollectionItemAlreadyExistsError, s1).
Proof.
  destruct (proj1 (proj2 add_item_twice) stocked 5
              (example_row "five" "five" None) DASHBOARD 42 None None 7 8)
    as (s1 & c1 & Hrun & Hlinks & _ & Hrow & Hcount & _ & _ & Hagain).
  - by vm_compute.
  - by vm_compute.
  - by vm_compute.
  - exists s1. split; [exact Hrun|]. split; [exact Hlinks|].
    split; [by rewrite Hrow; simpl; rewrite Hcount|exact Hagain].
Defined.

(** The claim for every item id: a dashboard that is not in the catalogue
    cannot be added, the first call raises. *)
Lemma add_item_absent_counterexample :
  ¬ ∀ (s : Store) (cid : Z) (c : SpCollection) (t : CollectionItemType)
      (iid : Z) (u : option User) (now : Z),
      find_by_id s cid = Some c →
      item_exists_in_collection s cid t iid = false →
      (run (add_item_to_collection cid t iid u now) s).1 = Return true.
Proof.
  intros H.
  specialize (H solo 5 (example_row "five" "five" None) DASHBOARD 42 None 7
                eq_refl eq_refl).
  vm_compute in H. discriminate H.
Qed.

(** ** C5: removing an item *)

Lemma remove_item_missing s cid c t iid :
  find_by_id s cid = Some c →
  Forall (λ l, ¬ link_matches cid iid l) (link_table t s) →
  run (remove_item_from_collection cid t iid) s
  = (Raise CollectionItemNotFoundError, s).
Proof.
  intros Hrow Hmissing. enter_dao remove_item_from_collection. rewrite Hrow.
  by rewrite head_filter_None.
Qed.

Lemma remove_item_found s cid c t iid :
  find_by_id s cid = Some c →
  Exists (link_matches cid iid) (link_table t s) →
  ∃ l1 x l2, link_table t s = l1 ++ x :: l2 ∧ link_matches cid iid x ∧
    Forall (λ l, ¬ link_matches cid iid l) l1 ∧
    run (remove_item_from_collection cid t iid) s
    = (Return true,
       with_row cid (with_item_count (Z.max 0 (item_count c - 1)) c)
         (set_link_table t (l1 ++ l2) s)).
Proof.
  intros Hrow Hfound.
  destruct (head_filter_Some _ cid iid Hfound)
    as (l1 & x & l2 & Htable & Hx & Hl1 & Hhead & Hdel).
  exists l1, x, l2. split; [done|]. split; [done|]. split; [done|].
  enter_dao remove_item_from_collection. rewrite Hrow, Hhead.
  unfold try_except, set_item_count, fresh.
  rewrite bind_modify. simpl. unfold mbind, M_bind, bind.
  rewrite (setattr_eq _ _ _ _ _ _ c) by by rewrite find_by_id_set_link_table.
  simpl. unfold commit. simpl. rewrite Hdel.
  rewrite flush_error_None_kept; [done| |].
  - intros i r. unfold with_row, set_collections. simpl.
    replace (sp_collection (set_link_table t _ s)) with (sp_collection s)
      by by destruct t.
    destruct (decide (cid = i)) as [<-|Hne].
    + rewrite lookup_insert_eq. intros [= <-]. unfold find_by_id in Hrow.
      by rewrite Hrow.
    + rewrite lookup_insert_ne by done. by intros ->.
  - intros t' a. rewrite link_table_with_row.
    destruct (decide (t = t')) as [<-|Hne].
    + rewrite link_table_set_link_table.
      rewrite <- Hdel. apply link_copies_delete_first.
    + by rewrite link_table_set_link_table_ne.
Qed.

(** C5. For a collection that has a row: when no link row of the item type
    has the collection and the item, [remove_item_from_collection] raises
    [CollectionItemNotFoundError] and leaves the store, with its
    [item_count] and link rows, as it was; when there is one, it returns
    [True], the first such row is gone from the table and no other, and
    [item_count] is [max(0, item_count - 1)], which is never negative and
    is [item_count - 1] when the counter was positive; the other tables
    and rows are as they were. *)
Theorem remove_item_floor :
  (∀ (s : Store) (cid : Z) (c : SpCollection) (t : CollectionItemType) (iid : Z),
     find_by_id s cid = Some c →
     Forall (λ l, ¬ link_matches cid iid l) (link_table t s) →
     run (remove_item_from_collection cid t iid) s
     = (Raise CollectionItemNotFoundError, s)) ∧
  (∀ (s : Store) (cid : Z) (c : SpCollection) (t : CollectionItemType) (iid : Z),
     find_by_id s cid = Some c →
     Exists (link_matches cid iid) (link_table t s) →
     ∃ s' c' l1 x l2,
       run (remove_item_from_collection cid t iid) s = (Return true, s') ∧
       link_table t s = l1 ++ x :: l2 ∧ link_matches cid iid x ∧
       Forall (λ l, ¬ link_matches cid iid l) l1 ∧
       link_table t s' = l1 ++ l2 ∧
       (∀ t', t' ≠ t → link_table t' s' = link_table t' s) ∧
       find_by_id s' cid = Some c' ∧
       c' = with_item_count (Z.max 0 (item_count c - 1)) c ∧
       0 ≤ item_count c' ∧
       (0 < item_count c → item_count c' = item_count c - 1) ∧
       (∀ j, j ≠ cid → find_by_id s' j = find_by_id s j)).
Proof.
  split; [exact remove_item_missing|].
  intros s cid c t iid Hrow Hfound.
  destruct (remove_item_found s cid c t iid Hrow Hfound)
    as (l1 & x & l2 & Htable & Hx & Hl1 & Hrun).
  eexists _, (with_item_count (Z.max 0 (item_count c - 1)) c), l1, x, l2.
  split; [exact Hrun|]. split; [done|]. split; [done|]. split; [done|].
  split; [by autorewrite with store|].
  split.
  { intros t' Hne.
    by rewrite link_table_with_row, link_table_set_link_table_ne. }
  split; [apply find_by_id_with_row|]. split; [done|].
  split; [simpl; lia|]. split; [simpl; lia|].
  intros j Hne. by rewrite find_by_id_with_row_ne, find_by_id_set_link_table.
Qed.

Lemma remove_item_floor_witness :
  run (remove_item_from_collection 5 CHART 42) solo_linked
  = (Raise CollectionItemNotFoundError, solo_linked) ∧
  ∃ s', run (remove_item_from_collection 5 DASHBOARD 42) solo_linked
        = (Return true, s') ∧
        sp_collection_dashboard s' = [] ∧
        (item_count <$> find_by_id s' 5) = Some 0.
Proof.
  split.
  - apply (proj1 remove_item_floor solo_linked 5 (example_row "five" "five" None));
      [by vm_compute|]. simpl. constructor.
  - destruct (proj2 remove_item_floor solo_linked 5
                (example_row "five" "five" None) DASHBOARD 42)
      as (s' & c' & l1 & x & l2 & Hrun & Htable & _ & _ & Hlinks & _ & Hrow
          & Hc' & _).
    + by vm_compute.
    + simpl. left. by vm_compute.
    + exists s'. split; [exact Hrun|].
      destruct l1 as [|y l1]; [|by destruct l1].
      injection Htable as <- <-. split; [exact Hlinks|].
      by rewrite Hrow, Hc'.
Defined.

(** ** C7: what [total_count] counts *)

Lemma length_omap_le {A B} (f : A → option B) (l : list A) :
  (length (omap f l) ≤ length l)%nat.
Proof.
  induction l as [|x l IH]; [done|]. csimpl. destruct (f x); simpl; lia.
Qed.

Lemma length_paginate_le {A} limit offset (l : list A) :
  (length (paginate limit offset l) ≤ length l)%nat.
Proof.
  unfold paginate.
  destruct (N_truthy limit), (N_truthy offset);
    rewrite ?length_take, ?length_drop; lia.
Qed.

Lemma length_bucket_le {B} (want : bool) (f : Link → option B) limit offset
    (l : list Link) :
  (length (if want then omap f (paginate limit offset l) else []) ≤ length l)%nat.
Proof.
  destruct want; simpl; [|lia].
  etrans; [apply length_omap_le|apply length_paginate_le].
Qed.

(** C7. For a collection that has a row, [get_collection_items] returns,
    and its [total_count] is the sum of the lengths of the three buckets
    it returns, where a bucket holds the entries of the link rows of the
    collection that are left after [offset] and [limit] were applied to
    that bucket's query and whose item is in the catalogue (and is empty
    when another item type was asked for). It is at most the number of
    link rows of the collection, and can be less: by a limit, and by a
    link whose item is missing. *)
Theorem get_collection_items_total_count :
  (∀ (s : Store) (cid : Z) (c : SpCollection)
     (item_type : option CollectionItemType) (limit offset : option N),
     find_by_id s cid = Some c →
     ∃ r, get_collection_items s cid item_type limit offset = Return r ∧
       total_count r
       = Z.of_nat (length (items_dashboards r))
         + Z.of_nat (length (items_charts r))
         + Z.of_nat (length (items_datasets r)) ∧
       items_dashboards r
       = (if wants item_type DASHBOARD
          then omap (dashboard_item s)
                 (paginate limit offset (links_of cid (sp_collection_dashboard s)))
          else []) ∧
       items_charts r
       = (if wants item_type CHART
          then omap (chart_item s)
                 (paginate limit offset (links_of cid (sp_collection_chart s)))
          else []) ∧
       items_datasets r
       = (if wants item_type DATASET
          then omap (dataset_item s)
                 (paginate limit offset (links_of cid (sp_collection_dataset s)))
          else []) ∧
       total_count r ≤ total_item_count s cid) ∧
  (∃ r, get_collection_items three_links 5 None (Some 1%N) None = Return r ∧
        total_count r = 1 ∧ total_item_count three_links 5 = 3) ∧
  (∃ r, get_collection_items three_links 5 None None None = Return r ∧
        total_count r = 2 ∧ total_item_count three_links 5 = 3).
Proof.
  split; [|split; eexists; by vm_compute].
  intros s cid c item_type limit offset Hrow.
  unfold get_collection_items. rewrite Hrow. eexists. split; [done|].
  simpl. repeat split. unfold total_item_count.
  pose proof (length_bucket_le (wants item_type DASHBOARD) (dashboard_item s)
                limit offset (links_of cid (sp_collection_dashboard s))).
  pose proof (length_bucket_le (wants item_type CHART) (chart_item s)
                limit offset (links_of cid (sp_collection_chart s))).
  pose proof (length_bucket_le (wants item_type DATASET) (dataset_item s)
                limit offset (links_of cid (sp_collection_dataset s))).
  lia.
Qed.

Lemma get_collection_items_total_count_witness :
  ∃ r, get_collection_items three_links 5 (Some DASHBOARD) None (Some 1%N)
       = Return r ∧
       total_count r = Z.of_nat (length (items_dashboards r)) ∧
       total_count r ≤ 3.
Proof.
  destruct (proj1 get_collection_items_total_count three_links 5
              (example_row "five" "five" None) (Some DASHBOARD) None (Some 1%N))
    as (r & Hrun & Htotal & _ & Hcharts & Hdatasets & Hle).
  - by vm_compute.
  - exists r. split; [exact Hrun|]. split; [|exact Hle].
    rewrite Htotal, Hcharts, Hdatasets. simpl. lia.
Defined.

(** ** The tree *)

Global Instance name_le_total : Total name_le.
Proof. intros a b. unfold name_le. apply (total String.le). Qed.

Lemma find_root_collections_sorted s : Sorted name_le (find_root_collections s).
Proof. apply (Sorted_merge_sort name_le). Qed.

Lemma find_root_collections_NoDup s : NoDup (find_root_collections s).
Proof.
  unfold find_root_collections. rewrite merge_sort_Permutation.
  apply NoDup_filter, NoDup_map_to_list.
Qed.

Lemma mapM_total {A B} (f : A → option B) (g : A → B) (l : list A) :
  (∀ x, f x = Some (g x)) → mapM f l = Some (g <$> l).
Proof.
  intros Hf. apply mapM_Some. induction l as [|x l IH]; constructor; auto.
Qed.

Lemma filter_all {A} (P : A → Prop) `{∀ x, Decision (P x)} (l : list A) :
  (∀ x, P x) → filter P l = l.
Proof.
  intros HP. induction l as [|x l IH]; [done|].
  by rewrite filter_cons_True, IH.
Qed.

(** No root is skipped, whoever asks. *)
Lemma visible_roots (user : option User) (roots : list (Z * SpCollection)) :
  filter (λ root,
      match user with
      | Some u => negb (user_can_access_collection u root "view")
      | None => false
      end = false) roots = roots.
Proof. apply filter_all. intros root. by destruct user. Qed.

(** ** C8: the tree cut at depth 0 *)

(** C8. With [max_depth = 0] and no root id ([None], or [0], which Python
    reads as false), [get_tree] returns, for any user and as soon as it
    has fuel for one call, one node for each root collection, in the order
    of [find_root_collections], each with depth 0 and no children; and
    [find_root_collections] lists exactly the rows without parent, each
    once, in ascending order of name. The rows below the roots play no
    part. *)
Theorem get_tree_depth_zero (s : Store) (fuel : nat) (root_id : option Z)
    (user : option User) :
  opt_truthy root_id = false →
  get_tree (S fuel) s root_id (Some 0) user
  = Some (leaf s 0 <$> find_root_collections s) ∧
  Forall (λ node, node_depth node = 0 ∧ node_children node = [])
    (leaf s 0 <$> find_root_collections s) ∧
  (∀ j r, (j, r) ∈ find_root_collections s
          ↔ find_by_id s j = Some r ∧ parent_id r = None) ∧
  NoDup (find_root_collections s) ∧
  Sorted (λ a b, String.le (name a.2) (name b.2)) (find_root_collections s).
Proof.
  intros Hroot. split; [|split; [|split; [|split]]].
  - unfold get_tree. rewrite Hroot, visible_roots. by apply mapM_total.
  - apply Forall_fmap, Forall_forall. by intros.
  - apply elem_of_find_root_collections.
  - apply find_root_collections_NoDup.
  - apply find_root_collections_sorted.
Qed.

Lemma get_tree_depth_zero_witness :
  get_tree 1 line3 (Some 0) (Some 0) (Some (mkUser 9))
  = Some [leaf line3 0 (1, example_row "one" "one" None)].
Proof.
  destruct (get_tree_depth_zero line3 0 (Some 0) (Some (mkUser 9)) eq_refl)
    as [-> _].
  by vm_compute.
Defined.

(** ** C10: the user does not change the tree *)

Lemma build_tree_node_user fuel s max_depth u1 u2 collection depth :
  build_tree_node fuel s max_depth u1 collection depth
  = build_tree_node fuel s max_depth u2 collection depth.
Proof.
  revert collection depth.
  induction fuel as [|fuel IH]; intros collection depth; [done|].
  simpl. destruct (depth_allows max_depth depth); [|done].
  assert (Hch : ∀ u : option User,
            match u with
            | Some u' => filter_by_user_permissions
                           (find_children s collection.1) u' "view"
            | None => find_children s collection.1
            end = find_children s collection.1) by (by intros []).
  rewrite !Hch.
  by rewrite (mapM_ext _ (λ child, build_tree_node fuel s max_depth u2 child
                                     (depth + 1))).
Qed.

(** C10. [get_tree] returns the same for any two users, and for a user
    and none: on every store, root id, depth limit and fuel. The filter
    [filter_by_user_permissions] returns the list it is given and
    [user_can_access_collection] is [True] for every user and
    collection. *)
Theorem get_tree_ignores_user (fuel : nat) (s : Store) (root_id max_depth : option Z)
    (u1 u2 : option User) :
  get_tree fuel s root_id max_depth u1 = get_tree fuel s root_id max_depth u2 ∧
  (∀ (l : list (Z * SpCollection)) (u : User) (perm : string),
     filter_by_user_permissions l u perm = l) ∧
  (∀ (u : User) (c : Z * SpCollection) (perm : string),
     user_can_access_collection u c perm = true).
Proof.
  split; [|done]. unfold get_tree.
  destruct (if opt_truthy root_id then _ else _) as [roots|]; [|done].
  rewrite !visible_roots.
  apply mapM_ext. intros root. apply build_tree_node_user.
Qed.

(** ** C2: the depth of the tree is not capped *)

Lemma build_tree_node_ring2 fuel :
  ∀ depth,
  build_tree_node fuel ring2 None None (1, example_row "one" "one" (Some 2)) depth
  = None ∧
  build_tree_node fuel ring2 None None (2, example_row "two" "two" (Some 1)) depth
  = None.
Proof.
  assert (H1 : find_children ring2 1 = [(2, example_row "two" "two" (Some 1))])
    by (by vm_compute).
  assert (H2 : find_children ring2 2 = [(1, example_row "one" "one" (Some 2))])
    by (by vm_compute).
  induction fuel as [|fuel IH]; intros depth; [done|].
  split.
  - change (build_tree_node (S fuel) ring2 None None
              (1, example_row "one" "one" (Some 2)) depth)
      with (children ← mapM (λ child, build_tree_node fuel ring2 None None child
                                        (depth + 1)) (find_children ring2 1);
            Some (mkTreeNode 1 "" "one" "one" None false 0
                    (total_item_count ring2 1) depth children)).
    rewrite H1. simpl. by rewrite (proj2 (IH (depth + 1))).
  - change (build_tree_node (S fuel) ring2 None None
              (2, example_row "two" "two" (Some 1)) depth)
      with (children ← mapM (λ child, build_tree_node fuel ring2 None None child
                                        (depth + 1)) (find_children ring2 2);
            Some (mkTreeNode 2 "" "two" "two" None false 0
                    (total_item_count ring2 2) depth children)).
    rewrite H2. simpl. by rewrite (proj1 (IH (depth + 1))).
Qed.

(** C2, on the code: [get_tree] has no ceiling on the depth. [MAX_TREE_DEPTH]
    is 10, but on a line of twelve collections the tree built without
    [max_depth], or with [max_depth = 50], goes down to depth 11; and on
    two collections that are each other's parent the call with one of
    them as root and without [max_depth] does not return, whatever the
    fuel. *)
Theorem get_tree_has_no_ceiling :
  MAX_TREE_DEPTH = 10 ∧
  (∃ tree, get_tree 12 (store_of (line 12)) None None None = Some tree ∧
           Exists (λ node, deepest node = 11) tree) ∧
  (∃ tree, get_tree 12 (store_of (line 12)) None (Some 50) None = Some tree ∧
           Exists (λ node, deepest node = 11) tree) ∧
  (∀ fuel, get_tree fuel ring2 (Some 1) None None = None).
Proof.
  split; [done|]. split; [|split].
  - eexists. split; [by vm_compute|]. by left.
  - eexists. split; [by vm_compute|]. by left.
  - intros fuel. unfold get_tree. simpl.
    assert (find_by_id ring2 1 = Some (example_row "one" "one" (Some 2))) as ->
      by (by vm_compute).
    simpl. by rewrite (proj1 (build_tree_node_ring2 fuel 0)).
Qed.

(** * More of the models and of the DAO *)

(** ** models.py: the properties [is_root], [path], [breadcrumb_path] and
    [depth] *)

Definition is_root (c : SpCollection) : bool := bool_decide (parent_id c = None).

(** [collection.parent], the relationship on [parent_id]: the row with
    that id, if there is one. *)
Definition parent (s : Store) (collection : Z * SpCollection)
  : option (Z * SpCollection) :=
  p ← parent_id collection.2; r ← find_by_id s p; Some (p, r).

(** The [while current:] loop of [path]; [path.insert(0, current)] puts
    the row in front. *)
Fixpoint path_loop (fuel : nat) (s : Store) (current : option (Z * SpCollection))
    (path : list (Z * SpCollection)) : option (list (Z * SpCollection)) :=
  match fuel with
  | O => None
  | S fuel' =>
      match current with
      | None => Some path
      | Some cur => path_loop fuel' s (parent s cur) (cur :: path)
      end
  end.

Definition path (fuel : nat) (s : Store) (self : Z * SpCollection)
  : option (list (Z * SpCollection)) :=
  path_loop fuel s (Some self) [].

Definition breadcrumb_path (fuel : nat) (s : Store) (self : Z * SpCollection)
  : option string :=
  l ← path fuel s self; Some (String.concat " > " (name ∘ snd <$> l)).

(** The [while current:] loop of [depth]. *)
Fixpoint depth_loop (fuel : nat) (s : Store) (current : option (Z * SpCollection))
    (depth : Z) : option Z :=
  match fuel with
  | O => None
  | S fuel' =>
      match current with
      | None => Some depth
      | Some cur => depth_loop fuel' s (parent s cur) (depth + 1)
      end
  end.

Definition depth (fuel : nat) (s : Store) (self : Z * SpCollection) : option Z :=
  depth_loop fuel s (parent s self) 0.

(** ** models.py: [SpCollectionPermission] *)

(** [can_view] and [can_curate] are [None] on an object until they are
    assigned. *)
Record SpCollectionPermission := mkSpCollectionPermission {
  perm_collection_id : Z;
  role_id : Z;
  can_view : option bool;
  can_curate : option bool
}.

(** [obj.can_view = value] through [validate_permissions]: the value goes
    through as it is. *)
Definition set_can_view (value : bool) (p : SpCollectionPermission)
  : SpCollectionPermission :=
  mkSpCollectionPermission (perm_collection_id p) (role_id p) (Some value)
    (can_curate p).

(** [obj.can_curate = value] through [validate_permissions]: when the
    value is true and [can_view] is not, [self.can_view = True] first. *)
Definition set_can_curate (value : bool) (p : SpCollectionPermission)
  : SpCollectionPermission :=
  let p :=
    if value && negb (default false (can_view p)) then set_can_view true p
    else p in
  mkSpCollectionPermission (perm_collection_id p) (role_id p) (can_view p)
    (Some value).

(** ** dao.py: [create_collection] *)

(** [session.add(collection)]: the row enters the table under the key the
    store gives it, which is one that no row has; under a key that is
    taken the INSERT fails on the primary key. *)
Definition session_add_collection (new_id : Z) (c : SpCollection) : M unit :=
  s ← query id;
  if bool_decide (is_Some (find_by_id s new_id))
  then raise (IntegrityError pk_collection)
  else modify (with_row new_id c).

(** [new_id] and [new_uuid] are what the store and the column default of
    [uuid] give the new row; [item_count] takes its column default 0. The
    constructor assigns its keyword arguments in turn, each through its
    validator; the object has no id yet, so [validate_parent_id] lets
    every parent through, and the cycle check runs with [self.id] being
    [None]. *)
Definition create_collection (new_name new_slug : string)
    (new_description : option string) (new_parent_id : option Z)
    (new_is_official : bool) (created_by : option User)
    (new_id : Z) (new_uuid : string) : M (Z * SpCollection) :=
  s ← query id;
  (* Check if slug already exists *)
  (if bool_decide (is_Some (find_by_slug s new_slug))
   then raise CollectionSlugExistsError else ret tt);;
  (* Validate parent doesn't create cycle *)
  (if opt_truthy new_parent_id
      && bool_decide (find_by_id s (default 0 new_parent_id) = None)
   then raise CollectionNotFoundError else ret tt);;
  (* Create collection *)
  n ← lift (validate_name new_name);
  sl ← lift (validate_slug new_slug);
  d ← lift (validate_description new_description);
  p ← lift (validate_parent_id None new_parent_id);
  let collection :=
    mkSpCollection new_uuid n sl d p new_is_official 0
      (user_id <$> created_by) None in
  (* Additional cycle check using the model method *)
  (if opt_truthy new_parent_id
      && has_cycle_with_parent s None (default 0 new_parent_id)
   then raise CollectionCycleError else ret tt);;
  try_except
    (session_add_collection new_id collection;;
     commit;;
     ret (new_id, collection))
    (λ ex,
       match ex with
       | IntegrityError c =>
           rollback;;
           if mentions_slug c then raise CollectionSlugExistsError
           else raise ex
       | _ => raise ex
       end).

(** ** dao.py: [update_item_counts] *)

(** The recursion goes up the parents; the fuel bounds its nesting. An
    exception of [commit] is not caught. *)
Fixpoint update_item_counts (fuel : nat) (collection_id : Z) (σ : Session)
  : option (outcome unit * Session) :=
  match fuel with
  | O => None
  | S fuel' =>
      match find_by_id (working σ) collection_id with
      | None => Some (Return tt, σ)
      | Some collection =>
          (* Calculate actual count *)
          let actual_count := total_item_count (working σ) collection_id in
          (* Update if different *)
          match (if bool_decide (item_count collection ≠ actual_count)
                 then set_item_count collection_id actual_count;; commit
                 else ret tt) σ with
          | (Raise e, σ') => Some (Raise e, σ')
          | (Return _, σ') =>
              (* Recursively update parent *)
              if opt_truthy (parent_id collection)
              then update_item_counts fuel'
                     (default 0 (parent_id collection)) σ'
              else Some (Return tt, σ')
          end
      end
  end.

(** As [run]: on a fresh session, and what is committed at the end. *)
Definition run_update_item_counts (fuel : nat) (collection_id : Z) (s : Store)
  : option (outcome unit * Store) :=
  '(r, σ) ← update_item_counts fuel collection_id (fresh s);
  Some (r, committed σ).

(** ** The vocabulary of the further statements *)

(** The walk up from [i] comes to an end. *)
Definition grounded (s : Store) (i : Z) : Prop :=
  ∃ n, walk s (Some i) n = None.

(** No parent chain comes back to its start. *)
Definition acyclic (s : Store) : Prop := ∀ i, grounded s i.

(** No two collections have the same slug. *)
Definition slugs_unique (s : Store) : Prop :=
  ∀ i j c c', find_by_id s i = Some c → find_by_id s j = Some c' →
              slug c = slug c' → i = j.

(** Every counter is the number of link rows of its collection. *)
Definition counts_consistent (s : Store) : Prop :=
  ∀ i c, find_by_id s i = Some c → item_count c = total_item_count s i.

(** The nodes of a tree, a node before its subtrees. *)
Fixpoint nodes_of (node : TreeNode) : list TreeNode :=
  node :: concat (map nodes_of (node_children node)).

Definition all_nodes (tree : list TreeNode) : list TreeNode :=
  concat (map nodes_of tree).

(** * Further properties *)

#[local] Arguments parent_of : simpl never.

(** ** When a collection can be moved *)

Lemma has_cycle_loop_false fuel : ∀ s self_id current_id visited,
  has_cycle_loop fuel s self_id current_id visited = Some false →
  ∃ n, ¬ live (walk s current_id n) ∧
       (∀ k, (k < n)%nat → live (walk s current_id k)) ∧
       (∀ k, (k < n)%nat → walk s current_id k ≠ self_id).
Proof.
  induction fuel as [|fuel IH]; intros s self_id current_id visited Hloop;
    [done|].
  simpl in Hloop. destruct current_id as [cur|].
  - destruct (truthy cur) eqn:Hcur.
    + destruct (decide (cur ∈ visited)) as [|_]; [done|].
      destruct (decide (Some cur = self_id)) as [|Hself]; [done|].
      destruct (IH _ _ _ _ Hloop) as (n & Hdead & Hlive & Hne).
      exists (S n). split; [exact Hdead|]. split.
      * intros [|k] Hk; [exact Hcur|]. apply Hlive. lia.
      * intros [|k] Hk; [exact Hself|]. apply Hne. lia.
    + exists 0%nat. split; [|split; intros k Hk; lia].
      unfold live. simpl. by rewrite Hcur.
  - exists 0%nat. split; [|split; intros k Hk; lia]. by unfold live.
Qed.

Lemma can_be_moved_to_walk (s : Store) (cid p : Z) :
  can_be_moved_to s (Some cid) (Some p) = true
  ↔ p ≠ cid ∧
    ∃ n, ¬ live (walk s (Some p) n) ∧
         (∀ k, (k < n)%nat → live (walk s (Some p) k)) ∧
         (∀ k, (k < n)%nat → walk s (Some p) k ≠ Some cid).
Proof.
  unfold can_be_moved_to.
  destruct (decide (Some p = Some cid)) as [[= ->]|Hne].
  { split; [done|]. by intros [? _]. }
  assert (Hp : p ≠ cid) by congruence.
  rewrite negb_true_iff. split.
  - intros Hfalse. split; [done|].
    apply (has_cycle_loop_false (cycle_fuel s) s (Some cid) (Some p) ∅).
    by rewrite has_cycle_with_parent_loop, Hfalse.
  - intros (_ & n & Hdead & Hlive & Hself).
    by apply (has_cycle_with_parent_null s (Some cid) p n).
Qed.

(** X1. A collection that has an id can be moved under [p] exactly when
    [p] is not the collection itself and the walk up the parent chain from
    [p] comes to a null parent ([None], or [0]) without meeting the
    collection; to no parent it can always be moved. *)
Theorem can_be_moved_to_iff (s : Store) (cid p : Z) :
  can_be_moved_to s (Some cid) None = true ∧
  (can_be_moved_to s (Some cid) (Some p) = true
   ↔ p ≠ cid ∧
     ∃ n, ¬ live (walk s (Some p) n) ∧
          (∀ k, (k < n)%nat → live (walk s (Some p) k)) ∧
          (∀ k, (k < n)%nat → walk s (Some p) k ≠ Some cid)).
Proof. split; [done|apply can_be_moved_to_walk]. Qed.

(** ** [update_collection] keeps the forest a forest *)

Lemma parent_of_with_row_ne s cid r x :
  x ≠ cid → parent_of (with_row cid r s) (Some x) = parent_of s (Some x).
Proof.
  intros Hx. unfold parent_of. simpl. by rewrite find_by_id_with_row_ne.
Qed.

Lemma parent_of_with_row_same s cid c r o :
  find_by_id s cid = Some c → parent_id r = parent_id c →
  parent_of (with_row cid r s) o = parent_of s o.
Proof.
  intros Hrow Hparent. destruct o as [x|]; [|done].
  destruct (decide (x = cid)) as [->|Hx]; [|by apply parent_of_with_row_ne].
  unfold parent_of. simpl. by rewrite find_by_id_with_row, Hrow.
Qed.

Lemma walk_ext s s' o n :
  (∀ o', parent_of s' o' = parent_of s o') → walk s' o n = walk s o n.
Proof.
  intros Hext. revert o. induction n as [|n IH]; intros o; [done|].
  simpl. by rewrite Hext, IH.
Qed.

(** As long as a walk does not come to [cid], the row of [cid] plays no
    part in it. *)
Lemma walk_with_row_avoid s cid r n : ∀ o,
  (∀ k, (k < n)%nat → walk s o k ≠ Some cid) →
  walk (with_row cid r s) o n = walk s o n.
Proof.
  induction n as [|n IH]; intros o Havoid; [done|].
  simpl. destruct o as [x|]; [|by rewrite !walk_None].
  assert (Hx : x ≠ cid).
  { intros ->. by apply (Havoid 0%nat (Nat.lt_0_succ _)). }
  rewrite parent_of_with_row_ne by done. apply IH.
  intros k Hk. apply (Havoid (S k)). lia.
Qed.

Lemma grounded_step s i p :
  parent_of s (Some i) = Some p → grounded s p → grounded s i.
Proof.
  intros Hp [n Hn]. exists (S n).
  change (walk s (parent_of s (Some i)) n = None). by rewrite Hp.
Qed.

(** Once the moved collection is grounded in the new store, every id that
    was grounded is. *)
Lemma grounded_with_row s cid r :
  grounded (with_row cid r s) cid →
  ∀ m o, walk s o m = None → ∃ n, walk (with_row cid r s) o n = None.
Proof.
  intros Hcid. induction m as [|m IH]; intros o Hm.
  - exists 0%nat. exact Hm.
  - destruct o as [x|]; [|by exists 0%nat].
    destruct (decide (x = cid)) as [->|Hx]; [exact Hcid|].
    destruct (IH (parent_of s (Some x)) Hm) as [n Hn].
    exists (S n). simpl. by rewrite parent_of_with_row_ne.
Qed.

(** The row [update_collection] returns: the parent and the slug it has. *)
Lemma update_collection_row s cid n sl d p o cb r s' :
  run (update_collection cid n sl d p o cb) s = (Return r, s') →
  ∃ c, find_by_id s cid = Some c ∧ s' = with_row cid r s ∧
       parent_conflict s cid c p = false ∧
       parent_id r = from_option Some (parent_id c) p ∧
       match sl with
       | None => slug r = slug c
       | Some v => validate_slug v = Return (slug r)
       end ∧
       item_count r = item_count c ∧
       flush_error s (with_row cid r s) = None.
Proof.
  intros (c & c1 & c2 & c3 & c4 & c5 & Hrow & _ & Hparent & H1 & H2 & H3 & H4
          & H5 & H6 & Hflush & ->)%update_collection_success.
  exists c. split; [done|]. split; [done|]. split; [done|].
  pose proof (λ F (f : SpCollection → F) Hf,
              supplied_frame n id validate_name with_name f c c1 Hf H1) as F1.
  pose proof (λ F (f : SpCollection → F) Hf,
              supplied_frame sl id validate_slug with_slug f c1 c2 Hf H2) as F2.
  pose proof (λ F (f : SpCollection → F) Hf,
              supplied_frame d Some validate_description with_description
                f c2 c3 Hf H3) as F3.
  pose proof (λ F (f : SpCollection → F) Hf,
              supplied_frame p Some (validate_parent_id (Some cid))
                with_parent_id f c3 c4 Hf H4) as F4.
  pose proof (λ F (f : SpCollection → F) Hf,
              supplied_frame o id (@Return bool) with_is_official f c4 c5 Hf H5)
    as F5.
  pose proof (λ F (f : SpCollection → F) Hf,
              supplied_frame cb (λ u, Some (user_id u)) (@Return (option Z))
                with_changed_by_fk f c5 r Hf H6) as F6.
  split; [|split; [|split; [|done]]].
  - rewrite (F6 _ parent_id), (F5 _ parent_id) by done.
    rewrite <- (F1 _ parent_id), <- (F2 _ parent_id), <- (F3 _ parent_id) by done.
    pose proof (supplied_field p Some (validate_parent_id (Some cid))
                  with_parent_id parent_id c3 c4 (λ _ _, eq_refl) H4) as Hp.
    destruct p as [v|]; [|done]. simpl. unfold validate_parent_id in Hp.
    destruct (decide (v = cid)); [done|]. by injection Hp as <-.
  - rewrite (F6 _ slug), (F5 _ slug), (F4 _ slug), (F3 _ slug) by done.
    rewrite <- (F1 _ slug) by done.
    by apply (supplied_field sl id validate_slug with_slug slug c1 c2).
  - by rewrite (F6 _ item_count), (F5 _ item_count), (F4 _ item_count),
      (F3 _ item_count), (F2 _ item_count), (F1 _ item_count).
Qed.

Lemma not_live_zero s o :
  find_by_id s 0 = None → ¬ live o → parent_of s o = None.
Proof.
  intros Hzero Hdead. destruct o as [x|]; [|done].
  unfold live, opt_truthy, truthy in Hdead.
  destruct (Z.eqb_spec x 0) as [->|]; [|done].
  unfold parent_of. simpl. by rewrite Hzero.
Qed.

(** X2. In a store without a row of id 0 whose parent chains all come to
    an end, the store a successful [update_collection] leaves is such a
    store again: no update that goes through closes a cycle. *)
Theorem update_collection_keeps_acyclic (s s' : Store) (cid : Z)
    (n sl d : option string) (p : option Z) (o : option bool)
    (cb : option User) (r : SpCollection) :
  find_by_id s 0 = None →
  acyclic s →
  run (update_collection cid n sl d p o cb) s = (Return r, s') →
  find_by_id s' 0 = None ∧ acyclic s'.
Proof.
  intros Hzero Hacyclic
    (c & Hrow & -> & Hconflict & Hparent & _)%update_collection_row.
  assert (Hcid : cid ≠ 0) by (intros ->; congruence).
  split; [by rewrite find_by_id_with_row_ne|].
  destruct (decide (parent_id r = parent_id c)) as [Hsame|Hchanged].
  { intros i. destruct (Hacyclic i) as [m Hm]. exists m.
    rewrite (walk_ext s); [done|]. intros o'.
    by apply (parent_of_with_row_same s cid c). }
  destruct p as [q|]; [|done]. simpl in Hparent.
  assert (Hq : grounded (with_row cid r s) q).
  { unfold parent_conflict in Hconflict.
    rewrite bool_decide_eq_true_2 in Hconflict by congruence.
    simpl in Hconflict. destruct (truthy q) eqn:Htruthy.
    - simpl in Hconflict. apply negb_false_iff in Hconflict.
      apply can_be_moved_to_walk in Hconflict
        as (_ & m & Hdead & _ & Havoid).
      exists (S m). rewrite walk_S_r.
      rewrite walk_with_row_avoid by done.
      apply not_live_zero; [by rewrite find_by_id_with_row_ne|done].
    - exists 1%nat. simpl. apply not_live_zero.
      + by rewrite find_by_id_with_row_ne.
      + unfold live. simpl. by rewrite Htruthy. }
  assert (Hc : grounded (with_row cid r s) cid).
  { apply (grounded_step _ cid q); [|done].
    unfold parent_of. simpl. by rewrite find_by_id_with_row. }
  intros i. destruct (Hacyclic i) as [m Hm].
  by apply (grounded_with_row s cid r Hc m).
Qed.

(** A check that decides [acyclic] on a given store: [n] steps up from
    every row come to the end. *)
Lemma acyclic_check (s : Store) (n : nat) :
  map_Forall (λ i _, walk s (Some i) n = None) (sp_collection s) → acyclic s.
Proof.
  intros Hall i. destruct (find_by_id s i) as [c|] eqn:Hi.
  - exists n. by apply (Hall i c).
  - exists 1%nat. simpl. unfold parent_of. simpl. by rewrite Hi.
Qed.

Lemma update_collection_keeps_acyclic_witness :
  ∃ r s', run (update_collection 3 None None None (Some 1) None None) line3
          = (Return r, s') ∧ acyclic s'.
Proof.
  pose (r := example_row "three" "three" (Some 1)).
  assert (H : run (update_collection 3 None None None (Some 1) None None) line3
              = (Return r, with_row 3 r line3)) by (by vm_compute).
  exists r, (with_row 3 r line3). split; [exact H|].
  refine (proj2 (update_collection_keeps_acyclic _ _ _ _ _ _ _ _ _ _ _ _ H)).
  - by vm_compute.
  - apply (acyclic_check line3 4). apply (bool_decide_unpack _). by vm_compute.
Defined.

(** ** [update_collection] keeps the slugs apart *)

Lemma uq_slug_preserved (old new : gmap Z SpCollection) :
  (∀ i j c c', old !! i = Some c → old !! j = Some c' → slug c = slug c' → i = j) →
  ¬ uq_slug_violated old new →
  ∀ i j c c', new !! i = Some c → new !! j = Some c' → slug c = slug c' → i = j.
Proof.
  intros Hold Hok i j c c' Hi Hj Hslug.
  destruct (decide (i = j)) as [|Hne]; [done|]. exfalso.
  assert (Hkept : ∀ a b x y, new !! a = Some x → new !! b = Some y → a ≠ b →
            slug x = slug y → slug <$> old !! a = Some (slug x)).
  { intros a b x y Ha Hb Hab Hxy.
    destruct (decide (slug <$> old !! a = Some (slug x))) as [|Hchanged];
      [done|].
    destruct Hok. apply map_Exists_lookup. exists a, x.
    split; [done|]. split; [done|].
    apply map_Exists_lookup. exists b, y. by repeat split. }
  pose proof (Hkept i j c c' Hi Hj Hne Hslug) as Hoi.
  pose proof (Hkept j i c' c Hj Hi (not_eq_sym Hne) (eq_sym Hslug)) as Hoj.
  destruct (old !! i) as [ci|] eqn:Hci; [|done].
  destruct (old !! j) as [cj|] eqn:Hcj; [|done].
  simpl in Hoi, Hoj. apply Hne, (Hold i j ci cj); congruence.
Qed.

Lemma flush_error_None_slug old new :
  flush_error old new = None →
  ¬ uq_slug_violated (sp_collection old) (sp_collection new).
Proof.
  unfold flush_error. intros H Hviolated. by rewrite decide_True in H.
Qed.

(** X3. When no two collections have the same slug, none have after a
    successful [update_collection], whatever slug the call supplied and
    however the validator normalised it: the store's unique constraint
    catches what the check on the raw slug lets through. *)
Theorem update_collection_keeps_slugs_unique (s s' : Store) (cid : Z)
    (n sl d : option string) (p : option Z) (o : option bool)
    (cb : option User) (r : SpCollection) :
  slugs_unique s →
  run (update_collection cid n sl d p o cb) s = (Return r, s') →
  slugs_unique s'.
Proof.
  intros Hunique (c & _ & -> & _ & _ & _ & _ & Hflush)%update_collection_row.
  unfold slugs_unique, find_by_id.
  apply (uq_slug_preserved (sp_collection s)); [exact Hunique|].
  by apply flush_error_None_slug.
Qed.

(** A check that decides [slugs_unique] on a given store. *)
Lemma slugs_unique_check (s : Store) :
  map_Forall (λ i c, map_Forall (λ j c', slug c = slug c' → i = j)
                       (sp_collection s)) (sp_collection s) →
  slugs_unique s.
Proof. intros Hall i j c c' Hi Hj. by apply (Hall i c Hi j c' Hj). Qed.

Lemma update_collection_keeps_slugs_unique_witness :
  ∃ r s', run (update_collection 3 None (Some " Tree ") None None None None)
            line3 = (Return r, s') ∧ slugs_unique s'.
Proof.
  pose (r := example_row "three" "tree" (Some 2)).
  assert (H : run (update_collection 3 None (Some " Tree ") None None None None)
                line3 = (Return r, with_row 3 r line3)) by (by vm_compute).
  exists r, (with_row 3 r line3). split; [exact H|].
  refine (update_collection_keeps_slugs_unique _ _ _ _ _ _ _ _ _ _ _ H).
  apply slugs_unique_check. apply (bool_decide_unpack _). by vm_compute.
Defined.

(** ** A failed [update_collection] *)

Lemma validate_name_raises v e : validate_name v = Raise e → e = ValueError.
Proof.
  unfold validate_name.
  destruct (negb (str_truthy v) || negb (str_truthy (strip v))); [congruence|].
  simpl. destruct (255 <? _); congruence.
Qed.

Lemma validate_slug_raises v e : validate_slug v = Raise e → e = ValueError.
Proof.
  unfold validate_slug.
  destruct (negb (str_truthy v) || negb (str_truthy (strip v))); [congruence|].
  simpl. destruct (negb _); [congruence|]. destruct (255 <? _); congruence.
Qed.

Lemma validate_description_raises v e :
  validate_description v = Raise e → e = ValueError.
Proof.
  unfold validate_description. destruct v as [text|]; [|done].
  destruct (str_truthy text && _); congruence.
Qed.




(** ** [delete_collection], whatever the store *)

(** X5. [delete_collection] is all or nothing on every store. Without a
    row it returns [False]; when the parent of the collection is the
    collection itself or one of its children it raises the [ValueError]
    of [validate_parent_id]; when the collection has children and a
    parent id that no row has, it raises the [IntegrityError] of the
    foreign key on [parent_id]; all three times the store is as it was,
    also when children were re-parented before the error. Otherwise it
    returns [True], and then the row is gone. *)
Theorem delete_collection_all_or_nothing (s s' : Store) (cid : Z)
    (res : outcome bool) :
  run (delete_collection cid) s = (res, s') →
  (res = Return false ∧ find_by_id s cid = None ∧ s' = s) ∨
  (res = Raise ValueError ∧ s' = s ∧
   ∃ c, find_by_id s cid = Some c ∧ parent_is_child s cid c) ∨
  (∃ k, res = Raise (IntegrityError k) ∧ s' = s ∧
   ∃ c, find_by_id s cid = Some c ∧ parent_missing s cid c) ∨
  (res = Return true ∧ is_Some (find_by_id s cid) ∧ find_by_id s' cid = None).
Proof.
  intros Hrun. destruct (find_by_id s cid) as [c|] eqn:Hrow.
  - destruct (parent_is_child_dec s cid c) as [Hchild|Hok].
    + rewrite (delete_collection_trips s cid c Hrow Hchild) in Hrun.
      injection Hrun as <- <-. right. left. by eauto.
    + destruct (parent_missing_dec s cid c) as [Hmissing|Hfk].
      * destruct (delete_collection_dangling s cid c Hrow Hok Hmissing)
          as [k Hrun'].
        rewrite Hrun' in Hrun. injection Hrun as <- <-. right. right. left.
        exists k. by eauto.
      * destruct (delete_collection_found s cid c Hrow Hok Hfk)
          as (s'' & Hrun' & Hs'' & _).
        rewrite Hrun' in Hrun. injection Hrun as <- <-. do 3 right.
        split; [done|]. split; [by eexists|].
        rewrite Hs''. by rewrite decide_True.
  - left. revert Hrun. enter_dao delete_collection. rewrite Hrow.
    by intros [= <- <-].
Qed.

(** Collection 2 under a parent id that no row has, and collection 3
    under collection 2. *)
Definition orphaned : Store :=
  store_of (<[2 := example_row "two" "two" (Some 9)]>
           (<[3 := example_row "three" "three" (Some 2)]> ∅)).

Lemma delete_collection_all_or_nothing_witness :
  run (delete_collection 1) ring2 = (Raise ValueError, ring2) ∧
  run (delete_collection 9) ring2 = (Return false, ring2) ∧
  (run (delete_collection 2) orphaned).2 = orphaned ∧
  ∃ s', run (delete_collection 2) line3 = (Return true, s') ∧
        find_by_id s' 2 = None.
Proof.
  split; [|split; [|split]].
  - destruct (run (delete_collection 1) ring2) as [res s'] eqn:H.
    assert (H' : run (delete_collection 1) ring2 = (Raise ValueError, ring2))
      by (by vm_compute).
    destruct (delete_collection_all_or_nothing _ _ _ _ H)
      as [(_ & Hnone & _)|[(-> & -> & _)|[(k & Hk & _)|(Hres & _)]]];
      [by vm_compute in Hnone|done|..];
      rewrite H' in H; injection H as <- <-; congruence.
  - destruct (run (delete_collection 9) ring2) as [res s'] eqn:H.
    destruct (delete_collection_all_or_nothing _ _ _ _ H)
      as [(-> & _ & ->)|[(_ & _ & c & Hc & _)|[(k & _ & _ & c & Hc & _)
          |(_ & [c Hc] & _)]]]; [done|by vm_compute in Hc..].
  - destruct (run (delete_collection 2) orphaned) as [res s'] eqn:H.
    assert (H' : (run (delete_collection 2) orphaned).1
                 = Raise (IntegrityError (fk_parent_id false)))
      by (by vm_compute).
    rewrite H in H'. simpl in H'. subst res.
    by destruct (delete_collection_all_or_nothing _ _ _ _ H)
      as [(? & _)|[(? & _)|[(k & _ & -> & _)|(? & _)]]].
  - destruct (run (delete_collection 2) line3) as [res s'] eqn:H.
    assert (H' : (run (delete_collection 2) line3).1 = Return true)
      by (by vm_compute).
    rewrite H in H'. simpl in H'. subst res. exists s'. split; [done|].
    by destruct (delete_collection_all_or_nothing _ _ _ _ H)
      as [(? & _)|[(? & _)|[(k & ? & _)|(_ & _ & ?)]]].
Defined.

(** ** What [delete_collection] keeps *)

Lemma delete_collection_done s s' cid :
  run (delete_collection cid) s = (Return true, s') →
  ∃ c, find_by_id s cid = Some c ∧
    (∀ j, find_by_id s' j =
          if decide (j = cid) then None
          else match find_by_id s j with
               | Some r => if decide (parent_id r = Some cid)
                           then Some (with_parent_id (parent_id c) r)
                           else Some r
               | None => None
               end) ∧
    (∀ t, link_table t s'
          = filter (λ l, link_collection_id l ≠ cid) (link_table t s)).
Proof.
  intros Hrun. destruct (find_by_id s cid) as [c|] eqn:Hrow.
  - destruct (parent_is_child_dec s cid c) as [Hchild|Hok].
    + by rewrite (delete_collection_trips s cid c Hrow Hchild) in Hrun.
    + destruct (parent_missing_dec s cid c) as [Hmissing|Hfk].
      * destruct (delete_collection_dangling s cid c Hrow Hok Hmissing)
          as [k Hrun'].
        by rewrite Hrun' in Hrun.
      * destruct (delete_collection_found s cid c Hrow Hok Hfk)
          as (s'' & Hrun' & Hs'' & Hlinks).
        rewrite Hrun' in Hrun. injection Hrun as <-. by exists c.
  - revert Hrun. enter_dao delete_collection. by rewrite Hrow.
Qed.

Lemma links_of_filter_other (j cid : Z) (l : list Link) :
  j ≠ cid →
  links_of j (filter (λ x, link_collection_id x ≠ cid) l) = links_of j l.
Proof.
  intros Hne. unfold links_of. rewrite list_filter_filter.
  apply list_filter_iff. intros x. split; [tauto|]. intros Hx.
  split; [done|]. congruence.
Qed.

Lemma total_item_count_links s s' j cid :
  j ≠ cid →
  (∀ t, link_table t s'
        = filter (λ l, link_collection_id l ≠ cid) (link_table t s)) →
  total_item_count s' j = total_item_count s j.
Proof.
  intros Hne Hlinks. unfold total_item_count.
  pose proof (Hlinks DASHBOARD) as Hd. pose proof (Hlinks CHART) as Hc.
  pose proof (Hlinks DATASET) as Ht. simpl in Hd, Hc, Ht.
  by rewrite Hd, Hc, Ht, !links_of_filter_other.
Qed.

(** X6. A [delete_collection] that returns [True] takes the link rows of
    the collection with it and no others, so that the number of links of
    every other collection is what it was; and it keeps what the store
    kept: parent chains that come to an end, slugs that differ, and
    counters that are the number of links. *)
Theorem delete_collection_keeps (s s' : Store) (cid : Z) :
  run (delete_collection cid) s = (Return true, s') →
  (∀ t, link_table t s'
        = filter (λ l, link_collection_id l ≠ cid) (link_table t s)) ∧
  total_item_count s' cid = 0 ∧
  (∀ j, j ≠ cid → total_item_count s' j = total_item_count s j) ∧
  (acyclic s → acyclic s') ∧
  (slugs_unique s → slugs_unique s') ∧
  (counts_consistent s → counts_consistent s').
Proof.
  intros (c & Hrow & Hs' & Hlinks)%delete_collection_done.
  split; [exact Hlinks|]. split; [|split; [|split; [|split]]].
  - unfold total_item_count.
    pose proof (Hlinks DASHBOARD) as Hd. pose proof (Hlinks CHART) as Hc.
    pose proof (Hlinks DATASET) as Ht. simpl in Hd, Hc, Ht.
    rewrite Hd, Hc, Ht. unfold links_of. rewrite !list_filter_filter.
    assert (Hnil : ∀ l : list Link,
              filter (λ x, link_collection_id x = cid ∧ link_collection_id x ≠ cid)
                l = []).
    { intros l. induction l as [|x l IH]; [done|].
      rewrite filter_cons_False; [done|]. tauto. }
    by rewrite !Hnil.
  - intros j Hj. by apply (total_item_count_links s s' j cid).
  - intros Hacyclic i. destruct (Hacyclic i) as [m Hm]. unfold grounded.
    revert Hm. generalize (Some i). clear i.
    induction m as [m IH] using lt_wf_ind. intros o Hm.
    destruct o as [x|]; [|by exists 0%nat].
    assert (Hstep : ∀ q, parent_of s' (Some x) = q →
              (∃ n, walk s' q n = None) → ∃ n, walk s' (Some x) n = None).
    { intros q <- [n Hn]. by exists (S n). }
    destruct m as [|m]; [done|]. simpl in Hm.
    unfold parent_of in Hstep. simpl in Hstep.
    unfold parent_of in Hm. simpl in Hm.
    rewrite Hs' in Hstep. destruct (decide (x = cid)) as [->|Hx].
    { apply (Hstep None eq_refl). by exists 0%nat. }
    destruct (find_by_id s x) as [r|] eqn:Hr.
    2: { apply (Hstep None eq_refl). by exists 0%nat. }
    simpl in Hm. destruct (decide (parent_id r = Some cid)) as [Hc|Hc].
    + apply (Hstep (parent_id c) eq_refl).
      rewrite Hc in Hm. destruct m as [|m]; [done|]. simpl in Hm.
      unfold parent_of in Hm. simpl in Hm. rewrite Hrow in Hm. simpl in Hm.
      apply (IH m); [lia|exact Hm].
    + apply (Hstep (parent_id r) eq_refl). apply (IH m); [lia|exact Hm].
  - intros Hunique i j ri rj Hi Hj Hslug. rewrite Hs' in Hi, Hj.
    destruct (decide (i = cid)); [done|]. destruct (decide (j = cid)); [done|].
    destruct (find_by_id s i) as [ri0|] eqn:Hi0; [|done].
    destruct (find_by_id s j) as [rj0|] eqn:Hj0; [|done].
    apply (Hunique i j ri0 rj0); [done|done|].
    destruct (decide (parent_id ri0 = Some cid)),
      (decide (parent_id rj0 = Some cid));
      injection Hi as <-; injection Hj as <-; exact Hslug.
  - intros Hcounts j rj Hj. pose proof (Hs' j) as Hj'. rewrite Hj in Hj'.
    destruct (decide (j = cid)) as [|Hne]; [done|].
    rewrite (total_item_count_links s s' j cid Hne Hlinks).
    destruct (find_by_id s j) as [r0|] eqn:Hj0; [|done].
    rewrite <- (Hcounts j r0 Hj0).
    destruct (decide (parent_id r0 = Some cid)); by injection Hj' as ->.
Qed.

Lemma delete_collection_keeps_witness :
  ∃ s', run (delete_collection 2) line3 = (Return true, s') ∧
        slugs_unique s' ∧ acyclic s'.
Proof.
  destruct (run (delete_collection 2) line3) as [res s'] eqn:H.
  assert (res = Return true) as ->.
  { assert (H' : (run (delete_collection 2) line3).1 = Return true)
      by (by vm_compute).
    by rewrite H in H'. }
  exists s'. split; [done|].
  destruct (delete_collection_keeps _ _ _ H) as (_ & _ & _ & Ha & Hs & _).
  split.
  - apply Hs, slugs_unique_check, (bool_decide_unpack _). by vm_compute.
  - apply Ha, (acyclic_check line3 4), (bool_decide_unpack _). by vm_compute.
Defined.

(** ** The counter and the links *)

(** The store [remove_item_from_collection] leaves when the link is
    there. *)
Definition removed (s : Store) (cid : Z) (c : SpCollection)
    (t : CollectionItemType) (iid : Z) : Store :=
  with_row cid (with_item_count (Z.max 0 (item_count c - 1)) c)
    (set_link_table t (delete_first cid iid (link_table t s)) s).

Lemma add_item_inv s s' cid t iid u now b :
  run (add_item_to_collection cid t iid u now) s = (Return b, s') →
  ∃ c, find_by_id s cid = Some c ∧
       item_exists_in_collection s cid t iid = false ∧
       b = true ∧ s' = added s cid c t iid u now ∧
       in_catalogue s t iid = true.
Proof.
  intros Hrun. destruct (find_by_id s cid) as [c|] eqn:Hrow.
  - destruct (item_exists_in_collection s cid t iid) eqn:Hex.
    + by rewrite (add_item_again s cid c) in Hrun.
    + rewrite (add_item_commit s cid c) in Hrun by done.
      destruct (in_catalogue s t iid); [|done].
      injection Hrun as <- <-. by exists c.
  - revert Hrun. enter_dao add_item_to_collection. by rewrite Hrow.
Qed.

Lemma delete_first_app cid iid l1 x l2 :
  Forall (λ l, ¬ link_matches cid iid l) l1 → link_matches cid iid x →
  delete_first cid iid (l1 ++ x :: l2) = l1 ++ l2.
Proof.
  intros Hl1 Hx. induction Hl1 as [|y l1 Hy _ IH]; simpl.
  - by rewrite decide_True.
  - by rewrite decide_False, IH.
Qed.

Lemma remove_item_run s cid c t iid :
  find_by_id s cid = Some c →
  Exists (link_matches cid iid) (link_table t s) →
  run (remove_item_from_collection cid t iid) s
  = (Return true, removed s cid c t iid).
Proof.
  intros Hrow Hfound.
  destruct (remove_item_found s cid c t iid Hrow Hfound)
    as (l1 & x & l2 & Htable & Hx & Hl1 & Hrun).
  rewrite Hrun. unfold removed. by rewrite Htable, delete_first_app.
Qed.

Lemma remove_item_inv s s' cid t iid b :
  run (remove_item_from_collection cid t iid) s = (Return b, s') →
  ∃ c, find_by_id s cid = Some c ∧
       Exists (link_matches cid iid) (link_table t s) ∧
       b = true ∧ s' = removed s cid c t iid.
Proof.
  intros Hrun. destruct (find_by_id s cid) as [c|] eqn:Hrow.
  - destruct (decide (Exists (link_matches cid iid) (link_table t s)))
      as [Hfound|Hmissing].
    + rewrite (remove_item_run s cid c) in Hrun by done.
      injection Hrun as <- <-. by exists c.
    + apply Forall_Exists_neg in Hmissing.
      by rewrite (remove_item_missing s cid c) in Hrun.
  - revert Hrun. enter_dao remove_item_from_collection. by rewrite Hrow.
Qed.

Lemma length_links_of_app j l x :
  length (links_of j (l ++ [x]))
  = (length (links_of j l)
     + if decide (link_collection_id x = j) then 1 else 0)%nat.
Proof.
  unfold links_of. rewrite filter_app, length_app, filter_cons, filter_nil.
  by destruct (decide (link_collection_id x = j)).
Qed.

Lemma length_links_of_delete_first j cid iid l :
  Exists (link_matches cid iid) l →
  length (links_of j l)
  = (length (links_of j (delete_first cid iid l))
     + if decide (cid = j) then 1 else 0)%nat.
Proof.
  intros (l1 & x & l2 & -> & [Hc Hi] & Hl1 & _ & Hdel)%head_filter_Some.
  rewrite Hdel. unfold links_of.
  rewrite !filter_app, !length_app, filter_cons.
  destruct (decide (cid = j)) as [<-|Hne].
  - rewrite decide_True by done. simpl. lia.
  - rewrite decide_False by congruence. lia.
Qed.

Lemma total_item_count_added s cid c t iid u now j :
  total_item_count (added s cid c t iid u now) j
  = total_item_count s j + if decide (cid = j) then 1 else 0.
Proof.
  unfold total_item_count, added.
  pose proof (length_links_of_app j (link_table t s)
                (mkLink cid iid (user_id <$> u) now)) as Happ.
  simpl in Happ.
  destruct t; simpl in *; destruct (decide (cid = j)); lia.
Qed.

Lemma total_item_count_removed s cid c t iid j :
  Exists (link_matches cid iid) (link_table t s) →
  total_item_count s j
  = total_item_count (removed s cid c t iid) j
    + if decide (cid = j) then 1 else 0.
Proof.
  intros Hfound. unfold total_item_count, removed.
  pose proof (length_links_of_delete_first j cid iid _ Hfound) as Hdel.
  destruct t; simpl in *; destruct (decide (cid = j)); lia.
Qed.

(** X7. Where every counter is the number of link rows of its
    collection, it still is after an [add_item_to_collection] and after a
    [remove_item_from_collection] that returned: the two keep the cached
    [item_count] in step with the links, and on such a store the floor at
    0 of the decrement never comes into play. *)
Theorem item_count_stays_consistent :
  (∀ (s s' : Store) (cid : Z) (t : CollectionItemType) (iid : Z)
     (u : option User) (now : Z) (b : bool),
     counts_consistent s →
     run (add_item_to_collection cid t iid u now) s = (Return b, s') →
     counts_consistent s') ∧
  (∀ (s s' : Store) (cid : Z) (t : CollectionItemType) (iid : Z) (b : bool),
     counts_consistent s →
     run (remove_item_from_collection cid t iid) s = (Return b, s') →
     counts_consistent s' ∧
     ∃ c c', find_by_id s cid = Some c ∧ find_by_id s' cid = Some c' ∧
             item_count c' = item_count c - 1).
Proof.
  split.
  - intros s s' cid t iid u now b Hcounts
      (c & Hrow & _ & _ & -> & _)%add_item_inv j r Hj.
    rewrite total_item_count_added. unfold added in Hj.
    destruct (decide (cid = j)) as [<-|Hne].
    + rewrite find_by_id_with_row in Hj. injection Hj as <-. simpl.
      by rewrite (Hcounts cid c Hrow).
    + rewrite find_by_id_with_row_ne, find_by_id_set_link_table in Hj by done.
      rewrite (Hcounts j r Hj). lia.
  - intros s s' cid t iid b Hcounts (c & Hrow & Hfound & _ & ->)%remove_item_inv.
    pose proof (total_item_count_removed s cid c t iid cid Hfound) as Hcid.
    rewrite decide_True in Hcid by done.
    assert (Hpos : 0 ≤ total_item_count (removed s cid c t iid) cid).
    { unfold total_item_count. lia. }
    split.
    + intros j r Hj. unfold removed in Hj.
      destruct (decide (cid = j)) as [<-|Hne].
      * rewrite find_by_id_with_row in Hj. injection Hj as <-. simpl.
        rewrite (Hcounts cid c Hrow). lia.
      * rewrite find_by_id_with_row_ne, find_by_id_set_link_table in Hj by done.
        pose proof (total_item_count_removed s cid c t iid j Hfound) as Hj'.
        rewrite decide_False in Hj' by done.
        rewrite (Hcounts j r Hj). lia.
    + exists c, (with_item_count (Z.max 0 (item_count c - 1)) c).
      split; [done|]. split; [apply find_by_id_with_row|]. simpl.
      rewrite (Hcounts cid c Hrow). lia.
Qed.

(** A check that decides [counts_consistent] on a given store. *)
Lemma counts_consistent_check (s : Store) :
  map_Forall (λ i c, item_count c = total_item_count s i) (sp_collection s) →
  counts_consistent s.
Proof. intros Hall i c Hi. by apply (Hall i c). Qed.

Lemma item_count_stays_consistent_witness :
  ∃ s1 s2, run (add_item_to_collection 5 CHART 8 None 3) stocked = (Return true, s1) ∧
           counts_consistent s1 ∧
           run (remove_item_from_collection 5 CHART 8) s1 = (Return true, s2) ∧
           counts_consistent s2.
Proof.
  assert (Hstore : counts_consistent stocked).
  { apply counts_consistent_check, (bool_decide_unpack _). by vm_compute. }
  destruct (run (add_item_to_collection 5 CHART 8 None 3) stocked)
    as [res1 s1] eqn:H1.
  assert (res1 = Return true) as ->.
  { assert (H' : (run (add_item_to_collection 5 CHART 8 None 3) stocked).1
                 = Return true) by (by vm_compute).
    by rewrite H1 in H'. }
  pose proof (proj1 item_count_stays_consistent _ _ _ _ _ _ _ _ Hstore H1) as Hs1.
  destruct (run (remove_item_from_collection 5 CHART 8) s1) as [res2 s2] eqn:H2.
  assert (res2 = Return true) as ->.
  { assert (Hs : s1 = added stocked 5 (example_row "five" "five" None) CHART 8
                       None 3).
    { assert (H' : (run (add_item_to_collection 5 CHART 8 None 3) stocked).2
                   = added stocked 5 (example_row "five" "five" None) CHART 8
                       None 3) by (by vm_compute).
      by rewrite H1 in H'. }
    subst s1.
    assert (H' : (run (remove_item_from_collection 5 CHART 8)
                    (added stocked 5 (example_row "five" "five" None) CHART 8
                       None 3)).1 = Return true) by (by vm_compute).
    by rewrite H2 in H'. }
  exists s1, s2. split; [done|]. split; [done|]. split; [done|].
  exact (proj1 (proj2 item_count_stays_consistent _ _ _ _ _ _ Hs1 H2)).
Defined.

(** ** Adding and removing an item, adding and listing it *)

Lemma with_item_count_back (c : SpCollection) :
  0 ≤ item_count c →
  with_item_count (Z.max 0 (item_count c + 1 - 1))
    (with_item_count (item_count c + 1) c) = c.
Proof.
  intros Hpos. destruct c. unfold with_item_count. simpl in *.
  f_equal. lia.
Qed.

Lemma removed_added s cid c t iid u now :
  find_by_id s cid = Some c →
  item_exists_in_collection s cid t iid = false →
  0 ≤ item_count c →
  removed (added s cid c t iid u now) cid
    (with_item_count (item_count c + 1) c) t iid = s.
Proof.
  intros Hrow Hnew%item_exists_false Hpos.
  unfold removed, added. rewrite link_table_with_row, link_table_set_link_table.
  rewrite delete_first_app by done. rewrite app_nil_r.
  change (item_count (with_item_count (item_count c + 1) c))
    with (item_count c + 1).
  rewrite with_item_count_back by done.
  unfold with_row, set_collections, find_by_id in *.
  destruct s, t; simpl in *; rewrite insert_insert_eq, insert_id; done.
Qed.

(** X8. Adding an item of the catalogue to a collection it is not in,
    and removing it again, both go through, and leave the link tables,
    the catalogues and the other rows as they were, and the row of the
    collection with the counter and every other column but the audit
    column as it was, when the counter was not negative. *)
Theorem add_then_remove (s : Store) (cid : Z) (c : SpCollection)
    (t : CollectionItemType) (iid : Z) (u : option User) (now : Z) :
  find_by_id s cid = Some c →
  item_exists_in_collection s cid t iid = false →
  in_catalogue s t iid = true →
  0 ≤ item_count c →
  ∃ s1 s2 c2,
    run (add_item_to_collection cid t iid u now) s = (Return true, s1) ∧
    run (remove_item_from_collection cid t iid) s1 = (Return true, s2) ∧
    (∀ t', link_table t' s2 = link_table t' s) ∧
    find_by_id s2 cid = Some c2 ∧
    item_count c2 = item_count c ∧
    unaudited c2 = unaudited c ∧
    (∀ j, j ≠ cid → find_by_id s2 j = find_by_id s j) ∧
    (∀ t' i, in_catalogue s2 t' i = in_catalogue s t' i).
Proof.
  intros Hrow Hnew Hcat Hpos. exists (added s cid c t iid u now), s, c.
  split; [by apply add_item_new|]. split; [|by repeat split].
  rewrite (remove_item_run _ cid (with_item_count (item_count c + 1) c)).
  - by rewrite removed_added.
  - apply find_by_id_with_row.
  - unfold added. rewrite link_table_with_row, link_table_set_link_table.
    apply Exists_app. right. by left.
Qed.

Lemma add_then_remove_witness :
  ∃ s1 s2, run (add_item_to_collection 5 DATASET 3 None 1) stocked
           = (Return true, s1) ∧
           run (remove_item_from_collection 5 DATASET 3) s1
           = (Return true, s2) ∧
           sp_collection_dataset s2 = [] ∧
           item_count <$> find_by_id s2 5 = Some 0.
Proof.
  destruct (add_then_remove stocked 5 (example_row "five" "five" None)
              DATASET 3 None 1)
    as (s1 & s2 & c2 & Hadd & Hremove & Hlinks & Hrow & Hcount & _);
    [by vm_compute..|].
  exists s1, s2. split; [exact Hadd|]. split; [exact Hremove|].
  split; [exact (Hlinks DATASET)|]. by rewrite Hrow; simpl; rewrite Hcount.
Defined.






(** ** The tree: how deep it goes and when it is built *)

(** [d] steps up from [i] is a collection without parent, and every id on
    the way has a row. *)
Definition rooted (s : Store) (i : Z) (d : nat) : Prop :=
  walk s (Some i) (S d) = None ∧
  ∀ k, (k ≤ d)%nat → ∃ x c, walk s (Some i) k = Some x ∧ find_by_id s x = Some c.

(** The node shows the row of its collection. *)
Definition node_of_row (s : Store) (node : TreeNode) (c : SpCollection) : Prop :=
  node_uuid node = uuid c ∧ node_name node = name c ∧
  node_slug node = slug c ∧ node_description node = description c ∧
  node_is_official node = is_official c ∧
  node_item_count node = item_count c ∧
  node_total_item_count node = total_item_count s (node_id node).

Definition node_ok (s : Store) (d : nat) (node : TreeNode) : Prop :=
  ∃ d' c, (d ≤ d')%nat ∧ node_depth node = Z.of_nat d' ∧
          find_by_id s (node_id node) = Some c ∧
          rooted s (node_id node) d' ∧ node_of_row s node c.

Lemma rooted_root s j r :
  (j, r) ∈ find_root_collections s → rooted s j 0.
Proof.
  intros [Hj Hr]%elem_of_find_root_collections. split.
  - simpl. unfold parent_of. simpl. by rewrite Hj.
  - intros k Hk. assert (k = 0%nat) as -> by lia. by exists j, r.
Qed.

Lemma rooted_child s i d j r :
  rooted s i d → (j, r) ∈ find_children s i → rooted s j (S d).
Proof.
  intros [Htop Hrows] [Hj Hr]%elem_of_find_children.
  assert (Hup : parent_of s (Some j) = Some i).
  { unfold parent_of. simpl. by rewrite Hj. }
  split.
  - change (walk s (parent_of s (Some j)) (S d) = None). by rewrite Hup.
  - intros [|k] Hk; [by exists j, r|].
    change (∃ x c, walk s (parent_of s (Some j)) k = Some x
                   ∧ find_by_id s x = Some c).
    rewrite Hup. apply Hrows. lia.
Qed.

(** The ids on the way up to the root are different rows, so the way is
    shorter than the table. *)
Lemma rooted_bound s i d : rooted s i d → (d < size (sp_collection s))%nat.
Proof.
  intros [Htop Hrows].
  set (f := λ k : nat, default 0 (walk s (Some i) k)).
  assert (Hinj : ∀ a b, (a < b)%nat → (b ≤ d)%nat → f a ≠ f b).
  { intros a b Hab Hb Heq.
    destruct (Hrows a) as (x & cx & Ha & _); [lia|].
    destruct (Hrows b) as (y & cy & Hb' & _); [lia|].
    unfold f in Heq. rewrite Ha, Hb' in Heq. simpl in Heq. subst y.
    pose proof (walk_periodic s (Some i) a b (S d - b)) as Hper.
    rewrite Ha, Hb' in Hper. specialize (Hper eq_refl).
    replace (b + (S d - b))%nat with (S d) in Hper by lia.
    rewrite Htop in Hper.
    destruct (Hrows (a + (S d - b))%nat) as (z & cz & Hz & _); [lia|].
    congruence. }
  assert (Hnodup : NoDup (f <$> seq 0 (S d))).
  { apply NoDup_fmap_2_strong; [|apply NoDup_seq].
    intros a b [_ Ha]%elem_of_seq [_ Hb]%elem_of_seq Heq.
    destruct (Nat.lt_trichotomy a b) as [Hlt|[->|Hlt]]; [|done|].
    - destruct (Hinj a b); [done|lia|done].
    - destruct (Hinj b a); [done|lia|done]. }
  assert (Hsub : list_to_set (C := gset Z) (f <$> seq 0 (S d))
                 ⊆ dom (sp_collection s)).
  { intros x [k [-> [_ Hk]%elem_of_seq]]%elem_of_list_to_set%list_elem_of_fmap.
    destruct (Hrows k) as (y & cy & Hy & Hrow); [lia|].
    unfold f. rewrite Hy. simpl. apply elem_of_dom. by eexists. }
  apply subseteq_size in Hsub.
  rewrite size_list_to_set, length_fmap, length_seq, size_dom in Hsub by done.
  lia.
Qed.

Lemma mapM_Forall2 {A B} (f : A → option B) (P : A → B → Prop) (l : list A) :
  (∀ x, x ∈ l → ∃ y, f x = Some y ∧ P x y) →
  ∃ k, mapM f l = Some k ∧ Forall2 P l k.
Proof.
  induction l as [|x l IH]; intros Hl.
  - exists []. split; [done|constructor].
  - destruct (Hl x) as (y & Hy & HP); [by left|].
    destruct IH as (k & Hk & HPk); [intros z Hz; apply Hl; by right|].
    exists (y :: k). split; [|by constructor].
    apply mapM_Some_2. constructor; [done|]. by apply mapM_Some_1.
Qed.

Lemma Forall2_impl_elem {A B} (P Q : A → B → Prop) (l : list A) (k : list B) :
  Forall2 P l k → (∀ x y, x ∈ l → P x y → Q x y) → Forall2 Q l k.
Proof.
  intros H. induction H as [|x y l k Hxy _ IH]; intros HPQ; [constructor|].
  constructor; [apply HPQ; [by left|done]|].
  apply IH. intros x' y' Hx'. apply HPQ. by right.
Qed.

Lemma children_of_user s i (user : option User) :
  match user with
  | Some u => filter_by_user_permissions (find_children s i) u "view"
  | None => find_children s i
  end = find_children s i.
Proof. by destruct user. Qed.

Lemma Forall_nodes_of (P : TreeNode → Prop) (l : list (Z * SpCollection))
    (k : list TreeNode) :
  Forall2 (λ _ node, Forall P (nodes_of node)) l k →
  Forall P (concat (map nodes_of k)).
Proof.
  intros H. apply Forall_concat, List.Forall_map.
  induction H; constructor; auto.
Qed.

Lemma node_ok_weaken s d d' node : (d ≤ d')%nat → node_ok s d' node → node_ok s d node.
Proof.
  intros Hle (d'' & c & Hd & H). exists d'', c. split; [lia|done].
Qed.

Lemma build_tree_node_unfold fuel s md u col cur :
  build_tree_node (S fuel) s md u col cur
  = (children ←
       (if depth_allows md cur then
          mapM (λ child, build_tree_node fuel s md u child (cur + 1))
            (find_children s col.1)
        else Some []);
     Some (mkTreeNode col.1 (uuid col.2) (name col.2) (slug col.2)
             (description col.2) (is_official col.2) (item_count col.2)
             (total_item_count s col.1) cur children)).
Proof. simpl. by rewrite children_of_user. Qed.

(** What a built node and the nodes below it are. *)
Lemma build_tree_node_nodes fuel : ∀ s md u col d node,
  find_by_id s col.1 = Some col.2 → rooted s col.1 d →
  build_tree_node fuel s md u col (Z.of_nat d) = Some node →
  Forall (node_ok s d) (nodes_of node).
Proof.
  induction fuel as [|fuel IH]; intros s md u col d node Hrow Hrooted Hbuild;
    [done|].
  rewrite build_tree_node_unfold in Hbuild.
  destruct (if depth_allows md (Z.of_nat d) then _ else _)
    as [children|] eqn:Hchildren; [|done].
  injection Hbuild as <-. simpl. constructor.
  { exists d, col.2. split; [lia|]. split; [done|]. split; [exact Hrow|].
    split; [exact Hrooted|]. by repeat split. }
  destruct (depth_allows md (Z.of_nat d)).
  2: { injection Hchildren as <-. constructor. }
  apply mapM_Some_1 in Hchildren.
  apply (Forall_nodes_of _ (find_children s col.1)).
  eapply Forall2_impl_elem; [exact Hchildren|].
  intros [j r] y Hjr Hy. simpl in Hy.
  apply Forall_impl with (P := node_ok s (S d));
    [|intros n; apply node_ok_weaken; lia].
  apply (IH s md u (j, r) (S d)).
  - by apply elem_of_find_children in Hjr as [? _].
  - by apply (rooted_child s col.1 d j r).
  - rewrite <- Hy. f_equal. lia.
Qed.

(** From a collection that hangs under a root the builder comes back once
    it has fuel for the rows that can still be below. *)
Lemma build_tree_node_returns fuel : ∀ s md u col d,
  rooted s col.1 d →
  (size (sp_collection s) ≤ fuel + d)%nat →
  is_Some (build_tree_node fuel s md u col (Z.of_nat d)).
Proof.
  induction fuel as [|fuel IH]; intros s md u col d Hrooted Hfuel.
  - apply rooted_bound in Hrooted. lia.
  - rewrite build_tree_node_unfold.
    destruct (depth_allows md (Z.of_nat d)); [|by eexists].
    destruct (mapM_is_Some_2
                (λ child, build_tree_node fuel s md u child (Z.of_nat d + 1))
                (find_children s col.1)) as [k ->]; [|by eexists].
    apply Forall_forall. intros [j r] Hjr. simpl.
    replace (Z.of_nat d + 1) with (Z.of_nat (S d)) by lia.
    apply IH; [|lia]. by apply (rooted_child s col.1 d j r).
Qed.

Lemma build_tree_node_mono fuel : ∀ fuel' s md u col cur node,
  (fuel ≤ fuel')%nat →
  build_tree_node fuel s md u col cur = Some node →
  build_tree_node fuel' s md u col cur = Some node.
Proof.
  induction fuel as [|fuel IH]; intros fuel' s md u col cur node Hle Hbuild;
    [done|].
  destruct fuel' as [|fuel']; [lia|].
  rewrite build_tree_node_unfold in Hbuild |- *.
  destruct (depth_allows md cur); [|done].
  destruct (mapM _ _) as [children|] eqn:Hchildren; [|done].
  apply mapM_Some_1 in Hchildren.
  rewrite (mapM_Some_2 _ _ children); [done|].
  eapply Forall2_impl; [exact Hchildren|].
  intros child y Hy. simpl in *. apply IH; [lia|done].
Qed.

Lemma get_tree_mono fuel fuel' s root_id md u tree :
  (fuel ≤ fuel')%nat →
  get_tree fuel s root_id md u = Some tree →
  get_tree fuel' s root_id md u = Some tree.
Proof.
  intros Hle. unfold get_tree.
  destruct (if opt_truthy root_id then _ else _) as [roots|]; [|done].
  rewrite visible_roots. intros Htree%mapM_Some_1. apply mapM_Some_2.
  eapply Forall2_impl; [exact Htree|].
  intros root y Hy. simpl in *. by apply (build_tree_node_mono fuel).
Qed.

Lemma get_tree_roots fuel s root_id md u :
  opt_truthy root_id = false →
  get_tree fuel s root_id md u
  = mapM (λ root, build_tree_node fuel s md u root 0) (find_root_collections s).
Proof. intros Hroot. unfold get_tree. by rewrite Hroot, visible_roots. Qed.

Lemma get_tree_nodes fuel s root_id md u tree :
  opt_truthy root_id = false →
  get_tree fuel s root_id md u = Some tree →
  Forall (node_ok s 0) (all_nodes tree).
Proof.
  intros Hroot. rewrite get_tree_roots by done. intros Htree%mapM_Some_1.
  unfold all_nodes. apply (Forall_nodes_of _ (find_root_collections s)).
  eapply Forall2_impl_elem; [exact Htree|].
  intros [j r] y Hjr Hy. simpl in Hy.
  apply (build_tree_node_nodes fuel s md u (j, r) 0%nat).
  - by apply elem_of_find_root_collections in Hjr as [? _].
  - by apply (rooted_root s j r).
  - exact Hy.
Qed.

(** X10. Without a root id, [get_tree] comes back on every store, also
    one with cycles, whatever [max_depth], once the fuel is the number of
    collections: below a root every node is a different collection, so
    every depth in the tree is less than that number. *)
Theorem get_tree_from_roots_returns (s : Store) (root_id md : option Z)
    (u : option User) :
  opt_truthy root_id = false →
  ∃ tree,
    (∀ fuel, (size (sp_collection s) ≤ fuel)%nat →
             get_tree fuel s root_id md u = Some tree) ∧
    Forall (λ node, 0 ≤ node_depth node < Z.of_nat (size (sp_collection s)))
      (all_nodes tree).
Proof.
  intros Hroot.
  destruct (mapM_is_Some_2
              (λ root, build_tree_node (size (sp_collection s)) s md u root 0)
              (find_root_collections s)) as [tree Htree].
  { apply Forall_forall. intros [j r] Hjr. simpl.
    apply (build_tree_node_returns _ s md u (j, r) 0%nat); [|lia].
    by apply (rooted_root s j r). }
  rewrite <- (get_tree_roots _ s root_id md u Hroot) in Htree.
  exists tree. split.
  - intros fuel Hfuel. by apply (get_tree_mono (size (sp_collection s))).
  - eapply Forall_impl;
      [by apply (get_tree_nodes (size (sp_collection s)) s root_id md u)|].
    intros node (d' & c & _ & -> & _ & Hrooted%rooted_bound & _). lia.
Qed.

Lemma get_tree_from_roots_returns_witness :
  ∃ tree, get_tree 5 line3_ring2 None None None = Some tree ∧
          node_id <$> all_nodes tree = [1; 2; 3] ∧
          node_depth <$> all_nodes tree = [0; 1; 2].
Proof.
  destruct (get_tree_from_roots_returns line3_ring2 None None None eq_refl)
    as (tree & Htree & _).
  specialize (Htree 5%nat).
  assert (Hrun : get_tree 5 line3_ring2 None None None = Some tree).
  { apply Htree. vm_compute. lia. }
  exists tree. split; [exact Hrun|].
  vm_compute in Hrun. by injection Hrun as <-.
Defined.

Lemma build_tree_node_capped fuel : ∀ s d u col cur,
  (Z.to_nat (d - cur) < fuel)%nat →
  ∃ node, build_tree_node fuel s (Some d) u col cur = Some node ∧
          Forall (λ n, cur ≤ node_depth n ≤ Z.max cur d) (nodes_of node).
Proof.
  induction fuel as [|fuel IH]; intros s d u col cur Hfuel; [lia|].
  rewrite build_tree_node_unfold. simpl.
  destruct (Z.ltb_spec cur d) as [Hlt|Hge].
  - destruct (mapM_Forall2
                (λ child, build_tree_node fuel s (Some d) u child (cur + 1))
                (λ _ node, Forall (λ n, cur ≤ node_depth n ≤ Z.max cur d)
                             (nodes_of node))
                (find_children s col.1)) as (k & -> & Hk).
    { intros child _. destruct (IH s d u child (cur + 1)) as (y & Hy & Hdepth);
        [lia|].
      exists y. split; [done|]. eapply Forall_impl; [exact Hdepth|].
      simpl. lia. }
    eexists. split; [done|]. simpl. constructor; [simpl; lia|].
    by apply (Forall_nodes_of _ (find_children s col.1)).
  - eexists. split; [done|]. simpl. constructor; [simpl; lia|constructor].
Qed.

(** X11. With a [max_depth], [get_tree] comes back on every store, also
    from a root id on a cycle, once it has fuel for [max_depth + 1] nested
    calls, and no node of the tree is deeper than [max_depth] (the roots,
    at depth 0, are always there). *)
Theorem get_tree_capped (s : Store) (root_id : option Z) (d : Z)
    (u : option User) :
  ∃ tree,
    (∀ fuel, (Z.to_nat d < fuel)%nat →
             get_tree fuel s root_id (Some d) u = Some tree) ∧
    Forall (λ node, 0 ≤ node_depth node ≤ Z.max 0 d) (all_nodes tree).
Proof.
  assert (Hone : ∃ tree,
            get_tree (S (Z.to_nat d)) s root_id (Some d) u = Some tree ∧
            Forall (λ node, 0 ≤ node_depth node ≤ Z.max 0 d) (all_nodes tree)).
  { unfold get_tree.
    destruct (if opt_truthy root_id then _ else _) as [roots|].
    2: { exists []. split; [done|constructor]. }
    rewrite visible_roots.
    destruct (mapM_Forall2
                (λ root, build_tree_node (S (Z.to_nat d)) s (Some d) u root 0)
                (λ _ node, Forall (λ n, 0 ≤ node_depth n ≤ Z.max 0 d)
                             (nodes_of node))
                roots) as (tree & -> & Htree).
    { intros root _. apply build_tree_node_capped. lia. }
    exists tree. split; [done|]. by apply (Forall_nodes_of _ roots). }
  destruct Hone as (tree & Htree & Hdepth). exists tree.
  split; [|done]. intros fuel Hfuel.
  apply (get_tree_mono (S (Z.to_nat d))); [lia|done].
Qed.

(** ** [path] and [depth] *)

(** [n] times [.parent] from a row. *)
Fixpoint climb (s : Store) (current : option (Z * SpCollection)) (n : nat)
  : option (Z * SpCollection) :=
  match n with
  | O => current
  | S n' => climb s (current ≫= parent s) n'
  end.

Lemma climb_None s n : climb s None n = None.
Proof. induction n; [done|]. done. Qed.

Lemma climb_add s o n m : climb s o (n + m) = climb s (climb s o n) m.
Proof. revert o. induction n as [|n IH]; intros o; [done|]. apply IH. Qed.

Lemma climb_on_cycle s self k :
  climb s (Some self) (S k) = Some self → ∀ n, climb s (Some self) n ≠ None.
Proof.
  intros Hcycle.
  assert (Hmult : ∀ j, climb s (Some self) (j * S k) = Some self).
  { induction j as [|j IH]; [done|].
    replace (S j * S k)%nat with (S k + j * S k)%nat by lia.
    by rewrite climb_add, Hcycle. }
  intros n Hn.
  pose proof (Hmult (S n)) as Hself.
  replace (S n * S k)%nat with (n + (S n * S k - n))%nat in Hself by lia.
  by rewrite climb_add, Hn, climb_None in Hself.
Qed.

Lemma path_loop_spec fuel : ∀ s current acc l,
  path_loop fuel s current acc = Some l →
  ∃ pre, l = pre ++ acc ∧
    (∀ z, depth_loop fuel s current z = Some (z + Z.of_nat (length pre))) ∧
    last pre = current ∧
    (∀ top, head pre = Some top → parent s top = None) ∧
    (∀ k a b, pre !! k = Some a → pre !! S k = Some b → parent s b = Some a).
Proof.
  induction fuel as [|fuel IH]; intros s current acc l Hloop; [done|].
  simpl in Hloop. destruct current as [cur|].
  - destruct (IH _ _ _ _ Hloop) as (pre & -> & Hdepth & Hlast & Htop & Hstep).
    exists (pre ++ [cur]). split; [by rewrite <- app_assoc|]. split.
    { intros z. simpl. rewrite Hdepth, length_app. simpl. f_equal. lia. }
    split; [by rewrite last_snoc|]. split.
    + intros top Hhead. destruct pre as [|x pre].
      * simpl in *. by injection Hhead as <-.
      * apply Htop. by simpl in *.
    + intros k a b Ha Hb.
      destruct (decide (S k < length pre)%nat) as [Hk|Hk].
      * rewrite lookup_app_l in Ha, Hb by lia. by apply (Hstep k).
      * assert (Hlen : S k = length pre).
        { apply lookup_lt_Some in Hb. rewrite length_app in Hb. simpl in Hb.
          lia. }
        rewrite lookup_app_l in Ha by lia.
        rewrite lookup_app_r in Hb by lia.
        replace (S k - length pre)%nat with 0%nat in Hb by lia.
        injection Hb as <-. rewrite <- Hlast.
        rewrite last_lookup. rewrite <- Hlen. simpl. by rewrite Ha.
  - injection Hloop as <-. exists []. split; [done|]. split.
    { intros z. simpl. f_equal. lia. }
    split; [done|]. split; [done|]. intros k a b Ha. by destruct k.
Qed.

Lemma depth_loop_mono fuel : ∀ fuel' s current z d,
  (fuel ≤ fuel')%nat →
  depth_loop fuel s current z = Some d → depth_loop fuel' s current z = Some d.
Proof.
  induction fuel as [|fuel IH]; intros fuel' s current z d Hle Hloop; [done|].
  destruct fuel' as [|fuel']; [lia|]. simpl in *.
  destruct current as [cur|]; [|done]. apply IH; [lia|done].
Qed.

Lemma path_loop_returns n : ∀ fuel s current acc,
  climb s current n = None → (n < fuel)%nat →
  is_Some (path_loop fuel s current acc).
Proof.
  induction n as [|n IH]; intros fuel s current acc Hn Hfuel.
  - destruct fuel as [|fuel]; [lia|]. simpl in *. subst. by eexists.
  - destruct fuel as [|fuel]; [lia|]. simpl.
    destruct current as [cur|]; [|by eexists]. apply IH; [done|lia].
Qed.

Lemma path_loop_never fuel : ∀ s current acc,
  (∀ n, climb s current n ≠ None) → path_loop fuel s current acc = None.
Proof.
  induction fuel as [|fuel IH]; intros s current acc Hnever; [done|].
  simpl. destruct current as [cur|]; [|by destruct (Hnever 0%nat)].
  apply IH. intros n. apply (Hnever (S n)).
Qed.

Lemma depth_loop_never fuel : ∀ s current z,
  (∀ n, climb s current n ≠ None) → depth_loop fuel s current z = None.
Proof.
  induction fuel as [|fuel IH]; intros s current z Hnever; [done|].
  simpl. destruct current as [cur|]; [|by destruct (Hnever 0%nat)].
  apply IH. intros n. apply (Hnever (S n)).
Qed.

Lemma path_spec (fuel : nat) (s : Store) (self : Z * SpCollection)
    (l : list (Z * SpCollection)) :
  path fuel s self = Some l →
  last l = Some self ∧
  (∃ top, head l = Some top ∧ parent s top = None) ∧
  (∀ k a b, l !! k = Some a → l !! S k = Some b → parent s b = Some a) ∧
  depth fuel s self = Some (Z.of_nat (length l) - 1).
Proof.
  intros Hpath.
  destruct (path_loop_spec _ _ _ _ _ Hpath)
    as (pre & Hl & _ & Hlast & Htop & Hstep).
  rewrite app_nil_r in Hl. subst pre.
  split; [done|]. split; [|split; [done|]].
  - destruct l as [|top l]; [done|]. exists top. split; [done|]. by apply Htop.
  - destruct fuel as [|fuel]; [done|]. unfold path in Hpath. simpl in Hpath.
    destruct (path_loop_spec _ _ _ _ _ Hpath) as (pre & -> & Hdepth & _).
    unfold depth. apply (depth_loop_mono fuel); [lia|].
    rewrite Hdepth, length_app. simpl. f_equal. lia.
Qed.

(** X12. When [path] returns, the list ends with the collection itself
    and starts with a row that has no parent row, every row in it is the
    parent of the next, and [depth] returns the length of the list less
    one. *)
Theorem path_and_depth (fuel : nat) (s : Store) (self : Z * SpCollection)
    (l : list (Z * SpCollection)) :
  path fuel s self = Some l →
  last l = Some self ∧
  (∃ top, head l = Some top ∧ parent s top = None) ∧
  (∀ k a b, l !! k = Some a → l !! S k = Some b → parent s b = Some a) ∧
  depth fuel s self = Some (Z.of_nat (length l) - 1).
Proof. apply path_spec. Qed.

Lemma path_and_depth_witness :
  path 4 line3 (3, example_row "three" "three" (Some 2))
  = Some [(1, example_row "one" "one" None);
          (2, example_row "two" "two" (Some 1));
          (3, example_row "three" "three" (Some 2))] ∧
  depth 4 line3 (3, example_row "three" "three" (Some 2)) = Some 2.
Proof.
  assert (H : path 4 line3 (3, example_row "three" "three" (Some 2))
              = Some [(1, example_row "one" "one" None);
                      (2, example_row "two" "two" (Some 1));
                      (3, example_row "three" "three" (Some 2))])
    by (by vm_compute).
  split; [exact H|].
  by destruct (path_and_depth _ _ _ _ H) as (_ & _ & _ & ->).
Defined.

(** X13. [path] and [depth] return as soon as the fuel is more than the
    number of parent rows above the collection; for a collection that is
    its own ancestor they do not return, whatever the fuel: their loops
    keep no set of visited ids. *)
Theorem path_and_depth_return (s : Store) (self : Z * SpCollection) :
  (∀ n fuel, climb s (Some self) n = None → (n < fuel)%nat →
     is_Some (path fuel s self) ∧ is_Some (depth fuel s self)) ∧
  (∀ k, climb s (Some self) (S k) = Some self →
     ∀ fuel, path fuel s self = None ∧ depth fuel s self = None).
Proof.
  split.
  - intros n fuel Hn Hfuel.
    destruct (path_loop_returns n fuel s (Some self) [] Hn Hfuel) as [l Hl].
    split; [by exists l|].
    destruct (path_spec fuel s self l Hl) as (_ & _ & _ & ->). by eexists.
  - intros k Hcycle fuel.
    pose proof (climb_on_cycle s self k Hcycle) as Hnever.
    split; [by apply path_loop_never|].
    apply depth_loop_never. intros n. apply (Hnever (S n)).
Qed.

Lemma path_and_depth_return_witness :
  (is_Some (path 4 line3 (3, example_row "three" "three" (Some 2))) ∧
   is_Some (depth 4 line3 (3, example_row "three" "three" (Some 2)))) ∧
  (path 50 ring2 (1, example_row "one" "one" (Some 2)) = None ∧
   depth 50 ring2 (1, example_row "one" "one" (Some 2)) = None).
Proof.
  split.
  - apply (proj1 (path_and_depth_return line3 _) 3%nat 4%nat); [done|lia].
  - apply (proj2 (path_and_depth_return ring2 _) 1%nat). by vm_compute.
Defined.

(** ** The depth in the tree and the model's [depth] *)

Lemma rooted_top s i c :
  find_by_id s i = Some c → rooted s i 0 → parent_id c = None.
Proof.
  intros Hrow [Hend _]. simpl in Hend. unfold parent_of in Hend.
  simpl in Hend. by rewrite Hrow in Hend.
Qed.

Lemma rooted_below s i c d :
  find_by_id s i = Some c → rooted s i (S d) →
  ∃ x cx, parent_id c = Some x ∧ find_by_id s x = Some cx ∧ rooted s x d.
Proof.
  intros Hrow [Hend Hrows].
  destruct (Hrows 1%nat) as (x & cx & Hx & Hcx); [lia|].
  assert (Hparent : parent_of s (Some i) = Some x) by exact Hx.
  assert (Hid : parent_id c = Some x).
  { unfold parent_of in Hparent. simpl in Hparent.
    by rewrite Hrow in Hparent. }
  exists x, cx. split; [done|]. split; [done|]. split.
  - change (walk s (parent_of s (Some i)) (S d) = None) in Hend.
    by rewrite Hparent in Hend.
  - intros k Hk. destruct (Hrows (S k)) as (y & cy & Hy & Hcy); [lia|].
    exists y, cy. split; [|done].
    change (walk s (parent_of s (Some i)) k = Some y) in Hy.
    by rewrite Hparent in Hy.
Qed.

Lemma depth_loop_rooted d : ∀ fuel s i c z,
  find_by_id s i = Some c → rooted s i d → (S d < fuel)%nat →
  depth_loop fuel s (Some (i, c)) z = Some (z + Z.of_nat (S d)).
Proof.
  induction d as [|d IH]; intros fuel s i c z Hrow Hrooted Hfuel.
  - destruct fuel as [|[|fuel]]; [lia|lia|].
    pose proof (rooted_top s i c Hrow Hrooted) as Hnone.
    simpl. unfold parent. simpl. rewrite Hnone. simpl. f_equal; lia.
  - destruct fuel as [|fuel]; [lia|].
    destruct (rooted_below s i c d Hrow Hrooted) as (x & cx & Hid & Hcx & Hx).
    simpl. unfold parent. simpl. rewrite Hid. simpl. rewrite Hcx. simpl.
    rewrite (IH fuel s x cx (z + 1) Hcx Hx) by lia. f_equal; lia.
Qed.

Lemma depth_rooted s i c d fuel :
  find_by_id s i = Some c → rooted s i d → (d < fuel)%nat →
  depth fuel s (i, c) = Some (Z.of_nat d).
Proof.
  intros Hrow Hrooted Hfuel. unfold depth. destruct d as [|d].
  - pose proof (rooted_top s i c Hrow Hrooted) as Hnone.
    unfold parent. simpl. rewrite Hnone. simpl.
    destruct fuel as [|fuel]; [lia|]. done.
  - destruct (rooted_below s i c d Hrow Hrooted) as (x & cx & Hid & Hcx & Hx).
    unfold parent. simpl. rewrite Hid. simpl. rewrite Hcx. simpl.
    by rewrite (depth_loop_rooted d fuel s x cx 0 Hcx Hx) by lia.
Qed.

(** X14. In a tree built from the roots, every node is a row of the
    table: it carries that row's fields and the number of its own links,
    its [depth] is what the model's [depth] property returns for the row,
    and it is 0 exactly for a row that [is_root]. *)
Theorem get_tree_nodes_are_rows (fuel : nat) (s : Store) (root_id : option Z)
    (max_depth : option Z) (user : option User) (tree : list TreeNode) :
  opt_truthy root_id = false →
  get_tree fuel s root_id max_depth user = Some tree →
  Forall (λ node, ∃ c,
            find_by_id s (node_id node) = Some c ∧
            node_of_row s node c ∧
            (∀ fuel', (Z.to_nat (node_depth node) < fuel')%nat →
               depth fuel' s (node_id node, c) = Some (node_depth node)) ∧
            (node_depth node = 0 ↔ is_root c = true))
         (all_nodes tree).
Proof.
  intros Hroot Htree.
  eapply Forall_impl; [exact (get_tree_nodes _ _ _ _ _ _ Hroot Htree)|].
  intros node (d & c & _ & Hdepth & Hrow & Hrooted & Hfields).
  exists c. split; [done|]. split; [done|]. split.
  - intros fuel' Hfuel. rewrite Hdepth in *. rewrite Nat2Z.id in Hfuel.
    by apply depth_rooted.
  - unfold is_root. rewrite bool_decide_eq_true, Hdepth. destruct d as [|d].
    + split; [|done]. intros _. by apply (rooted_top s (node_id node)).
    + destruct (rooted_below s _ c d Hrow Hrooted) as (x & ? & Hid & _).
      rewrite Hid. split; [lia|done].
Qed.

Lemma get_tree_nodes_are_rows_witness :
  Forall (λ node, ∃ c,
            find_by_id line3 (node_id node) = Some c ∧
            node_of_row line3 node c ∧
            (∀ fuel', (Z.to_nat (node_depth node) < fuel')%nat →
               depth fuel' line3 (node_id node, c) = Some (node_depth node)) ∧
            (node_depth node = 0 ↔ is_root c = true))
         (all_nodes (default [] (get_tree 5 line3 None None None))).
Proof.
  apply (get_tree_nodes_are_rows 5 line3 None None None); [done|].
  by vm_compute.
Defined.

(** ** [update_item_counts] *)

Lemma with_item_count_id c : with_item_count (item_count c) c = c.
Proof. by destruct c. Qed.

Lemma with_item_count_twice v w c :
  with_item_count v (with_item_count w c) = with_item_count v c.
Proof. done. Qed.

(** One call, up to the recursive one: the counter of the row is the
    number of its links, and the session has nothing pending. *)
Lemma update_item_counts_unfold fuel cid s c :
  find_by_id s cid = Some c →
  update_item_counts (S fuel) cid (fresh s)
  = let s1 := with_row cid (with_item_count (total_item_count s cid) c) s in
    if opt_truthy (parent_id c)
    then update_item_counts fuel (default 0 (parent_id c)) (fresh s1)
    else Some (Return tt, fresh s1).
Proof.
  intros Hrow. simpl. rewrite Hrow. case_bool_decide as Hcount.
  - unfold set_item_count, mbind, M_bind, bind, fresh.
    rewrite (setattr_eq _ _ _ _ _ _ c) by done. simpl.
    unfold commit. simpl. rewrite flush_error_None_kept; [done| |].
    + intros i c' Hi. simpl in Hi. unfold find_by_id in Hrow.
      destruct (decide (i = cid)) as [->|Hne].
      * rewrite lookup_insert_eq in Hi. injection Hi as <-. by rewrite Hrow.
      * rewrite lookup_insert_ne in Hi by done. by rewrite Hi.
    + intros t a. by rewrite link_table_with_row.
  - rewrite <- Hcount, with_item_count_id.
    by rewrite with_row_id.
Qed.

Lemma update_item_counts_chain n : ∀ fuel s cid,
  (∀ k, (1 ≤ k ≤ n)%nat → live (walk s (Some cid) k)) →
  ¬ live (walk s (Some cid) (S n)) →
  (n < fuel)%nat →
  ∃ s', update_item_counts fuel cid (fresh s) = Some (Return tt, fresh s') ∧
    s' = set_collections (sp_collection s') s ∧
    (∀ i, find_by_id s i = None → find_by_id s' i = None) ∧
    (∀ i c, find_by_id s i = Some c →
       ∃ v, find_by_id s' i = Some (with_item_count v c) ∧
            (v = item_count c ∨ v = total_item_count s i)) ∧
    (∀ k i c', (k ≤ n)%nat → walk s (Some cid) k = Some i →
       find_by_id s' i = Some c' → item_count c' = total_item_count s i) ∧
    (∀ i, (∀ k, (k ≤ n)%nat → walk s (Some cid) k ≠ Some i) →
       find_by_id s' i = find_by_id s i).
Proof.
  induction n as [|n IH]; intros fuel s cid Hlive Hstop Hfuel;
    (destruct fuel as [|fuel]; [lia|]).
  - destruct (find_by_id s cid) as [c|] eqn:Hrow.
    + rewrite (update_item_counts_unfold _ _ _ c) by done. simpl.
      assert (Hparent : opt_truthy (parent_id c) = false).
      { apply not_true_is_false. intros Htrue. apply Hstop. unfold live.
        simpl. unfold parent_of. simpl. by rewrite Hrow. }
      rewrite Hparent. eexists. split; [done|]. split; [by destruct s|].
      split; [|split; [|split]].
      * intros i Hi. rewrite find_by_id_with_row_ne; [done|congruence].
      * intros i c0 Hi. destruct (decide (i = cid)) as [->|Hne].
        -- rewrite find_by_id_with_row. exists (total_item_count s cid).
           split; [congruence|by right].
        -- rewrite find_by_id_with_row_ne by done. exists (item_count c0).
           by rewrite with_item_count_id; split; [|left].
      * intros k i c' Hk Hwalk. assert (k = 0%nat) as -> by lia.
        simpl in Hwalk. injection Hwalk as <-.
        rewrite find_by_id_with_row. by intros [= <-].
      * intros i Hoff. rewrite find_by_id_with_row_ne; [done|].
        intros <-. by apply (Hoff 0%nat).
    + simpl. rewrite Hrow. exists s. split; [done|].
      split; [by destruct s|]. split; [done|]. split; [|split].
      * intros i c Hi. exists (item_count c).
        by rewrite with_item_count_id; split; [|left].
      * intros k i c' Hk Hwalk. assert (k = 0%nat) as -> by lia.
        simpl in Hwalk. injection Hwalk as <-. by rewrite Hrow.
      * done.
  - assert (Hfirst : live (parent_of s (Some cid))) by (apply (Hlive 1%nat); lia).
    destruct (find_by_id s cid) as [c|] eqn:Hrow;
      [|by unfold live, parent_of in Hfirst; simpl in Hfirst;
           rewrite Hrow in Hfirst].
    assert (Hparent : parent_of s (Some cid) = parent_id c).
    { unfold parent_of. simpl. by rewrite Hrow. }
    rewrite Hparent in Hfirst.
    rewrite (update_item_counts_unfold _ _ _ c) by done. simpl.
    rewrite Hfirst. destruct (parent_id c) as [p|] eqn:Hp; [|done]. simpl.
    set (s1 := with_row cid (with_item_count (total_item_count s cid) c) s).
    assert (Hwalk1 : ∀ o k, walk s1 o k = walk s o k).
    { intros o k. apply walk_ext. intros o'.
      by apply (parent_of_with_row_same s cid c). }
    assert (Hshift : ∀ k, walk s (Some p) k = walk s (Some cid) (S k)).
    { intros k. simpl. by rewrite Hparent. }
    destruct (IH fuel s1 p) as (s' & Hrun & Hrest & Hnone & Hrows & Hon & Hoff).
    { intros k Hk. rewrite Hwalk1, Hshift. apply Hlive. lia. }
    { by rewrite Hwalk1, Hshift. }
    { lia. }
    exists s'. split; [done|]. split; [by rewrite Hrest; destruct s|].
    split; [|split; [|split]].
    + intros i Hi. apply Hnone. unfold s1.
      rewrite find_by_id_with_row_ne; [done|congruence].
    + intros i c0 Hi. destruct (decide (i = cid)) as [->|Hne].
      * destruct (Hrows cid (with_item_count (total_item_count s cid) c))
          as (v & Hv & Hor); [apply find_by_id_with_row|].
        exists v. assert (c0 = c) as -> by congruence.
        split; [by rewrite Hv|]. right. by destruct Hor as [->| ->].
      * destruct (Hrows i c0) as (v & Hv & Hor).
        { unfold s1. by rewrite find_by_id_with_row_ne. }
        exists v. by split.
    + intros k i c' Hk Hwalk Hc'. destruct k as [|k].
      * simpl in Hwalk. injection Hwalk as <-.
        destruct (Hrows cid (with_item_count (total_item_count s cid) c))
          as (v & Hv & Hor); [apply find_by_id_with_row|].
        rewrite Hv in Hc'. injection Hc' as <-.
        by destruct Hor as [->| ->].
      * apply (Hon k i c'); [lia| |done]. by rewrite Hwalk1, Hshift.
    + intros i Hi. rewrite Hoff.
      * unfold s1. rewrite find_by_id_with_row_ne; [done|].
        intros <-. apply (Hi 0%nat); [lia|done].
      * intros k Hk. rewrite Hwalk1, Hshift. apply Hi. lia.
Qed.

Lemma store_eq_collections s s' :
  s' = set_collections (sp_collection s') s →
  (∀ i, find_by_id s' i = find_by_id s i) → s' = s.
Proof.
  intros -> Hrows. destruct s. unfold set_collections. simpl in *.
  f_equal. by apply map_eq.
Qed.

(** The two rows are the same in every column but [item_count] and the
    audit column [changed_by_fk]. *)
Definition same_columns (c c' : SpCollection) : Prop :=
  uuid c' = uuid c ∧ name c' = name c ∧ slug c' = slug c ∧
  description c' = description c ∧ parent_id c' = parent_id c ∧
  is_official c' = is_official c ∧ created_by_fk c' = created_by_fk c.

(** X15. [update_item_counts] on a collection whose chain of parent ids
    ends returns once the fuel covers the chain; it leaves in every row
    of the chain the number of that collection's own links as
    [item_count]; no row comes or goes, and in every row the columns
    other than [item_count] and the audit column are what they were; the
    rows off the chain and the other tables are as they were, and on a
    store whose counters are all right it changes nothing. *)
Theorem update_item_counts_recounts (s : Store) (cid : Z) (n fuel : nat) :
  (∀ k, (1 ≤ k ≤ n)%nat → live (walk s (Some cid) k)) →
  ¬ live (walk s (Some cid) (S n)) →
  (n < fuel)%nat →
  ∃ s', run_update_item_counts fuel cid s = Some (Return tt, s') ∧
    s' = set_collections (sp_collection s') s ∧
    (∀ i, find_by_id s i = None → find_by_id s' i = None) ∧
    (∀ i c, find_by_id s i = Some c →
       ∃ c', find_by_id s' i = Some c' ∧ same_columns c c') ∧
    (∀ k i c', (k ≤ n)%nat → walk s (Some cid) k = Some i →
       find_by_id s' i = Some c' → item_count c' = total_item_count s' i) ∧
    (∀ i, (∀ k, (k ≤ n)%nat → walk s (Some cid) k ≠ Some i) →
       find_by_id s' i = find_by_id s i) ∧
    (counts_consistent s → s' = s).
Proof.
  intros Hlive Hstop Hfuel.
  destruct (update_item_counts_chain n fuel s cid Hlive Hstop Hfuel)
    as (s' & Hrun & Hrest & Hnone & Hrows & Hon & Hoff).
  exists s'. unfold run_update_item_counts. rewrite Hrun.
  split; [done|]. split; [done|]. split; [done|].
  split; [|split; [|split; [done|]]].
  - intros i c Hi. destruct (Hrows i c Hi) as (v & Hv & _).
    exists (with_item_count v c). split; [done|]. by repeat split.
  - intros k i c' Hk Hwalk Hc'. rewrite (Hon k i c' Hk Hwalk Hc').
    by rewrite Hrest.
  - intros Hcounts. apply store_eq_collections; [done|]. intros i.
    destruct (find_by_id s i) as [c|] eqn:Hi; [|by apply Hnone].
    destruct (Hrows i c Hi) as (v & -> & Hor).
    rewrite <- (Hcounts i c Hi) in Hor.
    assert (v = item_count c) as -> by by destruct Hor.
    by rewrite with_item_count_id.
Qed.

(** Collection 6 under collection 5, both with links that their counters
    do not show. *)
Definition stale_counts : Store :=
  mkStore (<[5 := example_row "five" "five" None]>
           (<[6 := example_row "six" "six" (Some 5)]> ∅))
    [mkLink 5 42 None 7] [mkLink 6 1 None 8; mkLink 6 2 None 9] [] ∅ ∅ ∅.

Lemma update_item_counts_recounts_witness :
  ∃ s', run_update_item_counts 2 6 stale_counts = Some (Return tt, s') ∧
        item_count <$> find_by_id s' 6 = Some 2 ∧
        item_count <$> find_by_id s' 5 = Some 1.
Proof.
  destruct (update_item_counts_recounts stale_counts 6 1 2)
    as (s' & Hrun & _); [|by vm_compute|lia|].
  - intros k Hk. assert (k = 1%nat) as -> by lia. by vm_compute.
  - exists s'. split; [exact Hrun|]. vm_compute in Hrun.
    injection Hrun as <-. by vm_compute.
Defined.

Lemma walk_live_on_cycle s cid k :
  walk s (Some cid) (S k) = Some cid →
  (∀ j, (j ≤ k)%nat → live (walk s (Some cid) (S j))) →
  ∀ n, live (walk s (Some cid) (S n)).
Proof.
  intros Hcycle Hlive n. induction (lt_wf n) as [n _ IH].
  destruct (decide (n ≤ k)%nat) as [Hle|Hgt]; [by apply Hlive|].
  replace (S n) with (S k + S (n - S k))%nat by lia.
  rewrite walk_add, Hcycle. apply IH. lia.
Qed.

Lemma update_item_counts_never fuel : ∀ s cid,
  (∀ n, live (walk s (Some cid) (S n))) →
  update_item_counts fuel cid (fresh s) = None.
Proof.
  induction fuel as [|fuel IH]; intros s cid Hlive; [done|].
  pose proof (Hlive 0%nat) as Hfirst. simpl in Hfirst.
  destruct (find_by_id s cid) as [c|] eqn:Hrow;
    [|by unfold live, parent_of in Hfirst; simpl in Hfirst;
         rewrite Hrow in Hfirst].
  assert (Hparent : parent_of s (Some cid) = parent_id c).
  { unfold parent_of. simpl. by rewrite Hrow. }
  rewrite Hparent in Hfirst.
  rewrite (update_item_counts_unfold _ _ _ c) by done. simpl.
  rewrite Hfirst. destruct (parent_id c) as [p|] eqn:Hp; [|done]. simpl.
  apply IH. intros n. rewrite (walk_ext s).
  - specialize (Hlive (S n)). simpl in Hlive. by rewrite Hparent in Hlive.
  - intros o'. by apply (parent_of_with_row_same s cid c).
Qed.

(** X16. [update_item_counts] keeps no set of visited ids: on a
    collection that is its own ancestor the recursion goes round the
    cycle and does not return, whatever the fuel. *)
Theorem update_item_counts_on_cycle (s : Store) (cid : Z) (k : nat) :
  walk s (Some cid) (S k) = Some cid →
  (∀ j, (j ≤ k)%nat → live (walk s (Some cid) (S j))) →
  ∀ fuel, run_update_item_counts fuel cid s = None.
Proof.
  intros Hcycle Hlive fuel. unfold run_update_item_counts.
  rewrite update_item_counts_never; [done|].
  by apply (walk_live_on_cycle s cid k).
Qed.

Lemma update_item_counts_on_cycle_witness :
  run_update_item_counts 100 1 ring2 = None.
Proof.
  apply (update_item_counts_on_cycle ring2 1 1); [by vm_compute|].
  intros j Hj. assert (j = 0%nat ∨ j = 1%nat) as [-> | ->] by lia;
    by vm_compute.
Defined.

(** ** [create_collection] *)

Lemma create_collection_eq s nm sl d p o cb new_id new_uuid :
  run (create_collection nm sl d p o cb new_id new_uuid) s
  = if bool_decide (is_Some (find_by_slug s sl))
    then (Raise CollectionSlugExistsError, s)
    else if opt_truthy p && bool_decide (find_by_id s (default 0 p) = None)
    then (Raise CollectionNotFoundError, s)
    else
      match validate_name nm with
      | Raise e => (Raise e, s)
      | Return n' =>
      match validate_slug sl with
      | Raise e => (Raise e, s)
      | Return sl' =>
      match validate_description d with
      | Raise e => (Raise e, s)
      | Return d' =>
          if opt_truthy p && has_cycle_with_parent s None (default 0 p)
          then (Raise CollectionCycleError, s)
          else
            let col := mkSpCollection new_uuid n' sl' d' p o 0
                         (user_id <$> cb) None in
            if bool_decide (is_Some (find_by_id s new_id))
            then (Raise CollectionSlugExistsError, s)
            else
              match flush_error s (with_row new_id col s) with
              | Some _ => (Raise CollectionSlugExistsError, s)
              | None => (Return (new_id, col), with_row new_id col s)
              end
      end end end.
Proof.
  enter_dao create_collection.
  destruct (bool_decide (is_Some (find_by_slug s sl))); [done|].
  rewrite bind_ret.
  destruct (opt_truthy p && bool_decide (find_by_id s (default 0 p) = None));
    [done|].
  rewrite bind_ret. unfold lift, mbind, M_bind, bind.
  destruct (validate_name nm) as [n'|e]; [|done].
  destruct (validate_slug sl) as [sl'|e]; [|done].
  destruct (validate_description d) as [d'|e]; [|done].
  assert (validate_parent_id None p = Return p) as -> by by destruct p.
  destruct (opt_truthy p && has_cycle_with_parent s None (default 0 p));
    [done|].
  simpl. unfold try_except, session_add_collection. rewrite bind_query.
  simpl. case_bool_decide as Htaken; [done|].
  unfold modify, commit, mbind, M_bind, bind. simpl.
  destruct (flush_error s _) as [k|] eqn:Hflush; [|done].
  apply flush_error_with_row in Hflush as [->|[-> _]]; [done|].
  destruct (find_by_id s new_id) eqn:Hrow; [|done].
  destruct Htaken. by eexists.
Qed.

Lemma walk_first_dead s n : ∀ o,
  ¬ live (walk s o n) →
  ∃ m, (m ≤ n)%nat ∧ ¬ live (walk s o m) ∧
       ∀ k, (k < m)%nat → live (walk s o k).
Proof.
  induction n as [|n IH]; intros o Hdead.
  - exists 0%nat. split; [done|]. split; [done|]. intros k Hk. lia.
  - destruct (decide (live o)) as [Hlive|Hnot].
    + destruct (IH (parent_of s o) Hdead) as (m & Hm & Hstop & Hbefore).
      exists (S m). split; [lia|]. split; [exact Hstop|].
      intros [|k] Hk; [exact Hlive|]. apply Hbefore. lia.
    + exists 0%nat. split; [lia|]. split; [done|]. intros k Hk. lia.
Qed.

(** For an object without an id the check answers by the chain alone. *)
Lemma has_cycle_with_parent_grounded s p :
  grounded s p → has_cycle_with_parent s None p = false.
Proof.
  intros [n Hn].
  destruct (walk_first_dead s n (Some p)) as (m & _ & Hstop & Hbefore).
  { by rewrite Hn. }
  apply (has_cycle_with_parent_null s None p m); [done|exact Hbefore| |exact Hstop].
  intros k Hk. by destruct (live_Some _ (Hbefore k Hk)) as (x & -> & _).
Qed.

(** X17. When [create_collection] raises, the store is as it was, and
    the exception is one of four: the slug is taken, the parent is not
    found (the id is not zero and has no row), a validator refused a
    value, or the chain of parents above the new parent never ends. On a
    store without cycles it therefore never raises
    [CollectionCycleError]. *)
Theorem create_collection_fails_clean (s s' : Store) (nm sl : string)
    (d : option string) (p : option Z) (o : bool) (cb : option User)
    (new_id : Z) (new_uuid : string) (e : Exn) :
  run (create_collection nm sl d p o cb new_id new_uuid) s = (Raise e, s') →
  s' = s ∧
  (e = CollectionSlugExistsError ∨
   e = CollectionNotFoundError ∧ live p ∧ find_by_id s (default 0 p) = None ∨
   e = ValueError ∨
   e = CollectionCycleError ∧ live p ∧ ¬ grounded s (default 0 p)).
Proof.
  rewrite create_collection_eq.
  destruct (bool_decide (is_Some (find_by_slug s sl)));
    [intros [= <- <-]; by split; [|left]|].
  destruct (opt_truthy p && bool_decide (find_by_id s (default 0 p) = None))
    eqn:Hparent.
  { intros [= <- <-]. split; [done|]. right. left.
    apply andb_true_iff in Hparent as [Hlive Hnone].
    by apply bool_decide_eq_true in Hnone. }
  destruct (validate_name nm) as [n'|e1] eqn:Hname.
  2: { intros [= <- <-]. split; [done|]. right. right. left.
       by apply (validate_name_raises nm). }
  destruct (validate_slug sl) as [sl'|e1] eqn:Hslug.
  2: { intros [= <- <-]. split; [done|]. right. right. left.
       by apply (validate_slug_raises sl). }
  destruct (validate_description d) as [d'|e1] eqn:Hdescription.
  2: { intros [= <- <-]. split; [done|]. right. right. left.
       by apply (validate_description_raises d). }
  destruct (opt_truthy p && has_cycle_with_parent s None (default 0 p))
    eqn:Hcycle.
  { intros [= <- <-]. split; [done|]. right. right. right.
    apply andb_true_iff in Hcycle as [Hlive Hcycle].
    split; [done|]. split; [done|]. intros Hgrounded.
    by rewrite has_cycle_with_parent_grounded in Hcycle. }
  simpl. destruct (bool_decide (is_Some (find_by_id s new_id)));
    [intros [= <- <-]; by split; [|left]|].
  destruct (flush_error s _); [|done].
  intros [= <- <-]. by split; [|left].
Qed.

Lemma create_collection_fails_clean_witness :
  run (create_collection "X" "x" None (Some 1) false None 3 "u") ring2
  = (Raise CollectionCycleError, ring2) ∧
  ¬ grounded ring2 1.
Proof.
  assert (H : run (create_collection "X" "x" None (Some 1) false None 3 "u")
                ring2 = (Raise CollectionCycleError, ring2))
    by (by vm_compute).
  split; [exact H|].
  destruct (create_collection_fails_clean _ _ _ _ _ _ _ _ _ _ _ H)
    as [_ [?|[[? _]|[?|(_ & _ & Hloop)]]]]; try done.
Defined.

Lemma validate_description_returns d d' :
  validate_description d = Return d' → d' = d.
Proof.
  unfold validate_description. destruct d as [text|]; [|congruence].
  destruct (str_truthy text && _); congruence.
Qed.

(** What a successful [create_collection] went through. *)
Lemma create_collection_success s nm sl d p o cb new_id new_uuid r s' :
  run (create_collection nm sl d p o cb new_id new_uuid) s = (Return r, s') →
  ∃ n' sl',
    r = (new_id, mkSpCollection new_uuid n' sl' d p o 0 (user_id <$> cb) None) ∧
    s' = with_row new_id r.2 s ∧
    validate_name nm = Return n' ∧ validate_slug sl = Return sl' ∧
    find_by_slug s sl = None ∧
    (live p → is_Some (find_by_id s (default 0 p)) ∧
              has_cycle_with_parent s None (default 0 p) = false) ∧
    flush_error s (with_row new_id r.2 s) = None.
Proof.
  rewrite create_collection_eq. case_bool_decide as Htaken; [done|].
  destruct (opt_truthy p && bool_decide (find_by_id s (default 0 p) = None))
    eqn:Hparent; [done|].
  destruct (validate_name nm) as [n'|] eqn:Hname; [|done].
  destruct (validate_slug sl) as [sl'|] eqn:Hslug; [|done].
  destruct (validate_description d) as [d'|] eqn:Hdescription; [|done].
  apply validate_description_returns in Hdescription as ->.
  destruct (opt_truthy p && has_cycle_with_parent s None (default 0 p))
    eqn:Hcycle; [done|].
  simpl. destruct (bool_decide (is_Some (find_by_id s new_id))); [done|].
  destruct (flush_error s _) eqn:Hflush; [done|].
  intros [= <- <-]. exists n', sl'. simpl.
  split; [done|]. split; [done|]. split; [done|]. split; [done|].
  split; [|split; [|done]].
  - destruct (find_by_slug s sl) eqn:Hfound; [|done].
    destruct Htaken. by eexists.
  - intros Hlive. unfold live in Hlive. rewrite Hlive in Hparent, Hcycle.
    simpl in *. split; [|done].
    apply bool_decide_eq_false in Hparent.
    by destruct (find_by_id s (default 0 p)); [eexists|].
Qed.

Lemma filter_unique {A} (P : A → Prop) `{∀ x, Decision (P x)} (l : list A) x :
  NoDup l → x ∈ l → P x → (∀ y, y ∈ l → P y → y = x) → filter P l = [x].
Proof.
  induction l as [|a l IH]; intros Hnodup Hx HPx Honly.
  - by apply elem_of_nil in Hx.
  - apply NoDup_cons in Hnodup as [Ha Hnodup]. rewrite filter_cons.
    destruct (decide (P a)) as [HPa|HPa].
    + assert (a = x) as -> by (apply Honly; [left|done]).
      f_equal. apply filter_none. intros y Hy HPy.
      assert (y = x) as -> by (apply Honly; [by right|done]). done.
    + apply IH; [done| |done|].
      * apply elem_of_cons in Hx as [->|Hx]; done.
      * intros y Hy. apply Honly. by right.
Qed.

Lemma find_by_slug_unique s i c :
  find_by_id s i = Some c →
  (∀ j c', find_by_id s j = Some c' → slug c' = slug c → j = i) →
  find_by_slug s (slug c) = Some (i, c).
Proof.
  intros Hrow Honly. unfold find_by_slug.
  rewrite (filter_unique _ _ (i, c)); [done| | |done|].
  - apply NoDup_map_to_list.
  - by apply elem_of_map_to_list.
  - intros [j c'] Hj%elem_of_map_to_list Hslug. simpl in Hslug.
    assert (j = i) as -> by by apply (Honly j c').
    unfold find_by_id in Hrow. congruence.
Qed.

(** No row of the new store shares the slug of a row that came in under
    a fresh id, once the flush went through. *)
Lemma flush_error_None_fresh s i c j c' :
  find_by_id s i = None →
  flush_error s (with_row i c s) = None →
  find_by_id (with_row i c s) j = Some c' → slug c' = slug c → j = i.
Proof.
  intros Hfresh Hflush%flush_error_None_slug Hj Hslug.
  destruct (decide (j = i)) as [|Hne]; [done|]. destruct Hflush.
  apply map_Exists_lookup. exists i, c.
  split; [apply find_by_id_with_row|]. split.
  - unfold find_by_id in Hfresh. by rewrite Hfresh.
  - apply map_Exists_lookup. by exists j, c'.
Qed.

Lemma walk_avoids_fresh s new_id i :
  i ≠ new_id →
  (∀ j c, find_by_id s j = Some c → parent_id c ≠ Some new_id) →
  ∀ k, walk s (Some i) k ≠ Some new_id.
Proof.
  intros Hi Hpointed k. induction k as [|k IH]; [simpl; congruence|].
  rewrite walk_S_r.
  destruct (walk s (Some i) k) as [x|]; [|done].
  unfold parent_of. simpl.
  destruct (find_by_id s x) as [c|] eqn:Hx; [|done]. by apply (Hpointed x).
Qed.

Lemma grounded_fresh s new_id col i :
  i ≠ new_id →
  (∀ j c, find_by_id s j = Some c → parent_id c ≠ Some new_id) →
  grounded s i → grounded (with_row new_id col s) i.
Proof.
  intros Hi Hpointed [n Hn]. exists n.
  rewrite walk_with_row_avoid; [done|].
  intros k _. by apply walk_avoids_fresh.
Qed.

(** X18. A successful [create_collection] adds one row under the new id
    and changes nothing else. The row holds the validated name and slug
    and the arguments as given, with [item_count] 0; [find_by_slug] with
    the stored slug finds it; a parent with a true id has a row. Slugs
    that were unique stay unique, and a store without cycles, in which no
    row points at the new id, stays without cycles. *)
Theorem create_collection_adds_row (s s' : Store) (nm sl : string)
    (d : option string) (p : option Z) (o : bool) (cb : option User)
    (new_id : Z) (new_uuid : string) (r : Z * SpCollection) :
  find_by_id s new_id = None →
  run (create_collection nm sl d p o cb new_id new_uuid) s = (Return r, s') →
  r.1 = new_id ∧ s' = with_row new_id r.2 s ∧
  validate_name nm = Return (name r.2) ∧
  validate_slug sl = Return (slug r.2) ∧
  description r.2 = d ∧ parent_id r.2 = p ∧ is_official r.2 = o ∧
  item_count r.2 = 0 ∧ created_by_fk r.2 = (user_id <$> cb) ∧
  find_by_slug s' (slug r.2) = Some r ∧
  (live p → is_Some (find_by_id s (default 0 p))) ∧
  (slugs_unique s → slugs_unique s') ∧
  (new_id ≠ 0 →
   (∀ j c, find_by_id s j = Some c → parent_id c ≠ Some new_id) →
   acyclic s → acyclic s').
Proof.
  intros Hfresh
    (n' & sl' & -> & -> & Hname & Hslug & _ & Hparent & Hflush)%create_collection_success.
  simpl in *. set (col := mkSpCollection _ _ _ _ _ _ _ _ _) in *.
  repeat (split; [done|]). split; [|split; [|split]].
  - apply (find_by_slug_unique _ new_id col); [apply find_by_id_with_row|].
    intros j c' Hj Hsame. by apply (flush_error_None_fresh s new_id col j c').
  - intros Hlive. by apply Hparent.
  - intros Hunique i j c c' Hi Hj Hsame.
    destruct (decide (i = new_id)) as [->|Hin].
    { rewrite find_by_id_with_row in Hi. injection Hi as <-.
      symmetry. by apply (flush_error_None_fresh s new_id col j c'). }
    destruct (decide (j = new_id)) as [->|Hjn].
    { rewrite find_by_id_with_row in Hj. injection Hj as <-.
      by apply (flush_error_None_fresh s new_id col i c). }
    rewrite find_by_id_with_row_ne in Hi, Hj by done.
    by apply (Hunique i j c c').
  - intros Hzero Hpointed Hacyclic i.
    destruct (decide (i = new_id)) as [->|Hi];
      [|by apply grounded_fresh].
    destruct p as [q|].
    + apply (grounded_step _ _ q).
      * unfold parent_of. simpl. by rewrite find_by_id_with_row.
      * apply grounded_fresh; [|done|done]. intros ->.
        destruct Hparent as [[? Hrow] _]; [|simpl in Hrow; congruence].
        unfold live. simpl. unfold truthy.
        apply negb_true_iff. by apply Z.eqb_neq.
    + exists 1%nat. simpl. unfold parent_of. simpl.
      by rewrite find_by_id_with_row.
Qed.

Lemma create_collection_adds_row_witness :
  ∃ r s', run (create_collection " Four " " FOUR " None (Some 3) true
                 (Some (mkUser 9)) 4 "u4") line3 = (Return r, s') ∧
          r.1 = 4 ∧ name r.2 = "Four" ∧ slug r.2 = "four" ∧
          find_by_slug s' "four" = Some r ∧ acyclic s'.
Proof.
  pose (col := mkSpCollection "u4" "Four" "four" None (Some 3) true 0
                 (Some 9) None).
  assert (H : run (create_collection " Four " " FOUR " None (Some 3) true
                     (Some (mkUser 9)) 4 "u4") line3
              = (Return (4, col), with_row 4 col line3)) by (by vm_compute).
  exists (4, col), (with_row 4 col line3). split; [exact H|].
  assert (Hfresh : find_by_id line3 4 = None) by (by vm_compute).
  destruct (create_collection_adds_row _ _ _ _ _ _ _ _ _ _ _ Hfresh H)
    as (? & _ & _ & _ & _ & _ & _ & _ & _ & Hfind & _ & _ & Hacyclic).
  split; [done|]. split; [done|]. split; [done|]. split; [exact Hfind|].
  apply Hacyclic; [done| |].
  - assert (Hall : map_Forall (λ _ c, parent_id c ≠ Some 4)
                     (sp_collection line3))
      by (apply (bool_decide_unpack _); by vm_compute).
    intros j c Hj. exact (Hall j c Hj).
  - apply (acyclic_check _ 4). apply (bool_decide_unpack _). by vm_compute.
Defined.

(** ** The validators *)

Lemma app_String a (s t : string) :
  String.app (String a s) t = String a (String.app s t).
Proof. done. Qed.

Lemma string_app_nil_r (s : string) : String.app s "" = s.
Proof. induction s as [|a s IH]; [done|]. by rewrite app_String, IH. Qed.

Lemma rev_app_spec (s1 s2 : string) :
  String.rev_app s1 s2 = String.app (String.rev s1) s2.
Proof.
  unfold String.rev. revert s2.
  assert (H : ∀ s2 s3, String.rev_app s1 (String.app s2 s3)
                       = String.app (String.rev_app s1 s2) s3).
  { induction s1 as [|a s1 IH]; intros s2 s3; [done|].
    simpl. by rewrite <- IH. }
  intros s2. by rewrite <- H.
Qed.

Lemma rev_String a s :
  String.rev (String a s) = String.app (String.rev s) (String a "").
Proof. unfold String.rev at 1. simpl. apply rev_app_spec. Qed.

Lemma rev_snoc s a :
  String.rev (String.app s (String a "")) = String a (String.rev s).
Proof.
  induction s as [|b s IH]; [done|].
  by rewrite app_String, !rev_String, IH.
Qed.

Lemma rev_involutive s : String.rev (String.rev s) = s.
Proof.
  induction s as [|a s IH]; [done|]. by rewrite rev_String, rev_snoc, IH.
Qed.

(** No white space at the front. *)
Definition starts_clean (s : string) : Prop :=
  match s with
  | String c _ => is_space c = false
  | EmptyString => True
  end.

Lemma lstrip_starts_clean s : starts_clean (lstrip s).
Proof.
  induction s as [|c s IH]; [done|]. simpl.
  by destruct (is_space c) eqn:Hc.
Qed.

Lemma lstrip_id s : starts_clean s → lstrip s = s.
Proof. destruct s as [|c s]; [done|]. simpl. by intros ->. Qed.

Lemma lstrip_snoc s c :
  is_space c = false →
  lstrip (String.app s (String c "")) = String.app (lstrip s) (String c "").
Proof.
  intros Hc. induction s as [|a s IH]; [by simpl; rewrite Hc|].
  rewrite app_String. simpl. by destruct (is_space a).
Qed.

Lemma rstrip_id s : starts_clean (String.rev s) → rstrip s = s.
Proof. intros H. unfold rstrip. by rewrite lstrip_id, rev_involutive. Qed.

Lemma rstrip_ends_clean s : starts_clean (String.rev (rstrip s)).
Proof. unfold rstrip. rewrite rev_involutive. apply lstrip_starts_clean. Qed.

Lemma rstrip_starts_clean s : starts_clean s → starts_clean (rstrip s).
Proof.
  destruct s as [|c s]; [done|]. simpl. intros Hc. unfold rstrip.
  by rewrite rev_String, lstrip_snoc, rev_snoc.
Qed.

Lemma strip_idempotent s : strip (strip s) = strip s.
Proof.
  unfold strip at 1. rewrite lstrip_id.
  - apply rstrip_id. apply rstrip_ends_clean.
  - apply rstrip_starts_clean, lstrip_starts_clean.
Qed.

Lemma slug_char_not_space c : slug_char c = true → is_space c = false.
Proof. destruct c as [[] [] [] [] [] [] [] []]; by vm_compute. Qed.

Lemma slug_char_lower c : slug_char c = true → lower_char c = c.
Proof. destruct c as [[] [] [] [] [] [] [] []]; by vm_compute. Qed.

Lemma all_chars_app p s1 s2 :
  all_chars p (String.app s1 s2) = all_chars p s1 && all_chars p s2.
Proof.
  induction s1 as [|a s1 IH]; [done|].
  rewrite app_String. simpl. by rewrite IH, andb_assoc.
Qed.

Lemma all_chars_rev p s : all_chars p (String.rev s) = all_chars p s.
Proof.
  induction s as [|a s IH]; [done|].
  rewrite rev_String, all_chars_app, IH. simpl.
  by rewrite andb_true_r, andb_comm.
Qed.

Lemma all_chars_starts_clean s :
  all_chars slug_char s = true → starts_clean s.
Proof.
  destruct s as [|c s]; [done|]. simpl.
  intros [Hc _]%andb_true_iff. by apply slug_char_not_space.
Qed.

Lemma strip_slug s : all_chars slug_char s = true → strip s = s.
Proof.
  intros Hs. unfold strip.
  rewrite (lstrip_id s) by by apply all_chars_starts_clean.
  apply rstrip_id, all_chars_starts_clean. by rewrite all_chars_rev.
Qed.

Lemma lower_slug s : all_chars slug_char s = true → lower s = s.
Proof.
  induction s as [|c s IH]; [done|]. simpl.
  intros [Hc Hs]%andb_true_iff. by rewrite slug_char_lower, IH.
Qed.

(** X19. What [validate_slug] returns is the stripped, lower-cased
    argument; it is not empty, has only characters of [[a-z0-9-_]], is at
    most 255 long, and the validator returns it as it is: stored slugs
    are fixed points of the validator. *)
Theorem validate_slug_normal_form (sl v : string) :
  validate_slug sl = Return v →
  v = lower (strip sl) ∧ v ≠ "" ∧ all_chars slug_char v = true ∧
  (String.length v ≤ 255)%nat ∧ validate_slug v = Return v.
Proof.
  unfold validate_slug at 1.
  destruct (negb (str_truthy sl) || negb (str_truthy (strip sl))); [done|].
  simpl.
  destruct (str_truthy (lower (strip sl))
            && all_chars slug_char (lower (strip sl))) eqn:Hchars; [|done].
  simpl. destruct (255 <? _) eqn:Hlen; [done|]. intros [= <-].
  apply andb_true_iff in Hchars as [Hfull Hchars].
  apply Z.ltb_ge in Hlen.
  set (v := lower (strip sl)) in *.
  assert (Hne : v ≠ "").
  { unfold str_truthy in Hfull. apply negb_true_iff in Hfull.
    by apply bool_decide_eq_false in Hfull. }
  split; [done|]. split; [done|]. split; [done|]. split; [lia|].
  unfold validate_slug. rewrite (strip_slug v), (lower_slug v) by done.
  rewrite Hfull, Hchars. simpl.
  by rewrite (proj2 (Z.ltb_ge _ _)) by lia.
Qed.

Lemma validate_slug_normal_form_witness :
  validate_slug "  My-Slug_1 " = Return "my-slug_1" ∧
  validate_slug "my-slug_1" = Return "my-slug_1".
Proof.
  assert (H : validate_slug "  My-Slug_1 " = Return "my-slug_1")
    by (by vm_compute).
  split; [exact H|].
  by destruct (validate_slug_normal_form _ _ H) as (_ & _ & _ & _ & ?).
Defined.

(** X20. What [validate_name] returns is the argument without the white
    space around it; it is not empty and at most 255 long, and the
    validator returns it as it is. *)
Theorem validate_name_normal_form (nm v : string) :
  validate_name nm = Return v →
  v = strip nm ∧ v ≠ "" ∧ (String.length v ≤ 255)%nat ∧
  validate_name v = Return v.
Proof.
  unfold validate_name at 1.
  destruct (negb (str_truthy nm)); [done|]. simpl.
  destruct (str_truthy (strip nm)) eqn:Hfull; [|done]. simpl.
  destruct (255 <? _) eqn:Hlen; [done|]. intros [= <-].
  apply Z.ltb_ge in Hlen.
  assert (Hne : strip nm ≠ "").
  { unfold str_truthy in Hfull. apply negb_true_iff in Hfull.
    by apply bool_decide_eq_false in Hfull. }
  split; [done|]. split; [done|]. split; [lia|].
  unfold validate_name. rewrite strip_idempotent, Hfull. simpl.
  by rewrite (proj2 (Z.ltb_ge _ _)) by lia.
Qed.

Lemma validate_name_normal_form_witness :
  validate_name "  Sales  reports " = Return "Sales  reports" ∧
  validate_name "Sales  reports" = Return "Sales  reports".
Proof.
  assert (H : validate_name "  Sales  reports " = Return "Sales  reports")
    by (by vm_compute).
  split; [exact H|].
  by destruct (validate_name_normal_form _ _ H) as (_ & _ & _ & ?).
Defined.

(** ** [breadcrumb_path] *)

Lemma path_loop_acc fuel : ∀ s current acc,
  path_loop fuel s current acc = (λ l, l ++ acc) <$> path_loop fuel s current [].
Proof.
  induction fuel as [|fuel IH]; intros s current acc; [done|].
  simpl. destruct current as [cur|]; [|done].
  rewrite (IH _ _ (cur :: acc)), (IH _ _ [cur]).
  destruct (path_loop fuel s (parent s cur) []) as [l|]; [|done].
  simpl. by rewrite <- app_assoc.
Qed.

Lemma string_app_assoc (a b c : string) :
  String.app (String.app a b) c = String.app a (String.app b c).
Proof.
  induction a as [|x a IH]; [done|]. by rewrite !app_String, IH.
Qed.

Lemma concat_snoc (sep : string) (l : list string) (x : string) :
  l ≠ [] →
  String.concat sep (l ++ [x])
  = String.app (String.concat sep l) (String.app sep x).
Proof.
  induction l as [|a l IH]; intros Hne; [by destruct Hne|]. clear Hne.
  destruct l as [|b l]; [reflexivity|].
  change (String.concat sep ((a :: b :: l) ++ [x]))
    with (String.app a (String.app sep (String.concat sep ((b :: l) ++ [x])))).
  rewrite IH by done.
  change (String.concat sep (a :: b :: l))
    with (String.app a (String.app sep (String.concat sep (b :: l)))).
  by rewrite !string_app_assoc.
Qed.

(** X21. The breadcrumb of a collection without parent object is its
    name; the breadcrumb of a collection with a parent is the breadcrumb
    of the parent, [" > "], and its name. *)
Theorem breadcrumb_path_unfolds (fuel : nat) (s : Store)
    (self : Z * SpCollection) :
  match parent s self with
  | None => breadcrumb_path (S (S fuel)) s self = Some (name self.2)
  | Some upper =>
      breadcrumb_path (S fuel) s self
      = (λ b, String.app b (String.app " > " (name self.2)))
          <$> breadcrumb_path fuel s upper
  end.
Proof.
  unfold breadcrumb_path, path. simpl.
  destruct (parent s self) as [upper|] eqn:Hparent; [|done].
  rewrite path_loop_acc.
  destruct (path_loop fuel s (Some upper) []) as [l|] eqn:Hpath; [|done].
  simpl. f_equal. rewrite fmap_app. simpl. apply concat_snoc.
  destruct (path_loop_spec _ _ _ _ _ Hpath) as (pre & -> & _ & Hlast & _).
  rewrite app_nil_r. by destruct pre.
Qed.

(** ** [SpCollectionPermission.validate_permissions] *)

(** Curate permission implies view permission, as Python reads the two
    attributes. *)
Definition curate_implies_view (p : SpCollectionPermission) : bool :=
  implb (default false (can_curate p)) (default false (can_view p)).

(** X22. After [can_curate] was assigned, curate implies view on the
    object, whatever it held before: assigning [True] leaves [can_view]
    true, assigning [False] leaves [can_view] as it was. The validator
    guards this one assignment only: assigning [can_view = False]
    afterwards leaves an object that may curate and not view. *)
Theorem set_can_curate_implies_view (value : bool)
    (p : SpCollectionPermission) :
  curate_implies_view (set_can_curate value p) = true ∧
  can_curate (set_can_curate value p) = Some value ∧
  can_view (set_can_curate true p) = Some true ∧
  can_view (set_can_curate false p) = can_view p ∧
  perm_collection_id (set_can_curate value p) = perm_collection_id p ∧
  role_id (set_can_curate value p) = role_id p ∧
  curate_implies_view (set_can_view false (set_can_curate true p)) = false.
Proof.
  destruct p as [c r [[]|] k], value; by vm_compute.
Qed.

Lemma can_be_moved_to_iff_witness :
  can_be_moved_to line3 (Some 3) (Some 1) = true.
Proof.
  apply (proj2 (can_be_moved_to_iff line3 3 1)). split; [done|].
  exists 1%nat. split; [by vm_compute|]. split.
  - intros k Hk. assert (k = 0%nat) as -> by lia. by vm_compute.
  - intros k Hk. assert (k = 0%nat) as -> by lia. by vm_compute.
Defined.

Lemma get_tree_capped_witness :
  ∃ tree, get_tree 2 ring2 (Some 1) (Some 1) None = Some tree ∧
          Forall (λ node, 0 ≤ node_depth node ≤ 1) (all_nodes tree).
Proof.
  destruct (get_tree_capped ring2 (Some 1) 1 None) as (tree & Htree & Hdepth).
  exists tree. split; [apply Htree; vm_compute; lia|exact Hdepth].
Defined.

(** ** api.py: the loops of [add_items] and [remove_items] *)


(** The [for item in data["items"]] loop of [add_items]; an item is its
    type and its id, as the schema leaves them, and [clock k] is the time
    at the [k]-th call. An entry of [errors] is the item and the
    exception whose text the message shows. *)
Fixpoint add_items_loop (pk : Z) (user : option User) (clock : nat → Z)
    (items : list (CollectionItemType * Z)) (k : nat) (added_count : Z)
    (errors : list (CollectionItemType * Z * Exn)) : M (Z * list (CollectionItemType * Z * Exn)) :=
  match items with
  | [] => ret (added_count, errors)
  | item :: rest =>
      r ← try_except
            (add_item_to_collection pk item.1 item.2 user (clock k);;
             ret None)
            (λ ex, ret (Some ex));
      match r with
      | None =>
          add_items_loop pk user clock rest (S k) (added_count + 1) errors
      | Some ex =>
          add_items_loop pk user clock rest (S k) added_count
            (errors ++ [(item, ex)])
      end
  end.

Definition add_items (pk : Z) (user : option User) (clock : nat → Z)
    (items : list (CollectionItemType * Z)) : M (Z * list (CollectionItemType * Z * Exn)) :=
  add_items_loop pk user clock items 0 0 [].

(** The loop of [remove_items]. *)
Fixpoint remove_items_loop (pk : Z) (items : list (CollectionItemType * Z))
    (removed_count : Z) (errors : list (CollectionItemType * Z * Exn))
  : M (Z * list (CollectionItemType * Z * Exn)) :=
  match items with
  | [] => ret (removed_count, errors)
  | item :: rest =>
      r ← try_except
            (remove_item_from_collection pk item.1 item.2;; ret None)
            (λ ex, ret (Some ex));
      match r with
      | None => remove_items_loop pk rest (removed_count + 1) errors
      | Some ex =>
          remove_items_loop pk rest removed_count (errors ++ [(item, ex)])
      end
  end.

Definition remove_items (pk : Z) (items : list (CollectionItemType * Z))
  : M (Z * list (CollectionItemType * Z * Exn)) :=
  remove_items_loop pk items 0 [].

(** A DAO call that starts without pending changes ends without. *)
Lemma session_of_run {A} (m : M A) (s : Store) :
  working (m (fresh s)).2 = committed (m (fresh s)).2 →
  m (fresh s) = ((run m s).1, fresh (run m s).2).
Proof.
  unfold run. destruct (m (fresh s)) as [r [cm w]]. simpl. by intros ->.
Qed.

Lemma add_item_clean s cid t iid u now :
  working (add_item_to_collection cid t iid u now (fresh s)).2
  = committed (add_item_to_collection cid t iid u now (fresh s)).2.
Proof.
  unfold add_item_to_collection. rewrite bind_query. simpl.
  destruct (find_by_id s cid) as [c|] eqn:Hrow; [|done].
  destruct (item_exists_in_collection s cid t iid); [done|].
  unfold try_except, session_add_link, set_item_count, fresh.
  rewrite bind_modify. simpl. unfold mbind, M_bind, bind.
  rewrite (setattr_eq _ _ _ _ _ _ c) by by destruct t.
  simpl. unfold commit. simpl.
  destruct (flush_error s _) as [k|]; [|done]. simpl.
  by destruct (mentions_uq_collection k).
Qed.

Lemma remove_item_clean s cid t iid :
  working (remove_item_from_collection cid t iid (fresh s)).2
  = committed (remove_item_from_collection cid t iid (fresh s)).2.
Proof.
  unfold remove_item_from_collection. rewrite bind_query. simpl.
  destruct (find_by_id s cid) as [c|] eqn:Hrow; [|done].
  destruct (head _); [|done].
  unfold try_except, set_item_count, fresh.
  rewrite bind_modify. simpl. unfold mbind, M_bind, bind.
  rewrite (setattr_eq _ _ _ _ _ _ c) by by rewrite find_by_id_set_link_table.
  simpl. unfold commit. simpl.
  by destruct (flush_error s _) as [k|].
Qed.

(** One turn of the loop of [add_items], by the outcome of the call. *)
Lemma add_items_loop_step pk u clock item rest k n errs s :
  add_items_loop pk u clock (item :: rest) k n errs (fresh s)
  = match run (add_item_to_collection pk item.1 item.2 u (clock k)) s with
    | (Return _, s1) =>
        add_items_loop pk u clock rest (S k) (n + 1) errs (fresh s1)
    | (Raise ex, s1) =>
        add_items_loop pk u clock rest (S k) n (errs ++ [(item, ex)]) (fresh s1)
    end.
Proof.
  simpl. unfold mbind at 1, M_bind at 1, bind at 1, try_except.
  unfold mbind at 1, M_bind at 1, bind at 1.
  rewrite (session_of_run _ s (add_item_clean s pk item.1 item.2 u (clock k))).
  by destruct (run _ s) as [[b|ex] s1].
Qed.

Lemma remove_items_loop_step pk item rest n errs s :
  remove_items_loop pk (item :: rest) n errs (fresh s)
  = match run (remove_item_from_collection pk item.1 item.2) s with
    | (Return _, s1) => remove_items_loop pk rest (n + 1) errs (fresh s1)
    | (Raise ex, s1) =>
        remove_items_loop pk rest n (errs ++ [(item, ex)]) (fresh s1)
    end.
Proof.
  simpl. unfold mbind at 1, M_bind at 1, bind at 1, try_except.
  unfold mbind at 1, M_bind at 1, bind at 1.
  rewrite (session_of_run _ s (remove_item_clean s pk item.1 item.2)).
  by destruct (run _ s) as [[b|ex] s1].
Qed.

Lemma add_item_missing s cid t iid u now :
  find_by_id s cid = None →
  run (add_item_to_collection cid t iid u now) s
  = (Raise CollectionNotFoundError, s).
Proof. intros Hrow. enter_dao add_item_to_collection. by rewrite Hrow. Qed.

Lemma find_by_id_added s cid c t iid u now j :
  find_by_id s cid = Some c →
  find_by_id (added s cid c t iid u now) j
  = if decide (j = cid) then Some (with_item_count (item_count c + 1) c)
    else find_by_id s j.
Proof.
  intros Hrow. unfold added. destruct (decide (j = cid)) as [->|Hne].
  - by rewrite find_by_id_with_row.
  - by rewrite find_by_id_with_row_ne, find_by_id_set_link_table.
Qed.

Lemma item_exists_added s cid c t iid u now t' iid' :
  item_exists_in_collection (added s cid c t iid u now) cid t' iid'
  = item_exists_in_collection s cid t' iid'
    || bool_decide ((t', iid') = (t, iid)).
Proof.
  apply Bool.eq_iff_eq_true.
  rewrite orb_true_iff, !item_exists_true, bool_decide_eq_true.
  unfold added. rewrite link_table_with_row.
  destruct (decide (t = t')) as [<-|Hne].
  - rewrite link_table_set_link_table, Exists_app, Exists_cons, Exists_nil.
    unfold link_matches at 2. simpl. split.
    + intros [?|[[_ ->]|[]]]; [by left|by right].
    + intros [?|[= ->]]; [by left|right; by left].
  - rewrite link_table_set_link_table_ne by done. split; [by left|].
    by intros [?|[= ? _]].
Qed.

(** What the loop of [add_items] records for an item it could not add. *)
Definition add_items_error (s : Store) (pk : Z)
    (e : CollectionItemType * Z * Exn) : Prop :=
  e.2 = CollectionNotFoundError ∧ find_by_id s pk = None ∨
  e.2 = CollectionItemAlreadyExistsError ∨
  e.2 = IntegrityError (fk_link_item e.1.1) ∧
  in_catalogue s e.1.1 e.1.2 = false.

Lemma bool_decide_elem_of_cons_ne {A} `{EqDecision A} (x y : A) (l : list A) :
  x ≠ y → bool_decide (x ∈ y :: l) = bool_decide (x ∈ l).
Proof.
  intros Hne. apply bool_decide_ext. rewrite elem_of_cons.
  split; [by intros [?|?]|by right].
Qed.

Lemma add_items_loop_spec pk u clock items : ∀ k n errs s,
  ∃ n' errs' s',
    add_items_loop pk u clock items k n errs (fresh s)
    = (Return (n + n', errs ++ errs'), fresh s') ∧
    n' + Z.of_nat (length errs') = Z.of_nat (length items) ∧ 0 ≤ n' ∧
    Forall (λ e, e.1 ∈ items ∧ add_items_error s pk e) errs' ∧
    (∀ t i, in_catalogue s' t i = in_catalogue s t i) ∧
    match find_by_id s pk with
    | None => n' = 0 ∧ s' = s
    | Some c =>
        find_by_id s' pk = Some (with_item_count (item_count c + n') c) ∧
        total_item_count s' pk = total_item_count s pk + n' ∧
        (∀ j, j ≠ pk → find_by_id s' j = find_by_id s j ∧
                       total_item_count s' j = total_item_count s j) ∧
        (∀ t i, item_exists_in_collection s' pk t i
                = item_exists_in_collection s pk t i
                  || bool_decide ((t, i) ∈ items) && in_catalogue s t i)
    end.
Proof.
  induction items as [|[t0 i0] rest IH]; intros k n errs s.
  - exists 0, [], s. rewrite Z.add_0_r, app_nil_r.
    split; [done|]. split; [done|]. split; [done|]. split; [done|].
    split; [done|].
    destruct (find_by_id s pk) as [c|] eqn:Hrow; [|done].
    rewrite Z.add_0_r, with_item_count_id.
    split; [done|]. split; [lia|]. split; [done|].
    intros t i. rewrite bool_decide_eq_false_2 by apply not_elem_of_nil.
    by rewrite orb_false_r.
  - rewrite add_items_loop_step. cbn [fst snd].
    destruct (find_by_id s pk) as [c|] eqn:Hrow.
    + destruct (item_exists_in_collection s pk t0 i0) eqn:Hex;
        [|destruct (in_catalogue s t0 i0) eqn:Hcat].
      * rewrite (add_item_again s pk c) by done. cbv beta iota.
        destruct (IH (S k) n
                    (errs ++ [((t0, i0), CollectionItemAlreadyExistsError)]) s)
          as (n' & errs' & s' & Hrun & Hcount & Hpos & Herrs & Hcats & Hpost).
        rewrite Hrow in Hpost.
        destruct Hpost as (Hrow' & Htotal & Hothers & Hexists).
        exists n', (((t0, i0), CollectionItemAlreadyExistsError) :: errs'), s'.
        split; [by rewrite Hrun, <- app_assoc|].
        split; [simpl length; lia|]. split; [done|]. split.
        { apply Forall_cons. split; [split; [left|right; by left]|].
          eapply Forall_impl; [exact Herrs|].
          intros e [He Hkind]. split; [by right|done]. }
        split; [done|].
        split; [done|]. split; [done|]. split; [done|].
        intros t i. rewrite Hexists.
        destruct (decide ((t, i) = (t0, i0))) as [[= -> ->]|Hne].
        -- by rewrite Hex.
        -- by rewrite bool_decide_elem_of_cons_ne.
      * rewrite (add_item_new s pk c) by done. cbv beta iota.
        set (s1 := added s pk c t0 i0 u (clock k)).
        assert (Hrow1 : find_by_id s1 pk
                        = Some (with_item_count (item_count c + 1) c)).
        { unfold s1. rewrite (find_by_id_added s pk c) by done.
          by rewrite decide_True. }
        assert (Hcat1 : ∀ t i, in_catalogue s1 t i = in_catalogue s t i).
        { intros t i. unfold s1. apply in_catalogue_added. }
        destruct (IH (S k) (n + 1) errs s1)
          as (n' & errs' & s' & Hrun & Hcount & Hpos & Herrs & Hcats & Hpost).
        rewrite Hrow1 in Hpost. simpl in Hpost.
        destruct Hpost as (Hrow' & Htotal & Hothers & Hexists).
        exists (1 + n'), errs', s'.
        split; [by rewrite Hrun, <- Z.add_assoc|].
        split; [simpl length; lia|]. split; [lia|]. split.
        { eapply Forall_impl; [exact Herrs|].
          intros e [He Hkind]. split; [by right|].
          destruct Hkind as [[_ Hnone]|[?|[? Hnot]]]; [congruence| |].
          - right. by left.
          - right. right. by rewrite <- Hcat1. }
        split; [intros t i; by rewrite Hcats|].
        split; [rewrite Hrow'; unfold with_item_count; simpl; do 2 f_equal; lia|].
        split.
        { rewrite Htotal. unfold s1. rewrite total_item_count_added.
          rewrite decide_True by done. lia. }
        split.
        { intros j Hj. destruct (Hothers j Hj) as [-> ->]. unfold s1.
          rewrite (find_by_id_added s pk c) by done.
          rewrite decide_False by done. split; [done|].
          rewrite total_item_count_added.
          rewrite decide_False by done. lia. }
        intros t i. rewrite Hexists, Hcat1. unfold s1.
        rewrite item_exists_added.
        destruct (decide ((t, i) = (t0, i0))) as [[= -> ->]|Hne].
        -- rewrite Hcat, bool_decide_eq_true_2 by done.
           rewrite (bool_decide_eq_true_2 ((t0, i0) ∈ (t0, i0) :: rest))
             by left.
           by rewrite !orb_true_r.
        -- rewrite bool_decide_eq_false_2 by done.
           by rewrite orb_false_r, bool_decide_elem_of_cons_ne.
      * rewrite (add_item_absent s pk c) by done. cbv beta iota.
        destruct (IH (S k) n
                    (errs ++ [((t0, i0), IntegrityError (fk_link_item t0))]) s)
          as (n' & errs' & s' & Hrun & Hcount & Hpos & Herrs & Hcats & Hpost).
        rewrite Hrow in Hpost.
        destruct Hpost as (Hrow' & Htotal & Hothers & Hexists).
        exists n', (((t0, i0), IntegrityError (fk_link_item t0)) :: errs'), s'.
        split; [by rewrite Hrun, <- app_assoc|].
        split; [simpl length; lia|]. split; [done|]. split.
        { apply Forall_cons. split; [split; [left|right; by right]|].
          eapply Forall_impl; [exact Herrs|].
          intros e [He Hkind]. split; [by right|done]. }
        split; [done|].
        split; [done|]. split; [done|]. split; [done|].
        intros t i. rewrite Hexists.
        destruct (decide ((t, i) = (t0, i0))) as [[= -> ->]|Hne].
        -- by rewrite Hcat, !andb_false_r.
        -- by rewrite bool_decide_elem_of_cons_ne.
    + rewrite (add_item_missing s pk) by done. cbv beta iota.
      destruct (IH (S k) n (errs ++ [((t0, i0), CollectionNotFoundError)]) s)
        as (n' & errs' & s' & Hrun & Hcount & Hpos & Herrs & Hcats & Hpost).
      rewrite Hrow in Hpost. destruct Hpost as [-> ->].
      exists 0, (((t0, i0), CollectionNotFoundError) :: errs'), s.
      split; [by rewrite Hrun, <- app_assoc|].
      split; [simpl length; lia|]. split; [done|]. split; [|done].
      apply Forall_cons. split; [split; [left|by left]|].
      eapply Forall_impl; [exact Herrs|].
      intros e [He Hkind]. split; [by right|done].
Qed.

(** X23. The loop of [add_items] swallows every exception of
    [add_item_to_collection], so it always comes to its end: every item
    is counted once, as added or as an error. An error is
    [CollectionNotFoundError] (the collection has no row),
    [CollectionItemAlreadyExistsError], or the [IntegrityError] of the
    foreign key of the link on its item (the item is not in the catalogue
    of its type). The catalogues are as they were. Without a row for the
    collection nothing is added and the store is as it was. With one, its
    [item_count] and the number of its links go up by the number added,
    its other columns, the audit column apart, and the other collections
    are as they were, and afterwards the items in the collection are
    those that were in it and those of the request that are in the
    catalogue. *)
Theorem add_items_batch (s : Store) (pk : Z) (u : option User)
    (clock : nat → Z) (items : list (CollectionItemType * Z)) :
  ∃ n errs s',
    run (add_items pk u clock items) s = (Return (n, errs), s') ∧
    n + Z.of_nat (length errs) = Z.of_nat (length items) ∧ 0 ≤ n ∧
    Forall (λ e, e.1 ∈ items ∧ add_items_error s pk e) errs ∧
    (∀ t i, in_catalogue s' t i = in_catalogue s t i) ∧
    match find_by_id s pk with
    | None => n = 0 ∧ s' = s
    | Some c =>
        (∃ c', find_by_id s' pk = Some c' ∧
               item_count c' = item_count c + n ∧
               unaudited c'
               = unaudited (with_item_count (item_count c + n) c)) ∧
        total_item_count s' pk = total_item_count s pk + n ∧
        (∀ j, j ≠ pk → find_by_id s' j = find_by_id s j ∧
                       total_item_count s' j = total_item_count s j) ∧
        (∀ t i, item_exists_in_collection s' pk t i
                = item_exists_in_collection s pk t i
                  || bool_decide ((t, i) ∈ items) && in_catalogue s t i)
    end.
Proof.
  destruct (add_items_loop_spec pk u clock items 0 0 [] s)
    as (n & errs & s' & Hrun & Hcount & Hpos & Herrs & Hcats & Hpost).
  exists n, errs, s'.
  split; [unfold run, add_items; by rewrite Hrun|].
  split; [done|]. split; [done|]. split; [done|]. split; [done|].
  destruct (find_by_id s pk) as [c|]; [|done].
  destruct Hpost as (Hrow & Hrest). split; [|done]. by eexists.
Qed.

Lemma remove_item_no_row s cid t iid :
  find_by_id s cid = None →
  run (remove_item_from_collection cid t iid) s
  = (Raise CollectionNotFoundError, s).
Proof.
  intros Hrow. enter_dao remove_item_from_collection. by rewrite Hrow.
Qed.

Lemma find_by_id_removed s cid c t iid j :
  find_by_id (removed s cid c t iid) j
  = if decide (j = cid)
    then Some (with_item_count (Z.max 0 (item_count c - 1)) c)
    else find_by_id s j.
Proof.
  unfold removed. destruct (decide (j = cid)) as [->|Hne].
  - by rewrite find_by_id_with_row.
  - by rewrite find_by_id_with_row_ne, find_by_id_set_link_table.
Qed.

Lemma Exists_delete_first cid iid iid' l :
  iid' ≠ iid →
  Exists (link_matches cid iid') (delete_first cid iid l)
  ↔ Exists (link_matches cid iid') l.
Proof.
  intros Hne. induction l as [|x l IH]; [done|]. simpl.
  destruct (decide (link_matches cid iid x)) as [[_ Hx]|Hx].
  - rewrite Exists_cons. split; [by right|].
    intros [[_ Hx']|?]; [congruence|done].
  - by rewrite !Exists_cons, IH.
Qed.

Lemma item_exists_removed s cid c t iid t' iid' :
  (t', iid') ≠ (t, iid) →
  item_exists_in_collection (removed s cid c t iid) cid t' iid'
  = item_exists_in_collection s cid t' iid'.
Proof.
  intros Hne. unfold item_exists_in_collection, removed.
  apply bool_decide_ext. rewrite link_table_with_row.
  destruct (decide (t = t')) as [<-|Ht].
  - rewrite link_table_set_link_table. apply Exists_delete_first. congruence.
  - by rewrite link_table_set_link_table_ne.
Qed.

Lemma remove_items_loop_spec pk items : ∀ n errs s,
  ∃ n' errs' s',
    remove_items_loop pk items n errs (fresh s)
    = (Return (n + n', errs ++ errs'), fresh s') ∧
    n' + Z.of_nat (length errs') = Z.of_nat (length items) ∧ 0 ≤ n' ∧
    Forall (λ e, e.1 ∈ items ∧
                 (e.2 = CollectionNotFoundError ∧ find_by_id s pk = None ∨
                  e.2 = CollectionItemNotFoundError)) errs' ∧
    match find_by_id s pk with
    | None => n' = 0 ∧ s' = s
    | Some c =>
        find_by_id s' pk
        = Some (with_item_count
                  (if decide (n' = 0) then item_count c
                   else Z.max 0 (item_count c - n')) c) ∧
        total_item_count s' pk = total_item_count s pk - n' ∧
        (∀ j, j ≠ pk → find_by_id s' j = find_by_id s j ∧
                       total_item_count s' j = total_item_count s j) ∧
        (∀ t i, (t, i) ∉ items →
                item_exists_in_collection s' pk t i
                = item_exists_in_collection s pk t i)
    end.
Proof.
  induction items as [|[t0 i0] rest IH]; intros n errs s.
  - exists 0, [], s. rewrite Z.add_0_r, app_nil_r.
    split; [done|]. split; [done|]. split; [done|]. split; [done|].
    destruct (find_by_id s pk) as [c|] eqn:Hrow; [|done].
    rewrite decide_True, with_item_count_id by done.
    split; [done|]. split; [lia|]. by split.
  - rewrite remove_items_loop_step. cbn [fst snd].
    destruct (find_by_id s pk) as [c|] eqn:Hrow.
    + destruct (decide (Exists (link_matches pk i0) (link_table t0 s)))
        as [Hfound|Hmissing].
      * rewrite (remove_item_run s pk c) by done. cbv beta iota.
        set (s1 := removed s pk c t0 i0).
        assert (Hrow1 : find_by_id s1 pk
                        = Some (with_item_count (Z.max 0 (item_count c - 1)) c)).
        { unfold s1. by rewrite find_by_id_removed, decide_True. }
        destruct (IH (n + 1) errs s1)
          as (n' & errs' & s' & Hrun & Hcount & Hpos & Herrs & Hpost).
        rewrite Hrow1 in Hpost. simpl in Hpost.
        destruct Hpost as (Hrow' & Htotal & Hothers & Hexists).
        exists (1 + n'), errs', s'.
        split; [by rewrite Hrun, <- Z.add_assoc|].
        split; [simpl length; lia|]. split; [lia|]. split.
        { eapply Forall_impl; [exact Herrs|].
          intros e [He Hkind]. split; [by right|].
          destruct Hkind as [[_ Hnone]|?]; [congruence|by right]. }
        split.
        { rewrite Hrow'. rewrite (decide_False (P := 1 + n' = 0)) by lia.
          unfold with_item_count. simpl. do 2 f_equal.
          destruct (decide (n' = 0)); lia. }
        split.
        { rewrite Htotal. unfold s1.
          rewrite (total_item_count_removed s pk c t0 i0 pk) by done.
          rewrite decide_True by done. lia. }
        split.
        { intros j Hj. destruct (Hothers j Hj) as [-> ->]. unfold s1.
          rewrite find_by_id_removed, decide_False by done. split; [done|].
          rewrite (total_item_count_removed s pk c t0 i0 j) by done.
          rewrite decide_False by done. lia. }
        intros t i Hnot. apply not_elem_of_cons in Hnot as [Hne Hnot].
        rewrite Hexists by done. unfold s1. by apply item_exists_removed.
      * apply Forall_Exists_neg in Hmissing.
        rewrite (remove_item_missing s pk c) by done. cbv beta iota.
        destruct (IH n (errs ++ [((t0, i0), CollectionItemNotFoundError)]) s)
          as (n' & errs' & s' & Hrun & Hcount & Hpos & Herrs & Hpost).
        rewrite Hrow in Hpost.
        destruct Hpost as (Hrow' & Htotal & Hothers & Hexists).
        exists n', (((t0, i0), CollectionItemNotFoundError) :: errs'), s'.
        split; [by rewrite Hrun, <- app_assoc|].
        split; [simpl length; lia|]. split; [done|]. split.
        { apply Forall_cons. split; [split; [left|by right]|].
          eapply Forall_impl; [exact Herrs|].
          intros e [He Hkind]. split; [by right|].
          destruct Hkind as [[_ Hnone]|?]; [congruence|by right]. }
        split; [done|]. split; [done|]. split; [done|].
        intros t i Hnot. apply not_elem_of_cons in Hnot as [_ Hnot].
        by apply Hexists.
    + rewrite (remove_item_no_row s pk) by done. cbv beta iota.
      destruct (IH n (errs ++ [((t0, i0), CollectionNotFoundError)]) s)
        as (n' & errs' & s' & Hrun & Hcount & Hpos & Herrs & Hpost).
      rewrite Hrow in Hpost. destruct Hpost as [-> ->].
      exists 0, (((t0, i0), CollectionNotFoundError) :: errs'), s.
      split; [by rewrite Hrun, <- app_assoc|].
      split; [simpl length; lia|]. split; [done|]. split; [|done].
      apply Forall_cons. split; [split; [left|by left]|].
      eapply Forall_impl; [exact Herrs|].
      intros e [He Hkind]. split; [by right|].
      destruct Hkind as [[? _]|?]; [by left|by right].
Qed.

(** X24. The loop of [remove_items] swallows every exception of
    [remove_item_from_collection] and always comes to its end: every
    item is counted once, as removed or as an error, and an error is
    [CollectionNotFoundError] (the collection has no row) or
    [CollectionItemNotFoundError]. Without a row for the collection
    nothing is removed and the store is as it was. With one, the number
    of its links goes down by the number removed, its [item_count] is
    what it was when nothing was removed and else that count less the
    number removed, not below 0; the other collections are as they were,
    and an item that the request does not name is in the collection
    afterwards exactly when it was before. *)
Theorem remove_items_batch (s : Store) (pk : Z)
    (items : list (CollectionItemType * Z)) :
  ∃ n errs s',
    run (remove_items pk items) s = (Return (n, errs), s') ∧
    n + Z.of_nat (length errs) = Z.of_nat (length items) ∧ 0 ≤ n ∧
    Forall (λ e, e.1 ∈ items ∧
                 (e.2 = CollectionNotFoundError ∧ find_by_id s pk = None ∨
                  e.2 = CollectionItemNotFoundError)) errs ∧
    match find_by_id s pk with
    | None => n = 0 ∧ s' = s
    | Some c =>
        find_by_id s' pk
        = Some (with_item_count
                  (if decide (n = 0) then item_count c
                   else Z.max 0 (item_count c - n)) c) ∧
        total_item_count s' pk = total_item_count s pk - n ∧
        (∀ j, j ≠ pk → find_by_id s' j = find_by_id s j ∧
                       total_item_count s' j = total_item_count s j) ∧
        (∀ t i, (t, i) ∉ items →
                item_exists_in_collection s' pk t i
                = item_exists_in_collection s pk t i)
    end.
Proof.
  destruct (remove_items_loop_spec pk items 0 [] s)
    as (n & errs & s' & Hrun & Hpost).
  exists n, errs, s'. split; [|exact Hpost].
  unfold run, remove_items. by rewrite Hrun.
Qed.

(** ** [get_collection_items]: limit and offset *)

Lemma length_bucket_limit {B} (want : bool) (f : Link → option B) (L : N)
    offset (l : list Link) :
  (0 < L)%N →
  (length (if want then omap f (paginate (Some L) offset l) else [])
   ≤ N.to_nat L)%nat.
Proof.
  intros HL. destruct want; simpl; [|lia].
  etrans; [apply length_omap_le|]. unfold paginate. simpl.
  rewrite (proj2 (N.eqb_neq L 0)) by lia. simpl.
  rewrite length_take. lia.
Qed.

(** One link of each type on collection 5, every item in its catalogue. *)
Definition one_of_each : Store :=
  mkStore (<[5 := example_row "five" "five" None]> ∅)
    [mkLink 5 1 None 7] [mkLink 5 2 None 8] [mkLink 5 3 None 9]
    (<[1 := mkDashboard "d1" None "/d/1"]> ∅)
    (<[2 := mkSlice "c2" "bar" "/c/2"]> ∅)
    (<[3 := mkSqlaTable "t3" None (Some "db")]> ∅).

(** X25. [get_collection_items] reads [limit] and [offset] by their
    truth value: a limit of 0 is no limit and an offset of 0 no offset.
    A limit above 0 bounds each of the three buckets on its own, so
    [total_count] is at most the limit when an item type is given and at
    most three times the limit when none is. *)
Theorem get_collection_items_limit (s : Store) (cid : Z)
    (item_type : option CollectionItemType) (limit offset : option N) :
  get_collection_items s cid item_type (Some 0%N) offset
  = get_collection_items s cid item_type None offset ∧
  get_collection_items s cid item_type limit (Some 0%N)
  = get_collection_items s cid item_type limit None ∧
  ∀ L r, (0 < L)%N →
    get_collection_items s cid item_type (Some L) offset = Return r →
    (length (items_dashboards r) ≤ N.to_nat L)%nat ∧
    (length (items_charts r) ≤ N.to_nat L)%nat ∧
    (length (items_datasets r) ≤ N.to_nat L)%nat ∧
    total_count r ≤ (match item_type with Some _ => 1 | None => 3 end) * Z.of_N L.
Proof.
  split; [done|]. split; [done|]. intros L r HL.
  unfold get_collection_items. destruct (find_by_id s cid); [|done].
  intros [= <-]. simpl.
  pose proof (length_bucket_limit (wants item_type DASHBOARD)
                (dashboard_item s) L offset
                (links_of cid (sp_collection_dashboard s)) HL) as Hd.
  pose proof (length_bucket_limit (wants item_type CHART)
                (chart_item s) L offset
                (links_of cid (sp_collection_chart s)) HL) as Hc.
  pose proof (length_bucket_limit (wants item_type DATASET)
                (dataset_item s) L offset
                (links_of cid (sp_collection_dataset s)) HL) as Ht.
  split; [done|]. split; [done|]. split; [done|].
  destruct item_type as [[]|]; simpl in *; lia.
Qed.

Lemma get_collection_items_limit_witness :
  ∃ r, get_collection_items one_of_each 5 None (Some 1%N) None = Return r ∧
       total_count r = 3 ∧ total_count r ≤ 3 * Z.of_N 1.
Proof.
  assert (H : ∃ r, get_collection_items one_of_each 5 None (Some 1%N) None
                   = Return r ∧ total_count r = 3)
    by (eexists; split; by vm_compute).
  destruct H as (r & Hr & Htotal). exists r. split; [exact Hr|].
  split; [exact Htotal|].
  apply (proj2 (proj2 (get_collection_items_limit one_of_each 5 None None
                         None)) 1%N r); [lia|exact Hr].
Defined.

(** ** schemas.py: the slug of a request *)

Definition newline : ascii := ascii_of_N 10.

(** The string without the one newline it may end with. *)
Definition chomp (x : string) : string :=
  match String.rev x with
  | String c r => if bool_decide (c = newline) then String.rev r else x
  | EmptyString => x
  end.

(** [re.match(r"^[a-z0-9-_]+$", x)]: one or more characters of the class
    up to the end of the string, where [$] is the end or the place before
    a newline that ends the string. *)
Definition slug_pattern_matches (x : string) : bool :=
  let body := chomp x in
  str_truthy body && all_chars slug_char body.

(** [Length(min=lo, max=hi)] *)
Definition length_between (lo hi : nat) (x : string) : bool :=
  (lo <=? String.length x)%nat && (String.length x <=? hi)%nat.

(** What [CollectionCreateSchema] and [CollectionUpdateSchema] ask of a
    slug that is given: the [Length] of the field, and [validate_slug] of
    the schema. *)
Definition schema_slug_ok (sl : string) : bool :=
  length_between 1 255 sl
  && (if str_truthy sl then slug_pattern_matches (lower sl) else true).

Lemma chomp_spec x :
  chomp x = x ∨ x = String.app (chomp x) (String newline "").
Proof.
  unfold chomp. destruct (String.rev x) as [|c r] eqn:Hrev; [by left|].
  case_bool_decide as Hc; [|by left]. right. subst c.
  by rewrite <- (rev_involutive x), Hrev, rev_String.
Qed.

Lemma lower_app a b : lower (String.app a b) = String.app (lower a) (lower b).
Proof.
  induction a as [|c a IH]; [done|]. rewrite app_String. simpl.
  by rewrite IH.
Qed.

Lemma lower_rev x : lower (String.rev x) = String.rev (lower x).
Proof.
  induction x as [|c x IH]; [done|]. simpl.
  by rewrite !rev_String, lower_app, IH.
Qed.

Lemma lower_char_newline c : lower_char c = newline ↔ c = newline.
Proof.
  destruct c as [[] [] [] [] [] [] [] []]; vm_compute; split; congruence.
Qed.

Lemma chomp_lower x : chomp (lower x) = lower (chomp x).
Proof.
  unfold chomp. rewrite <- lower_rev.
  destruct (String.rev x) as [|c r]; [done|]. simpl.
  rewrite (bool_decide_ext _ _ (lower_char_newline c)).
  case_bool_decide; [|done]. by rewrite lower_rev.
Qed.

Lemma lower_slug_not_space c :
  slug_char (lower_char c) = true → is_space c = false.
Proof. destruct c as [[] [] [] [] [] [] [] []]; by vm_compute. Qed.

Lemma lower_slug_starts_clean x :
  all_chars slug_char (lower x) = true → starts_clean x.
Proof.
  destruct x as [|c x]; [done|]. simpl.
  intros [Hc _]%andb_true_iff. by apply lower_slug_not_space.
Qed.

Lemma string_length_app a b :
  String.length (String.app a b) = (String.length a + String.length b)%nat.
Proof.
  induction a as [|c a IH]; [done|]. rewrite app_String. simpl. by rewrite IH.
Qed.

Lemma string_length_lower x : String.length (lower x) = String.length x.
Proof. induction x as [|c x IH]; [done|]. simpl. by rewrite IH. Qed.

(** Around a body whose lower-cased characters are of the class, there is
    nothing to strip but the newline at the end. *)
Lemma strip_body b x :
  b ≠ "" → all_chars slug_char (lower b) = true →
  x = b ∨ x = String.app b (String newline "") →
  strip x = b.
Proof.
  intros Hne Hchars Hx.
  assert (Hfront : starts_clean b) by by apply lower_slug_starts_clean.
  assert (Hback : starts_clean (String.rev b)).
  { apply lower_slug_starts_clean.
    by rewrite lower_rev, all_chars_rev. }
  destruct Hx as [->| ->]; unfold strip.
  - rewrite (lstrip_id b) by done. by apply rstrip_id.
  - rewrite lstrip_id.
    + unfold rstrip. rewrite rev_snoc. simpl.
      by rewrite lstrip_id, rev_involutive.
    + destruct b as [|c b]; [done|]. by rewrite app_String.
Qed.

(** X26. A slug that [CollectionCreateSchema] or [CollectionUpdateSchema]
    lets through is accepted by the model's [validate_slug]: the model
    stores it lower-cased and without the newline that the pattern of the
    schema allows at its end. *)
Theorem schema_slug_accepted (sl : string) :
  schema_slug_ok sl = true →
  validate_slug sl = Return (lower (chomp sl)).
Proof.
  unfold schema_slug_ok, length_between.
  intros [[Hmin Hmax]%andb_true_iff Hpattern]%andb_true_iff.
  apply Nat.leb_le in Hmin, Hmax.
  assert (Hfull : str_truthy sl = true).
  { destruct sl; [simpl in Hmin; lia|done]. }
  rewrite Hfull in Hpattern. unfold slug_pattern_matches in Hpattern.
  rewrite chomp_lower in Hpattern.
  apply andb_true_iff in Hpattern as [Hbody Hchars].
  set (b := chomp sl) in *.
  assert (Hne : b ≠ "").
  { intros Hb. by rewrite Hb in Hbody. }
  assert (Hstrip : strip sl = b).
  { apply strip_body; [done|done|]. unfold b.
    destruct (chomp_spec sl) as [->|Hsl]; [by left|by right]. }
  assert (Hlen : (String.length b ≤ String.length sl)%nat).
  { unfold b. destruct (chomp_spec sl) as [->|Hsl]; [done|].
    rewrite Hsl at 2. rewrite string_length_app. lia. }
  unfold validate_slug. rewrite Hfull, Hstrip. simpl.
  assert (str_truthy b = true) as ->.
  { unfold str_truthy. by rewrite bool_decide_eq_false_2. }
  simpl. rewrite Hbody, Hchars. simpl.
  rewrite (proj2 (Z.ltb_ge _ _)); [done|].
  rewrite string_length_lower. lia.
Qed.

Lemma schema_slug_accepted_witness :
  validate_slug ("My-Slug" +:+ String newline "") = Return "my-slug".
Proof.
  by rewrite (schema_slug_accepted ("My-Slug" +:+ String newline ""));
    vm_compute.
Defined.
